(** * RaycastingScene

    A shallow embedding of [cpp/open3d/t/geometry/RaycastingScene.cpp]:
    the traversal filter that counts surface crossings, the closest-point
    callback, the batched ray caster, the lazily committed scene and the
    derived distance and occupancy queries.

    Conventions of the embedding.
    - A C pointer into an array ([float*], [unsigned int*], [int*], the
      storage of a [std::vector]) is a function from indices to values;
      a write [p[i] = v] is [store p i v].
    - [size_t] values are [N]; the code never gets near 2^64, so their
      arithmetic is left unbounded.  [unsigned int] fields that receive a
      [size_t] are truncated to 32 bits explicitly ([to_uint32]).
    - [float] is IEEE-754 binary32, taken from the Standard Library's
      executable specification [SpecFloat] with precision 24 and [emax] 128.
    - [int] counters are [Z]; [%] on [int] is [Z.rem] (truncated division).
    - Index arithmetic on [unsigned int] values (the closest-point
      callback's [3 * primID + k] and [3 * triangles[..] + c]) wraps modulo
      2^32.
    - An error the provider reports goes to [ErrorFunction] and ends the
      call; for a registration the errors are an argument ([rtcError]), and
      [AddTriangles_run] gives the scene a failed call leaves behind.
    - The acceleration provider (embree), the tensor container and Eigen are
      outside the file: what the code needs from them enters as Section
      variables.

    The module [PeerConnectionManager] embeds the observers that
    [cpp/open3d/visualization/webrtc_server/PeerConnectionManager.h] defines
    inline. *)

From Stdlib Require Import String.
From Stdlib Require Import ZArith NArith Bool List Lia.
From Stdlib Require Import SpecFloat.
Import ListNotations.

Set Implicit Arguments.

(** ** Single-precision floats *)

Module Float32.

Definition prec : Z := 24.
Definition emax : Z := 128.

Definition float : Type := spec_float.

Definition zero : float := S754_zero false.
Definition one : float := S754_finite false 8388608 (-23).
Definition infinity : float := S754_infinity false.

Definition add (x y : float) : float := SFadd prec emax x y.
Definition sub (x y : float) : float := SFsub prec emax x y.
Definition mul (x y : float) : float := SFmul prec emax x y.
Definition div (x y : float) : float := SFdiv prec emax x y.
Definition sqrt (x : float) : float := SFsqrt prec emax x.

(** The C++ comparisons [==], [!=] and [<]: all three are false on a NaN
    operand, except [!=], which is true. *)
Definition eqb (x y : float) : bool := SFeqb x y.
Definition neb (x y : float) : bool := negb (SFeqb x y).
Definition ltb (x y : float) : bool := SFltb x y.

(** Conversion of an [int] to [float] ([cast<float>()], [To(Float32)]). *)
Definition of_int (z : Z) : float := binary_normalize prec emax z 0 false.

Definition is_zero (x : float) : bool :=
  match x with S754_zero _ => true | _ => false end.

Definition is_finite (x : float) : bool :=
  match x with S754_zero _ | S754_finite _ _ _ => true | _ => false end.

End Float32.

Abbreviation float := Float32.float.

(** ** Memory and loops *)

Definition ptr (A : Type) : Type := N -> A.

Definition store {A : Type} (p : ptr A) (i : N) (v : A) : ptr A :=
  fun j => if N.eqb j i then v else p j.

(** [for_loop count i body s] runs [body i], [body (i+1)], ... [count]
    times; [for_range lo hi] is [for (i = lo; i < hi; ++i)]. *)
Fixpoint for_loop {S : Type} (count : nat) (i : N) (body : N -> S -> S) (s : S) : S :=
  match count with
  | O => s
  | Datatypes.S count' => for_loop count' (N.succ i) body (body i s)
  end.

Definition for_range {S : Type} (lo hi : N) (body : N -> S -> S) (s : S) : S :=
  for_loop (N.to_nat (hi - lo)) lo body s.

Definition to_uint32 (n : N) : N := (n mod 4294967296)%N.

(** ** The provider's ray and hit records (embree3/rtcore_ray.h) *)

(** [RTC_INVALID_GEOMETRY_ID] is [((unsigned int)-1)]. *)
Definition RTC_INVALID_GEOMETRY_ID : N := 4294967295.

Record RTCRay : Type := mkRTCRay {
  org_x : float; org_y : float; org_z : float;
  tnear : float;
  dir_x : float; dir_y : float; dir_z : float;
  time : float;
  tfar : float;
  mask : N;
  id : N;
  flags : N
}.

Record RTCHit : Type := mkRTCHit {
  Ng_x : float; Ng_y : float; Ng_z : float;
  u : float; v : float;
  primID : N;
  geomID : N;
  instID0 : N
}.

Record RTCRayHit : Type := mkRTCRayHit {
  ray : RTCRay;
  hit : RTCHit
}.

Definition set_tfar (r : RTCRay) (t : float) : RTCRay :=
  mkRTCRay (org_x r) (org_y r) (org_z r) (tnear r)
           (dir_x r) (dir_y r) (dir_z r) (time r) t (mask r) (id r) (flags r).

Definition set_id (r : RTCRay) (k : N) : RTCRay :=
  mkRTCRay (org_x r) (org_y r) (org_z r) (tnear r)
           (dir_x r) (dir_y r) (dir_z r) (time r) (tfar r) (mask r) k (flags r).

(** ** The crossing-count traversal filter *)

Module Filter.

(** [std::tuple<uint32_t, uint32_t, float>]: geometry id, primitive id and
    [tfar] of the last crossing recorded for a ray. *)
Definition gpt : Type := (N * N * float)%type.

Definition gpt_geom (x : gpt) : N := fst (fst x).
Definition gpt_prim (x : gpt) : N := snd (fst x).
Definition gpt_tfar (x : gpt) : float := snd x.

(** The part of [CountIntersectionsContext] the filter reads and writes:
    the vector behind [previous_geom_prim_ID_tfar] and the array behind
    [intersections]. *)
Record CountIntersectionsContext : Type := mkContext {
  previous_geom_prim_ID_tfar : ptr gpt;
  intersections : ptr Z
}.

Record RTCFilterFunctionNArguments : Type := mkArgs {
  valid : ptr Z;
  context : option CountIntersectionsContext;   (* [None] is [nullptr] *)
  rayN : ptr RTCRay;
  hitN : ptr RTCHit;
  N_ : N
}.

(** The condition of the [if] at lines 115-117. *)
Definition new_crossing (prev : gpt) (h : RTCHit) (r : RTCRay) : bool :=
  negb (N.eqb (gpt_geom prev) (geomID h))
  || (negb (N.eqb (gpt_prim prev) (primID h))
      && Float32.neb (gpt_tfar prev) (tfar r)).

(** The body of the loop over the rays of the packet ([vi] is [ui], so the
    test [vi >= N] never fires inside the loop). *)
Definition lane (rays : ptr RTCRay) (hits : ptr RTCHit) (ui : N)
           (st : ptr Z * CountIntersectionsContext)
  : ptr Z * CountIntersectionsContext :=
  let '(vld, ctx) := st in
  if negb (Z.eqb (vld ui) (-1)) then st
  else
    let r := rays ui in
    let h := hits ui in
    let ray_id := id r in
    let gpID : gpt := (geomID h, primID h, tfar r) in
    let prev := previous_geom_prim_ID_tfar ctx ray_id in
    let ctx' :=
      if new_crossing prev h r
      then mkContext (store (previous_geom_prim_ID_tfar ctx) ray_id gpID)
                     (store (intersections ctx) ray_id
                            (intersections ctx ray_id + 1)%Z)
      else ctx in
    (store vld ui 0%Z, ctx').

(** [CountIntersectionsFunc]: returns the [valid] mask and the context
    state it leaves behind. *)
Definition CountIntersectionsFunc (args : RTCFilterFunctionNArguments)
  : ptr Z * option CountIntersectionsContext :=
  match context args with
  | None => (valid args, None)
  | Some ctx =>
      let '(vld, ctx') :=
        for_range 0 (N_ args) (lane (rayN args) (hitN args)) (valid args, ctx) in
      (vld, Some ctx')
  end.

(** The acceptance rule in the words of the specification: the
    [(geom, prim)] pair differs from the last one, and it is not the case
    that the primitive and [t] both equal the last ones. *)
Definition spec_new_crossing (last : gpt) (h : RTCHit) (r : RTCRay) : Prop :=
  (geomID h, primID h) <> (gpt_geom last, gpt_prim last)
  /\ ~ (primID h = gpt_prim last /\ Float32.eqb (tfar r) (gpt_tfar last) = true).

(** The "in effect" reading of the specification. *)
Definition spec_pair_differs (last : gpt) (h : RTCHit) : Prop :=
  (geomID h, primID h) <> (gpt_geom last, gpt_prim last).

(** A packet of one active ray, as the provider hands it to the filter. *)
Definition packet1 (ctx : CountIntersectionsContext) (r : RTCRay) (h : RTCHit)
  : RTCFilterFunctionNArguments :=
  mkArgs (fun _ => (-1)%Z) (Some ctx) (fun _ => r) (fun _ => h) 1.

End Filter.

(** ** Geometry, the provider's scene and the closest-point records *)

Record Vec3f : Type := mkVec3f { vx : float; vy : float; vz : float }.

(** Some of the members of embree's [RTCGeometryType]; the scene only ever
    registers triangles. *)
Inductive RTCGeometryType : Type :=
| RTC_GEOMETRY_TYPE_TRIANGLE
| RTC_GEOMETRY_TYPE_QUAD
| RTC_GEOMETRY_TYPE_USER.

(** A committed geometry: the two buffers [rtcSetNewGeometryBuffer] hands
    out, after the [memcpy]s. *)
Record RTCGeometry : Type := mkRTCGeometry {
  num_vertices : N;
  vertex_buffer : ptr float;
  num_triangles : N;
  index_buffer : ptr N
}.

(** [RTCBufferType], the two members the code names. *)
Inductive RTCBufferType : Type :=
| RTC_BUFFER_TYPE_INDEX
| RTC_BUFFER_TYPE_VERTEX.

(** The calls a registration makes into the provider, with the arguments
    that vary from one registration to the next: [rtcNewGeometry],
    [rtcSetNewGeometryBuffer] with its buffer type and item count,
    [rtcCommitGeometry] and [rtcAttachGeometry]. *)
Inductive RTCGeometryCall : Type :=
| NewGeometry
| SetNewGeometryBuffer (type : RTCBufferType) (itemCount : N)
| CommitGeometry
| AttachGeometry.

(** The calls into the provider that matter for the commit discipline. *)
Inductive RTCCall : Type :=
| CallCommitScene
| CallAttachGeometry
| CallIntersect1M (M : N)
| CallPointQuery.

(** The provider's scene: the attached geometries, the geometries the
    acceleration structure was last built from, and (ghost) the calls made
    so far, oldest first. *)
Record RTCScene : Type := mkRTCScene {
  attached : list RTCGeometry;
  bvh : list RTCGeometry;
  calls : list RTCCall
}.

Definition emit (c : RTCCall) (sc : RTCScene) : RTCScene :=
  mkRTCScene (attached sc) (bvh sc) (calls sc ++ [c]).

Definition rtcCommitScene (sc : RTCScene) : RTCScene :=
  mkRTCScene (attached sc) (attached sc) (calls sc ++ [CallCommitScene]).

(** Geometry ids are handed out in order of attachment, from 0. *)
Definition rtcAttachGeometry (sc : RTCScene) (g : RTCGeometry) : RTCScene * N :=
  (mkRTCScene (attached sc ++ [g]) (bvh sc) (calls sc ++ [CallAttachGeometry]),
   to_uint32 (N.of_nat (length (attached sc)))).

Definition rebuilds (sc : RTCScene) : nat :=
  length (filter (fun c => match c with CallCommitScene => true | _ => false end)
                 (calls sc)).

Definition geometry_ptr : Type := (RTCGeometryType * ptr float * ptr N)%type.

(** [RaycastingScene::Impl]. *)
Record Impl : Type := mkImpl {
  scene : RTCScene;
  scene_committed : bool;
  geometry_ptrs : list geometry_ptr
}.

Record RTCPointQuery : Type := mkRTCPointQuery {
  qx : float; qy : float; qz : float;
  qtime : float;
  radius : float
}.

Definition set_radius (q : RTCPointQuery) (d : float) : RTCPointQuery :=
  mkRTCPointQuery (qx q) (qy q) (qz q) (qtime q) d.

Record ClosestPointResult : Type := mkClosestPointResult {
  cp_p : Vec3f;
  cp_primID : N;
  cp_geomID : N;
  geometry_ptrs_ptr : list geometry_ptr
}.

(** The five output arrays of [Impl::CastRays]. *)
Record CastOutputs : Type := mkCastOutputs {
  t_hit : ptr float;
  geometry_ids : ptr N;
  primitive_ids : ptr N;
  primitive_uvs : ptr float;
  primitive_normals : ptr float
}.

(** The three output arrays of [Impl::ComputeClosestPoints]. *)
Record ClosestOutputs : Type := mkClosestOutputs {
  closest_points : ptr float;
  cl_geometry_ids : ptr N;
  cl_primitive_ids : ptr N
}.

(** ** Tensors and failure *)

Inductive Device : Type := CPU (n : N) | CUDA (n : N).

Definition Device_eqb (a b : Device) : bool :=
  match a, b with
  | CPU i, CPU j | CUDA i, CUDA j => N.eqb i j
  | _, _ => false
  end.

(** A tensor of element type [A]: the dtype is the type parameter, so
    [AssertDtype] cannot fail.  [data] is the contiguous row-major storage. *)
Record Tensor (A : Type) : Type := mkTensor {
  device : Device;
  shape : list N;
  data : ptr A
}.

Definition NumElements (sh : list N) : N := fold_right N.mul 1%N sh.

Definition GetLength {A : Type} (t : Tensor A) : N := hd 0%N (shape t).

(** Modelled from the spec: [utility::LogError] (Logging.h is not among the
    sources) ends the call with a failure carrying the message; nothing
    after it runs. *)
Inductive Result (A : Type) : Type :=
| Ok (a : A)
| LogError (msg : string).

Arguments Ok {A} a.
Arguments LogError {A} msg.

Definition bind {A B : Type} (r : Result A) (k : A -> Result B) : Result B :=
  match r with
  | Ok a => k a
  | LogError msg => LogError msg
  end.

Notation "x <- e ;; k" := (bind e (fun x => k))
  (at level 61, e at next level, right associativity).
Notation "' pat <- e ;; k" := (bind e (fun x => match x with pat => k end))
  (at level 61, pat pattern, e at next level, right associativity).

Definition check (b : bool) (msg : string) : Result unit :=
  if b then Ok tt else LogError msg.

Definition is_ok {A : Type} (r : Result A) : bool :=
  match r with Ok _ => true | LogError _ => false end.

(** [ErrorFunction], which the constructor installs as the error function
    of the provider's device: an error the provider reports ends the call
    it is reported in. *)
Definition ErrorFunction {A : Type} (str : string) : Result A :=
  LogError ("embree error: " ++ str)%string.

(** [AssertTensorDtypeLastDimDeviceMinNDim] with the default [min_ndim = 2]. *)
Definition AssertTensorDtypeLastDimDeviceMinNDim {A : Type}
           (tensor : Tensor A) (last_dim : N) (dev : Device) : Result unit :=
  _ <- check (Device_eqb (device tensor) dev) "Tensor has the wrong device"%string ;;
  _ <- check (2 <=? length (shape tensor))%nat "Tensor ndim is smaller than expected"%string ;;
  check (N.eqb (last (shape tensor) 0%N) last_dim)
        "The last dimension of the Tensor has the wrong size"%string.

(** [AssertShapeCompatible({nullopt, 3})]. *)
Definition AssertShapeCompatible_x3 {A : Type} (tensor : Tensor A) : Result unit :=
  match shape tensor with
  | [_; 3%N] => Ok tt
  | _ => LogError "Tensor shape is not compatible with {None, 3}"%string
  end.

Record TriangleMesh : Type := mkTriangleMesh {
  GetVertices : Tensor float;
  GetTriangles : Tensor Z      (* signed 64-bit indices *)
}.

(** [Tensor::To(UInt32)] on integer data. *)
Definition To_uint32 (t : Tensor Z) : Tensor N :=
  mkTensor (device t) (shape t) (fun j => Z.to_N (data t j mod 4294967296)%Z).

Record CastRaysResult : Type := mkCastRaysResult {
  r_t_hit : Tensor float;
  r_geometry_ids : Tensor N;
  r_primitive_ids : Tensor N;
  r_primitive_uvs : Tensor float;
  r_primitive_normals : Tensor float
}.

Record ClosestPointsResult : Type := mkClosestPointsResult {
  r_points : Tensor float;
  r_cl_geometry_ids : Tensor N;
  r_cl_primitive_ids : Tensor N
}.

(** The maximum number of rays used in calls to embree. *)
Definition MAX_BATCH_SIZE : N := 1048576.

(** [Impl::tensor_device] is default-constructed: the CPU. *)
Definition tensor_device : Device := CPU 0.

(** State of the batch loop of [Impl::CastRays]: the provider's scene, the
    [rayhits] vector and the output arrays. *)
Record CastState : Type := mkCastState {
  cs_scene : RTCScene;
  cs_rayhits : ptr RTCRayHit;
  cs_out : CastOutputs
}.

(** State of the batch loop of [Impl::CountIntersections]. *)
Record CountState : Type := mkCountState {
  ct_scene : RTCScene;
  ct_rayhits : ptr RTCRayHit;
  ct_context : Filter.CountIntersectionsContext
}.

(** State of the loop of [Impl::ComputeClosestPoints]. *)
Record ClosestState : Type := mkClosestState {
  cl_scene : RTCScene;
  cl_out : ClosestOutputs
}.

(** [std::vector<RTCRayHit> rayhits(n)] value-initialises its elements. *)
Definition zero_rayhit : RTCRayHit :=
  let z := Float32.zero in
  mkRTCRayHit (mkRTCRay z z z z z z z z z 0 0 0) (mkRTCHit z z z z z 0 0 0).

(** ** PeerConnectionManager.h: the observers the header defines

    [cpp/open3d/visualization/webrtc_server/PeerConnectionManager.h].  Only
    the code the header itself holds is embedded.  What the WebRTC library
    does enters as arguments: the ICE connection states it reports, and
    whether the statistics callback has received anything by the time of
    each test.  A [Json::Value] used as an object is a list of members
    with distinct names; the order of the members plays no part in what the
    code does with it. *)

Module PeerConnectionManager.

(** [webrtc::PeerConnectionInterface::IceConnectionState]: the two states
    the code names, and the others. *)
Inductive IceConnectionState : Type :=
| kIceConnectionFailed
| kIceConnectionClosed
| kIceConnectionOther (code : N).

Definition is_terminal (state : IceConnectionState) : bool :=
  match state with
  | kIceConnectionFailed | kIceConnectionClosed => true
  | kIceConnectionOther _ => false
  end.

(** [PeerConnectionObserver]: the fields [OnIceConnectionChange] and the
    destructor touch.  [pc_] holds whether [pc_.get()] is not null;
    [hangups] (ghost) lists the peer ids of the detached threads that call
    [HangUp], oldest first. *)
Record PeerConnectionObserver : Type := mkPeerConnectionObserver {
  peerid_ : string;
  pc_ : bool;
  ice_candidate_list_ : list string;
  deleting_ : bool;
  hangups : list string
}.

(** The constructor; [created] is whether [CreatePeerConnection] returned
    a connection. *)
Definition new_PeerConnectionObserver (peerid : string) (created : bool)
  : PeerConnectionObserver :=
  mkPeerConnectionObserver peerid created [] false [].

Definition OnIceConnectionChange (state : IceConnectionState)
           (o : PeerConnectionObserver) : PeerConnectionObserver :=
  match state with
  | kIceConnectionFailed | kIceConnectionClosed =>
      (* ice_candidate_list_.clear() *)
      let o1 := mkPeerConnectionObserver (peerid_ o) (pc_ o) [] (deleting_ o)
                                         (hangups o) in
      if negb (deleting_ o1)
      then mkPeerConnectionObserver (peerid_ o1) (pc_ o1) (ice_candidate_list_ o1)
                                    (deleting_ o1) (hangups o1 ++ [peerid_ o1])
      else o1
  | kIceConnectionOther _ => o
  end.

(** The states the library reports one after the other. *)
Definition reports (states : list IceConnectionState) (o : PeerConnectionObserver)
  : PeerConnectionObserver :=
  fold_left (fun o' state => OnIceConnectionChange state o') states o.

(** [~PeerConnectionObserver]; [close_reports] are the states [pc_->Close()]
    reports through [OnIceConnectionChange] before it returns. *)
Definition delete_PeerConnectionObserver (close_reports : list IceConnectionState)
           (o : PeerConnectionObserver) : PeerConnectionObserver :=
  if pc_ o
  then reports close_reports
               (mkPeerConnectionObserver (peerid_ o) (pc_ o) (ice_candidate_list_ o)
                                         true (hangups o))
  else o.

(** [Json::Value] as an object. *)
Definition Json_object (V : Type) : Type := list (string * V).

(** [obj[k] = v]. *)
Fixpoint json_set {V : Type} (k : string) (v : V) (obj : Json_object V)
  : Json_object V :=
  match obj with
  | [] => [(k, v)]
  | (k', v') :: rest =>
      if String.eqb k' k then (k, v) :: rest else (k', v') :: json_set k v rest
  end.

Fixpoint json_get {V : Type} (k : string) (obj : Json_object V) : option V :=
  match obj with
  | [] => None
  | (k', v') :: rest => if String.eqb k' k then Some v' else json_get k rest
  end.

Definition json_empty {V : Type} (obj : Json_object V) : bool :=
  match obj with [] => true | _ :: _ => false end.

(** [webrtc::RTCStats]: its id and its members, each with its name and
    [ValueToString()]. *)
Record RTCStats : Type := mkRTCStats {
  stats_id : string;
  Members : list (string * string)
}.

(** The inner loop of [OnStatsDelivered]. *)
Definition statsMembers (members : list (string * string)) : Json_object string :=
  fold_left (fun obj member => json_set (fst member) (snd member) obj) members [].

(** [PeerConnectionStatsCollectorCallback::OnStatsDelivered] on [report_]. *)
Definition OnStatsDelivered (report : list RTCStats)
           (report_ : Json_object (Json_object string))
  : Json_object (Json_object string) :=
  fold_left (fun obj stats => json_set (stats_id stats) (statsMembers (Members stats)) obj)
            report report_.

Definition clearReport (report_ : Json_object (Json_object string))
  : Json_object (Json_object string) := [].

(** The loop of [getStats]: [empty_at k] is what
    [stats_callback_->getReport().empty()] answers at the test made after
    [k] sleeps.  The result is the number of sleeps. *)
Fixpoint getStats_loop (fuel : nat) (count : Z) (empty_at : nat -> bool)
         (slept : nat) : option nat :=
  match fuel with
  | O => None
  | Datatypes.S fuel' =>
      if empty_at slept
      then if (0 <? count - 1)%Z     (* --count > 0 *)
           then getStats_loop fuel' (count - 1) empty_at (Datatypes.S slept)
           else Some slept
      else Some slept
  end.

Definition getStats_sleeps (fuel : nat) (empty_at : nat -> bool) : option nat :=
  getStats_loop fuel 10 empty_at 0.

End PeerConnectionManager.

(** ** A small scene to run the code on

    A stand-in for the provider and for embree's and Eigen's arithmetic,
    enough to execute the definitions of this file on concrete input: one
    mesh of two triangles that share their first vertex, and a "traversal"
    that decides by the sign of the ray origin's x coordinate. *)

Module Example.

Definition two : float := S754_finite false 8388608 (-22).
Definition minus_one : float := S754_finite true 8388608 (-23).

Definition of_list {A : Type} (d : A) (l : list A) : ptr A :=
  fun j => nth (N.to_nat j) l d.

Definition DivUp (x y : N) : N := ((x + y - 1) / y)%N.

Definition the_hit (prim : N) : RTCHit :=
  mkRTCHit two Float32.zero Float32.zero Float32.zero Float32.zero prim 0 RTC_INVALID_GEOMETRY_ID.

Definition is_negative (x : float) : bool :=
  match x with S754_finite true _ _ => true | _ => false end.

(** A hit at distance 1 for rays that start at negative x, when there is
    geometry at all. *)
Definition rtcNearestHit (ix : list RTCGeometry) (r : RTCRay) : option (float * RTCHit) :=
  match ix with
  | [] => None
  | _ :: _ => if is_negative (org_x r) then Some (Float32.one, the_hit 0) else None
  end.

(** One candidate for rays that start at x = 0; three, two of them at the
    same distance on different primitives, for rays that start at negative
    x; none otherwise. *)
Definition rtcFilterCandidates (ix : list RTCGeometry) (r : RTCRay)
  : list (float * RTCHit) :=
  match ix with
  | [] => []
  | _ :: _ =>
      if Float32.is_zero (org_x r) then [(Float32.one, the_hit 0)]
      else if is_negative (org_x r)
           then [(Float32.one, the_hit 0); (Float32.one, the_hit 1); (two, the_hit 1)]
           else []
  end.

Fixpoint prims_from (g : N) (ix : list RTCGeometry) : list (N * N) :=
  match ix with
  | [] => []
  | geom :: rest =>
      map (fun p => (g, N.of_nat p)) (seq 0 (N.to_nat (num_triangles geom)))
      ++ prims_from (N.succ g) rest
  end.

(** Every primitive of every geometry, in index order, none culled. *)
Definition rtcPointQueryOrder (ix : list RTCGeometry) (q : RTCPointQuery) : list (N * N) :=
  prims_from 0 ix.

Definition rtcPointQueryVisits (ix : list RTCGeometry) (q : RTCPointQuery)
           (c : N * N) : bool := true.

(** The first vertex stands in for the closest point of the triangle. *)
Definition closestPointTriangle (q v0 v1 v2 : Vec3f) : Vec3f := v0.

Definition norm3 (x y z : float) : float :=
  Float32.sqrt
    (Float32.add (Float32.add (Float32.mul x x) (Float32.mul y y)) (Float32.mul z z)).

Definition distance (a b : Vec3f) : float :=
  norm3 (Float32.sub (vx a) (vx b)) (Float32.sub (vy a) (vy b))
        (Float32.sub (vz a) (vz b)).

(** A provider that refuses buffers of more than 2^32 - 1 items and
    reports no other error. *)
Definition rtcError (c : RTCGeometryCall) : option string :=
  match c with
  | SetNewGeometryBuffer _ n =>
      if (4294967295 <? n)%N then Some "buffer too large"%string else None
  | _ => None
  end.

Definition uninit_float : ptr float := fun _ => S754_nan.
Definition uninit_uint32 : ptr N := fun _ => 7%N.
Definition uninit_int : ptr Z := fun _ => 7%Z.
Definition uninit_Vec3f : Vec3f := mkVec3f S754_nan S754_nan S754_nan.

(** Four vertices in the plane x = 1 and the two triangles (0,1,2), (0,2,3). *)
Definition vertex_data : ptr float :=
  let o := Float32.one in
  let z := Float32.zero in
  of_list z [o; z; z;  o; o; z;  o; z; o;  o; o; o].

Definition index_data : ptr N := of_list 0%N [0; 1; 2;  0; 2; 3]%N.

Definition vertices : Tensor float := mkTensor (CPU 0) [4; 3]%N vertex_data.
Definition triangles : Tensor N := mkTensor (CPU 0) [2; 3]%N index_data.

(** A vertex tensor of 2^32 rows. *)
Definition many_vertices : Tensor float :=
  mkTensor (CPU 0) [4294967296; 3]%N (fun _ => Float32.zero).

Definition big_mesh : TriangleMesh :=
  mkTriangleMesh many_vertices
                 (mkTensor (CPU 0) [2; 3]%N (of_list 0%Z [0; 1; 2;  0; 2; 3]%Z)).

(** The scene after registering the mesh, before any query. *)
Definition registered : Impl :=
  mkImpl (mkRTCScene [mkRTCGeometry 4 vertex_data 2 index_data] [] [CallAttachGeometry])
         false
         [(RTC_GEOMETRY_TYPE_TRIANGLE, vertex_data, index_data)].

(** Three rays along +x, starting at x = -1, 0 and 1. *)
Definition ray_data : ptr float :=
  let o := Float32.one in
  let z := Float32.zero in
  of_list z [minus_one; z; z; o; z; z;   z; z; z; o; z; z;   o; z; z; o; z; z].

Definition rays : Tensor float := mkTensor (CPU 0) [3; 6]%N ray_data.

(** Two query points: the origin and (-1, 0, 0). *)
Definition point_data : ptr float :=
  let z := Float32.zero in
  of_list z [z; z; z;  minus_one; z; z].

Definition points : Tensor float := mkTensor (CPU 0) [2; 3]%N point_data.

(** 2^32 + 1 query points, all at the origin. *)
Definition many_points : Tensor float :=
  mkTensor (CPU 0) [4294967297; 3]%N (fun _ => Float32.zero).

Definition fresh_outputs : CastOutputs :=
  mkCastOutputs uninit_float uninit_uint32 uninit_uint32 uninit_float uninit_float.

(** A slot that reports a hit whose normal has zero length, and one whose
    normal (2^-100, 0, 0) is too short for its square to be representable. *)
Definition degenerate_slot : RTCRayHit :=
  let z := Float32.zero in
  mkRTCRayHit (mkRTCRay z z z z z z z z Float32.one 0 0 0)
              (mkRTCHit z z z z z 0 0 RTC_INVALID_GEOMETRY_ID).

Definition tiny_normal_slot : RTCRayHit :=
  let z := Float32.zero in
  mkRTCRayHit (mkRTCRay z z z z z z z z Float32.one 0 0 0)
              (mkRTCHit (S754_finite false 8388608 (-123)) z z z z 0 0
                        RTC_INVALID_GEOMETRY_ID).

End Example.

(** ** The scene and its queries *)

Section RaycastingScene.

(** *** What the code takes from outside

    The provider's traversal, as a function of the geometries the
    acceleration structure was built from:
    - [rtcNearestHit]: the closest hit of a ray, [None] on a miss; on a
      miss the provider leaves the ray and hit record untouched, on a hit
      it writes the hit distance to [tfar] and fills the hit record;
    - [rtcFilterCandidates]: the candidate hits along a ray, in the order
      the traversal presents them to a filter that rejects every one;
    - [rtcPointQueryOrder] and [rtcPointQueryVisits]: the order in which a
      point query walks the primitives, and whether a primitive is still
      visited under the current (shrinking) query radius. *)
Variable rtcNearestHit : list RTCGeometry -> RTCRay -> option (float * RTCHit).
Variable rtcFilterCandidates : list RTCGeometry -> RTCRay -> list (float * RTCHit).
Variable rtcPointQueryOrder : list RTCGeometry -> RTCPointQuery -> list (N * N).
Variable rtcPointQueryVisits : list RTCGeometry -> RTCPointQuery -> N * N -> bool.

(** [closestPointTriangle] and [distance] of embree's
    common/math/closest_point.h and vec3.h. *)
Variable closestPointTriangle : Vec3f -> Vec3f -> Vec3f -> Vec3f -> Vec3f.
Variable distance : Vec3f -> Vec3f -> float.

(** [utility::DivUp] of open3d/utility/Helper.h. *)
Variable DivUp : N -> N -> N.

(** [DivUp] is the quotient rounded up.  Nothing is assumed of a zero
    divisor (which the code reaches for an empty batch of rays). *)
Hypothesis DivUp_spec :
  forall x y : N, (0 < y)%N -> DivUp x y = ((x + y - 1) / y)%N.

(** The traversal does not look at [ray.id], which is the caller's to use. *)
Hypothesis rtcNearestHit_id :
  forall (ix : list RTCGeometry) (r : RTCRay) (k : N),
    rtcNearestHit ix (set_id r k) = rtcNearestHit ix r.

(** Eigen's [norm()] of a column of three floats. *)
Variable colwise_norm : float -> float -> float -> float.

(** A norm does not see the signs of the coordinates. *)
Hypothesis colwise_norm_abs :
  forall x y z : float,
    colwise_norm x y z = colwise_norm (SFabs x) (SFabs y) (SFabs z).

(** Contents of storage that is allocated but not initialised. *)
Variable uninit_float : ptr float.
Variable uninit_uint32 : ptr N.
Variable uninit_int : ptr Z.
Variable uninit_Vec3f : Vec3f.

(** The error, if any, that the provider reports to the device's error
    function during a call that creates, sizes, commits or attaches a
    geometry. *)
Variable rtcError : RTCGeometryCall -> option string.

(** *** The commit flag *)

(** The block [if (!scene_committed) { rtcCommitScene(scene);
    scene_committed = true; }] that opens each query of [Impl]. *)
Definition commit_if_needed (impl : Impl) : Impl :=
  if negb (scene_committed impl)
  then mkImpl (rtcCommitScene (scene impl)) true (geometry_ptrs impl)
  else impl.

(** *** Impl::CastRays *)

Definition rtcIntersect1 (ix : list RTCGeometry) (rh : RTCRayHit) : RTCRayHit :=
  match rtcNearestHit ix (ray rh) with
  | Some (t, h) => mkRTCRayHit (set_tfar (ray rh) t) h
  | None => rh
  end.

(** [rtcIntersect1M] without a filter: [M] independent single rays. *)
Definition rtcIntersect1M (sc : RTCScene) (rayhits : ptr RTCRayHit) (M : N)
  : RTCScene * ptr RTCRayHit :=
  (emit (CallIntersect1M M) sc,
   fun j => if (j <? M)%N then rtcIntersect1 (bvh sc) (rayhits j) else rayhits j).

(** First inner loop (lines 233-259): ray [i] goes to slot [i - start_idx];
    the hit fields other than [geomID] and [instID[0]] keep what the slot
    held. *)
Definition fill_rayhit (LINE_INTERSECTION : bool) (rays : ptr float)
           (start_idx i : N) (rayhits : ptr RTCRayHit) : ptr RTCRayHit :=
  let rh := rayhits (i - start_idx)%N in
  let r := fun k : N => rays (i * 6 + k)%N in
  let dir := fun k : N =>
    if LINE_INTERSECTION then Float32.sub (r (3 + k)%N) (r k) else r (3 + k)%N in
  let h := hit rh in
  store rayhits (i - start_idx)%N
    (mkRTCRayHit
       (mkRTCRay (r 0%N) (r 1%N) (r 2%N) Float32.zero
                 (dir 0%N) (dir 1%N) (dir 2%N) (time (ray rh))
                 (if LINE_INTERSECTION then Float32.one else Float32.infinity)
                 0 (to_uint32 (i - start_idx)) 0)
       (mkRTCHit (Ng_x h) (Ng_y h) (Ng_z h) (u h) (v h) (primID h)
                 RTC_INVALID_GEOMETRY_ID RTC_INVALID_GEOMETRY_ID)).

(** Second inner loop (lines 264-288). *)
Definition write_hit (rayhits : ptr RTCRayHit) (start_idx i : N)
           (o : CastOutputs) : CastOutputs :=
  let rh := rayhits (i - start_idx)%N in
  let idx := (id (ray rh) + start_idx)%N in
  let h := hit rh in
  let t_hit' := store (t_hit o) idx (tfar (ray rh)) in
  if negb (N.eqb (geomID h) RTC_INVALID_GEOMETRY_ID) then
    let inv_norm :=
      Float32.div Float32.one
        (Float32.sqrt
           (Float32.add
              (Float32.add (Float32.mul (Ng_x h) (Ng_x h))
                           (Float32.mul (Ng_y h) (Ng_y h)))
              (Float32.mul (Ng_z h) (Ng_z h)))) in
    mkCastOutputs t_hit'
      (store (geometry_ids o) idx (geomID h))
      (store (primitive_ids o) idx (primID h))
      (store (store (primitive_uvs o) (idx * 2 + 0)%N (u h)) (idx * 2 + 1)%N (v h))
      (store (store (store (primitive_normals o)
                (idx * 3 + 0)%N (Float32.mul (Ng_x h) inv_norm))
                (idx * 3 + 1)%N (Float32.mul (Ng_y h) inv_norm))
                (idx * 3 + 2)%N (Float32.mul (Ng_z h) inv_norm))
  else
    mkCastOutputs t_hit'
      (store (geometry_ids o) idx RTC_INVALID_GEOMETRY_ID)
      (store (primitive_ids o) idx RTC_INVALID_GEOMETRY_ID)
      (store (store (primitive_uvs o) (idx * 2 + 0)%N Float32.zero)
             (idx * 2 + 1)%N Float32.zero)
      (store (store (store (primitive_normals o)
                (idx * 3 + 0)%N Float32.zero)
                (idx * 3 + 1)%N Float32.zero)
                (idx * 3 + 2)%N Float32.zero).

(** Body of the loop over the batches (lines 229-289); [size] is
    [rayhits.size()]. *)
Definition cast_batch (LINE_INTERSECTION : bool) (rays : ptr float)
           (num_rays size n : N) (st : CastState) : CastState :=
  let start_idx := (n * size)%N in
  let end_idx := N.min num_rays ((n + 1) * size) in
  let rayhits1 :=
    for_range start_idx end_idx (fill_rayhit LINE_INTERSECTION rays start_idx)
              (cs_rayhits st) in
  let sr := rtcIntersect1M (cs_scene st) rayhits1 (end_idx - start_idx) in
  mkCastState (fst sr) (snd sr)
    (for_range start_idx end_idx (write_hit (snd sr) start_idx) (cs_out st)).

(** [Impl::CastRays<LINE_INTERSECTION>], with the value of
    [max_batch_size] as an argument. *)
Definition Impl_CastRays_with (max_batch_size : N) (LINE_INTERSECTION : bool)
           (rays : ptr float) (num_rays : N) (o : CastOutputs) (impl : Impl)
  : Impl * CastOutputs :=
  let impl1 := commit_if_needed impl in
  let size := N.min num_rays max_batch_size in
  let num_batches := DivUp num_rays size in
  let st :=
    for_range 0 num_batches (cast_batch LINE_INTERSECTION rays num_rays size)
              (mkCastState (scene impl1) (fun _ => zero_rayhit) o) in
  (mkImpl (cs_scene st) (scene_committed impl1) (geometry_ptrs impl1), cs_out st).

Definition Impl_CastRays : bool -> ptr float -> N -> CastOutputs -> Impl
                           -> Impl * CastOutputs :=
  Impl_CastRays_with MAX_BATCH_SIZE.

(** *** Impl::CountIntersections *)

(** The provider presenting one candidate hit to the filter, as a packet
    of one ray whose [tfar] is the candidate's distance.  A candidate the
    filter leaves valid becomes the ray's hit. *)
Definition present_candidate (st : Filter.CountIntersectionsContext * RTCRayHit)
           (c : float * RTCHit) : Filter.CountIntersectionsContext * RTCRayHit :=
  let r := set_tfar (ray (snd st)) (fst c) in
  let res := Filter.CountIntersectionsFunc (Filter.packet1 (fst st) r (snd c)) in
  match snd res with
  | Some ctx' =>
      if Z.eqb (fst res 0%N) 0 then (ctx', snd st)
      else (ctx', mkRTCRayHit r (snd c))
  | None => st
  end.

(** [rtcIntersect1M] with [CountIntersectionsFunc] installed as the
    context's filter: the rays of the batch in order, each with its
    candidates in traversal order. *)
Definition rtcIntersect1M_filter (sc : RTCScene)
           (ctx : Filter.CountIntersectionsContext)
           (rayhits : ptr RTCRayHit) (M : N)
  : RTCScene * (Filter.CountIntersectionsContext * ptr RTCRayHit) :=
  (emit (CallIntersect1M M) sc,
   for_range 0 M
     (fun j st =>
        let res := fold_left present_candidate
                     (rtcFilterCandidates (bvh sc) (ray (snd st j)))
                     (fst st, snd st j) in
        (fst res, store (snd st) j (snd res)))
     (ctx, rayhits)).

(** Inner loop (lines 325-341); here [ray.id] is the index of the ray in
    the whole input. *)
Definition fill_count_rayhit (rays : ptr float) (start_idx i : N)
           (rayhits : ptr RTCRayHit) : ptr RTCRayHit :=
  let rh := rayhits (i - start_idx)%N in
  let r := fun k : N => rays (i * 6 + k)%N in
  let h := hit rh in
  store rayhits (i - start_idx)%N
    (mkRTCRayHit
       (mkRTCRay (r 0%N) (r 1%N) (r 2%N) Float32.zero
                 (r 3%N) (r 4%N) (r 5%N) (time (ray rh))
                 Float32.infinity 0 (to_uint32 i) 0)
       (mkRTCHit (Ng_x h) (Ng_y h) (Ng_z h) (u h) (v h) (primID h)
                 RTC_INVALID_GEOMETRY_ID RTC_INVALID_GEOMETRY_ID)).

Definition count_batch (rays : ptr float) (num_rays size n : N)
           (st : CountState) : CountState :=
  let start_idx := (n * size)%N in
  let end_idx := N.min num_rays ((n + 1) * size) in
  let rayhits1 :=
    for_range start_idx end_idx (fill_count_rayhit rays start_idx)
              (ct_rayhits st) in
  let sr := rtcIntersect1M_filter (ct_scene st) (ct_context st) rayhits1
                                  (end_idx - start_idx) in
  mkCountState (fst sr) (snd (snd sr)) (fst (snd sr)).

Definition Impl_CountIntersections_with (max_batch_size : N)
           (rays : ptr float) (num_rays : N) (intersections : ptr Z) (impl : Impl)
  : Impl * ptr Z :=
  let impl1 := commit_if_needed impl in
  (* memset(intersections, 0, sizeof(int) * num_rays) *)
  let intersections0 : ptr Z :=
    fun j => if (j <? num_rays)%N then 0%Z else intersections j in
  let previous : ptr Filter.gpt :=
    fun _ => (RTC_INVALID_GEOMETRY_ID, RTC_INVALID_GEOMETRY_ID, Float32.zero) in
  let size := N.min num_rays max_batch_size in
  let num_batches := DivUp num_rays size in
  let st :=
    for_range 0 num_batches (count_batch rays num_rays size)
              (mkCountState (scene impl1) (fun _ => zero_rayhit)
                            (Filter.mkContext previous intersections0)) in
  (mkImpl (ct_scene st) (scene_committed impl1) (geometry_ptrs impl1),
   Filter.intersections (ct_context st)).

Definition Impl_CountIntersections : ptr float -> N -> ptr Z -> Impl -> Impl * ptr Z :=
  Impl_CountIntersections_with MAX_BATCH_SIZE.

(** *** The closest-point callback and Impl::ComputeClosestPoints *)

(** [ClosestPointFunc]: the arguments are the query, the result behind
    [userPtr] and the candidate's ids; it returns its boolean together
    with the query and the result as it leaves them.  [primID] and the
    entries of the index buffer are [unsigned int]s, so the indices
    [3 * primID + k] and [3 * triangles[..] + c] are computed modulo 2^32.
    A [geomID] outside [geometry_ptrs] is undefined behaviour in the code
    and changes nothing here. *)
Definition ClosestPointFunc (query : RTCPointQuery) (result : ClosestPointResult)
           (geomID primID : N) : bool * (RTCPointQuery * ClosestPointResult) :=
  let q := mkVec3f (qx query) (qy query) (qz query) in
  match nth_error (geometry_ptrs_ptr result) (N.to_nat geomID) with
  | Some (RTC_GEOMETRY_TYPE_TRIANGLE, vertices, triangles) =>
      let vtx := fun k : N =>
        let tri := triangles (to_uint32 (3 * primID + k)) in
        mkVec3f (vertices (to_uint32 (3 * tri + 0)))
                (vertices (to_uint32 (3 * tri + 1)))
                (vertices (to_uint32 (3 * tri + 2))) in
      let p := closestPointTriangle q (vtx 0%N) (vtx 1%N) (vtx 2%N) in
      let d := distance q p in
      if Float32.ltb d (radius query)
      then (true, (set_radius query d,
                   mkClosestPointResult p primID geomID (geometry_ptrs_ptr result)))
      else (false, (query, result))
  | _ => (false, (query, result))
  end.

(** The provider's point query: the primitives in traversal order, each
    one handed to the callback unless the provider culls it under the
    radius the query has by then. *)
Fixpoint point_query_walk (ix : list RTCGeometry) (cands : list (N * N))
         (st : RTCPointQuery * ClosestPointResult)
  : RTCPointQuery * ClosestPointResult :=
  match cands with
  | [] => st
  | c :: rest =>
      if rtcPointQueryVisits ix (fst st) c
      then point_query_walk ix rest
             (snd (ClosestPointFunc (fst st) (snd st) (fst c) (snd c)))
      else point_query_walk ix rest st
  end.

Definition rtcPointQuery (sc : RTCScene) (query : RTCPointQuery)
           (result : ClosestPointResult) : RTCScene * ClosestPointResult :=
  (emit CallPointQuery sc,
   snd (point_query_walk (bvh sc) (rtcPointQueryOrder (bvh sc) query)
                         (query, result))).

(** The result record the constructor of [ClosestPointResult] builds, with
    [geometry_ptrs_ptr] set by the caller; [p] is not initialised. *)
Definition new_ClosestPointResult (ptrs : list geometry_ptr) : ClosestPointResult :=
  mkClosestPointResult uninit_Vec3f RTC_INVALID_GEOMETRY_ID RTC_INVALID_GEOMETRY_ID ptrs.

Definition new_query (query_points : ptr float) (i : N) : RTCPointQuery :=
  mkRTCPointQuery (query_points (i * 3 + 0)%N) (query_points (i * 3 + 1)%N)
                  (query_points (i * 3 + 2)%N) Float32.zero Float32.infinity.

(** Body of the loop of [Impl::ComputeClosestPoints] (lines 358-379). *)
Definition closest_point_step (ptrs : list geometry_ptr) (query_points : ptr float)
           (i : N) (st : ClosestState) : ClosestState :=
  let sr := rtcPointQuery (cl_scene st) (new_query query_points i)
                          (new_ClosestPointResult ptrs) in
  let result := snd sr in
  let o := cl_out st in
  mkClosestState (fst sr)
    (mkClosestOutputs
       (store (store (store (closest_points o)
                 (3 * i + 0)%N (vx (cp_p result)))
                 (3 * i + 1)%N (vy (cp_p result)))
                 (3 * i + 2)%N (vz (cp_p result)))
       (store (cl_geometry_ids o) i (cp_geomID result))
       (store (cl_primitive_ids o) i (cp_primID result))).

Definition Impl_ComputeClosestPoints (query_points : ptr float)
           (num_query_points : N) (o : ClosestOutputs) (impl : Impl)
  : Impl * ClosestOutputs :=
  let impl1 := commit_if_needed impl in
  let st :=
    for_range 0 num_query_points
              (closest_point_step (geometry_ptrs impl1) query_points)
              (mkClosestState (scene impl1) o) in
  (mkImpl (cl_scene st) (scene_committed impl1) (geometry_ptrs impl1), cl_out st).

(** *** The public operations *)

(** The constructor: a fresh provider scene, not committed. *)
Definition new_RaycastingScene : Impl :=
  mkImpl (mkRTCScene [] [] []) false [].

(** [memcpy] of [count] elements into a buffer the provider allocated. *)
Definition memcpy {A : Type} (fresh src : ptr A) (count : N) : ptr A :=
  fun j => if (j <? count)%N then src j else fresh j.

(** A call that changes the scene and may fail: its outcome, and the scene
    it leaves behind either way. *)
Definition Run (A : Type) : Type := Impl -> Result A * Impl.

Definition run_bind {A B : Type} (m : Run A) (k : A -> Run B) : Run B :=
  fun impl =>
    match m impl with
    | (Ok a, impl1) => k a impl1
    | (LogError msg, impl1) => (LogError msg, impl1)
    end.

Definition lift {A : Type} (r : Result A) : Run A := fun impl => (r, impl).

(** What the caller gets: the value and the scene, or the failure. *)
Definition outcome {A : Type} (r : Result A * Impl) : Result (A * Impl) :=
  match fst r with
  | Ok a => Ok (a, snd r)
  | LogError msg => LogError msg
  end.

(** A provider call of a registration: an error the provider reports goes
    to [ErrorFunction]. *)
Definition rtc_call (c : RTCGeometryCall) : Run unit :=
  lift (match rtcError c with
        | Some str => ErrorFunction str
        | None => Ok tt
        end).

(** [AddTriangles(const core::Tensor&, const core::Tensor&)], lines
    401-446, statement by statement. *)
Definition AddTriangles_run (vertices : Tensor float) (triangles : Tensor N) : Run N :=
  run_bind (lift (check (Device_eqb (device vertices) tensor_device)
                        "Tensor has the wrong device"%string)) (fun _ =>
  run_bind (lift (AssertShapeCompatible_x3 vertices)) (fun _ =>
  run_bind (lift (check (Device_eqb (device triangles) tensor_device)
                        "Tensor has the wrong device"%string)) (fun _ =>
  run_bind (lift (AssertShapeCompatible_x3 triangles)) (fun _ =>
  let num_vertices := GetLength vertices in
  let num_triangles := GetLength triangles in
  (* impl_->scene_committed = false *)
  run_bind (fun impl => (Ok tt, mkImpl (scene impl) false (geometry_ptrs impl))) (fun _ =>
  run_bind (rtc_call NewGeometry) (fun _ =>
  run_bind (rtc_call (SetNewGeometryBuffer RTC_BUFFER_TYPE_VERTEX num_vertices)) (fun _ =>
  run_bind (rtc_call (SetNewGeometryBuffer RTC_BUFFER_TYPE_INDEX num_triangles)) (fun _ =>
  let geom :=
    mkRTCGeometry num_vertices
                  (memcpy uninit_float (data vertices) (3 * num_vertices))
                  num_triangles
                  (memcpy uninit_uint32 (data triangles) (3 * num_triangles)) in
  run_bind (rtc_call CommitGeometry) (fun _ =>
  run_bind (rtc_call AttachGeometry) (fun _ =>
  fun impl =>
    let sg := rtcAttachGeometry (scene impl) geom in
    (Ok (snd sg),
     mkImpl (fst sg) (scene_committed impl)
            (geometry_ptrs impl
             ++ [(RTC_GEOMETRY_TYPE_TRIANGLE, vertex_buffer geom,
                  index_buffer geom)])))))))))))).

Definition AddTriangles (vertices : Tensor float) (triangles : Tensor N)
           (impl : Impl) : Result (N * Impl) :=
  outcome (AddTriangles_run vertices triangles impl).

(** [AddTriangles(const TriangleMesh&)], lines 448-458. *)
Definition AddTriangles_mesh_run (mesh : TriangleMesh) : Run N :=
  let num_verts := GetLength (GetVertices mesh) in
  if (4294967295 <? num_verts)%N
  then lift (LogError
               "Cannot add mesh with more than 4294967295 vertices to the scene"%string)
  else AddTriangles_run (GetVertices mesh) (To_uint32 (GetTriangles mesh)).

Definition AddTriangles_mesh (mesh : TriangleMesh) (impl : Impl) : Result (N * Impl) :=
  outcome (AddTriangles_mesh_run mesh impl).

(** Modelled from the spec: "fails with [InvalidArgument] if vertex count
    exceeds the handle width (32-bit) supported by the provider".  The
    provider (embree) is not among the sources; this is the limit the
    specification gives it: asked for a buffer of more than 2^32 - 1 items,
    it reports an error. *)
Definition provider_item_limit : Prop :=
  forall (type : RTCBufferType) (n : N),
    (4294967295 < n)%N -> rtcError (SetNewGeometryBuffer type n) <> None.

Definition CastRays (rays : Tensor float) (impl : Impl)
  : Result (CastRaysResult * Impl) :=
  _ <- AssertTensorDtypeLastDimDeviceMinNDim rays 6 tensor_device ;;
  let sh := removelast (shape rays) in
  let num_rays := NumElements sh in
  let io :=
    Impl_CastRays false (data rays) num_rays
      (mkCastOutputs uninit_float uninit_uint32 uninit_uint32
                     uninit_float uninit_float) impl in
  let o := snd io in
  Ok (mkCastRaysResult
        (mkTensor tensor_device sh (t_hit o))
        (mkTensor tensor_device sh (geometry_ids o))
        (mkTensor tensor_device sh (primitive_ids o))
        (mkTensor tensor_device (sh ++ [2%N]) (primitive_uvs o))
        (mkTensor tensor_device (sh ++ [3%N]) (primitive_normals o)),
      fst io).

Definition CountIntersections (rays : Tensor float) (impl : Impl)
  : Result (Tensor Z * Impl) :=
  _ <- AssertTensorDtypeLastDimDeviceMinNDim rays 6 tensor_device ;;
  let sh := removelast (shape rays) in
  let num_rays := NumElements sh in
  let io := Impl_CountIntersections (data rays) num_rays uninit_int impl in
  Ok (mkTensor tensor_device sh (snd io), fst io).

Definition ComputeClosestPoints (query_points : Tensor float) (impl : Impl)
  : Result (ClosestPointsResult * Impl) :=
  _ <- AssertTensorDtypeLastDimDeviceMinNDim query_points 3 tensor_device ;;
  let sh := removelast (shape query_points) in
  let num_query_points := NumElements sh in
  let io :=
    Impl_ComputeClosestPoints (data query_points) num_query_points
      (mkClosestOutputs uninit_float uninit_uint32 uninit_uint32) impl in
  let o := snd io in
  Ok (mkClosestPointsResult
        (mkTensor tensor_device (sh ++ [3%N]) (closest_points o))
        (mkTensor tensor_device sh (cl_geometry_ids o))
        (mkTensor tensor_device sh (cl_primitive_ids o)),
      fst io).

(** [(closest_points_map - query_points_map).colwise().norm()]. *)
Definition ComputeDistance (query_points : Tensor float) (impl : Impl)
  : Result (Tensor float * Impl) :=
  _ <- AssertTensorDtypeLastDimDeviceMinNDim query_points 3 tensor_device ;;
  let sh := removelast (shape query_points) in
  ci <- ComputeClosestPoints query_points impl ;;
  let num_query_points := NumElements sh in
  let c := data (r_points (fst ci)) in
  let q := data query_points in
  let distance_map : ptr float :=
    fun j =>
      if (j <? num_query_points)%N
      then colwise_norm (Float32.sub (c (3 * j + 0)%N) (q (3 * j + 0)%N))
                        (Float32.sub (c (3 * j + 1)%N) (q (3 * j + 1)%N))
                        (Float32.sub (c (3 * j + 2)%N) (q (3 * j + 2)%N))
      else uninit_float j in
  Ok (mkTensor tensor_device sh distance_map, snd ci).

(** The tensor [rays] both [ComputeSignedDistance] and [ComputeOccupancy]
    build with the two [SetItem] calls: columns 0-2 of row [i] are point
    [i], columns 3-5 are ones. *)
Definition probe_rays (points : ptr float) (num_query_points : N) : Tensor float :=
  mkTensor tensor_device [num_query_points; 6%N]
    (fun k =>
       if (k <? num_query_points * 6)%N
       then if (k mod 6 <? 3)%N then points (3 * (k / 6) + k mod 6)%N
            else Float32.one
       else uninit_float k).

(** The lambda [(x % 2) ? -1 : 1] of [ComputeSignedDistance]. *)
Definition sign_of_count (x : Z) : Z :=
  if Z.eqb (Z.rem x 2) 0 then 1%Z else (-1)%Z.

(** The lambda [x % 2] of [ComputeOccupancy]. *)
Definition parity_of_count (x : Z) : Z := Z.rem x 2.

(** [ComputeSignedDistance], returning next to the distances the sign
    multipliers it wrote over [intersections]. *)
Definition ComputeSignedDistance_signs (query_points : Tensor float) (impl : Impl)
  : Result (Tensor float * ptr Z * Impl) :=
  _ <- AssertTensorDtypeLastDimDeviceMinNDim query_points 3 tensor_device ;;
  let sh := removelast (shape query_points) in
  let num_query_points := NumElements sh in
  di <- ComputeDistance query_points impl ;;
  let rays := probe_rays (data query_points) num_query_points in
  ii <- CountIntersections rays (snd di) ;;
  let intersections_map : ptr Z :=
    fun j => if (j <? num_query_points)%N then sign_of_count (data (fst ii) j)
             else data (fst ii) j in
  let distance_map : ptr float :=
    fun j => if (j <? num_query_points)%N
             then Float32.mul (data (fst di) j) (Float32.of_int (intersections_map j))
             else data (fst di) j in
  Ok (mkTensor (device (fst di)) (shape (fst di)) distance_map,
      intersections_map, snd ii).

Definition ComputeSignedDistance (query_points : Tensor float) (impl : Impl)
  : Result (Tensor float * Impl) :=
  r <- ComputeSignedDistance_signs query_points impl ;;
  Ok (fst (fst r), snd r).

Definition ComputeOccupancy (query_points : Tensor float) (impl : Impl)
  : Result (Tensor float * Impl) :=
  _ <- AssertTensorDtypeLastDimDeviceMinNDim query_points 3 tensor_device ;;
  let sh := removelast (shape query_points) in
  let num_query_points := NumElements sh in
  let rays := probe_rays (data query_points) num_query_points in
  ii <- CountIntersections rays impl ;;
  let intersections_map : ptr Z :=
    fun j => if (j <? num_query_points)%N then parity_of_count (data (fst ii) j)
             else data (fst ii) j in
  Ok (mkTensor tensor_device sh (fun j => Float32.of_int (intersections_map j)),
      snd ii).

Definition INVALID_ID : N := RTC_INVALID_GEOMETRY_ID.

(** *** Reading the results back, ray by ray *)

(** What [Impl::CastRays] reports for one ray. *)
Record HitOut : Type := mkHitOut {
  o_t : float;
  o_geom : N;
  o_prim : N;
  o_u : float; o_v : float;
  o_nx : float; o_ny : float; o_nz : float
}.

Definition read_out (o : CastOutputs) (i : N) : HitOut :=
  mkHitOut (t_hit o i) (geometry_ids o i) (primitive_ids o i)
           (primitive_uvs o (i * 2 + 0)%N) (primitive_uvs o (i * 2 + 1)%N)
           (primitive_normals o (i * 3 + 0)%N) (primitive_normals o (i * 3 + 1)%N)
           (primitive_normals o (i * 3 + 2)%N).

Definition miss_sentinel (t : float) : HitOut :=
  mkHitOut t RTC_INVALID_GEOMETRY_ID RTC_INVALID_GEOMETRY_ID
           Float32.zero Float32.zero Float32.zero Float32.zero Float32.zero.

Definition inv_norm_of (h : RTCHit) : float :=
  Float32.div Float32.one
    (Float32.sqrt
       (Float32.add
          (Float32.add (Float32.mul (Ng_x h) (Ng_x h))
                       (Float32.mul (Ng_y h) (Ng_y h)))
          (Float32.mul (Ng_z h) (Ng_z h)))).

(** The record one ray-hit slot is translated to. *)
Definition hit_out (rh : RTCRayHit) : HitOut :=
  let h := hit rh in
  if negb (N.eqb (geomID h) RTC_INVALID_GEOMETRY_ID)
  then mkHitOut (tfar (ray rh)) (geomID h) (primID h) (u h) (v h)
                (Float32.mul (Ng_x h) (inv_norm_of h))
                (Float32.mul (Ng_y h) (inv_norm_of h))
                (Float32.mul (Ng_z h) (inv_norm_of h))
  else miss_sentinel (tfar (ray rh)).

(** The ray the fill loop builds from input ray [i], carrying id [k]. *)
Definition ray_at (LINE_INTERSECTION : bool) (rays : ptr float) (i k : N) : RTCRay :=
  let r := fun j : N => rays (i * 6 + j)%N in
  let dir := fun j : N =>
    if LINE_INTERSECTION then Float32.sub (r (3 + j)%N) (r j) else r (3 + j)%N in
  mkRTCRay (r 0%N) (r 1%N) (r 2%N) Float32.zero (dir 0%N) (dir 1%N) (dir 2%N)
           Float32.zero
           (if LINE_INTERSECTION then Float32.one else Float32.infinity)
           0 k 0.

Definition invalid_hit : RTCHit :=
  let z := Float32.zero in
  mkRTCHit z z z z z 0 RTC_INVALID_GEOMETRY_ID RTC_INVALID_GEOMETRY_ID.

(** One ray cast on its own: the reference a chunked run is compared to. *)
Definition cast_ray (ix : list RTCGeometry) (LINE_INTERSECTION : bool)
           (rays : ptr float) (i : N) : HitOut :=
  hit_out (rtcIntersect1 ix
             (mkRTCRayHit (ray_at LINE_INTERSECTION rays i 0) invalid_hit)).

(** The crossing counter as a per-ray accumulator: the last recorded
    triple and the count, folded over the candidates of one ray. *)
Definition crossing_step (st : Filter.gpt * Z) (c : float * RTCHit) : Filter.gpt * Z :=
  if negb (N.eqb (Filter.gpt_geom (fst st)) (geomID (snd c)))
     || (negb (N.eqb (Filter.gpt_prim (fst st)) (primID (snd c)))
         && Float32.neb (Filter.gpt_tfar (fst st)) (fst c))
  then ((geomID (snd c), primID (snd c), fst c), (snd st + 1)%Z)
  else st.

Definition count_crossings (cands : list (float * RTCHit)) : Z :=
  snd (fold_left crossing_step cands
         ((RTC_INVALID_GEOMETRY_ID, RTC_INVALID_GEOMETRY_ID, Float32.zero), 0%Z)).

(** The probe ray of point [i]: origin at the point, direction (1,1,1),
    unbounded, id [i]. *)
Definition probe_ray (points : ptr float) (i : N) : RTCRay :=
  mkRTCRay (points (3 * i + 0)%N) (points (3 * i + 1)%N) (points (3 * i + 2)%N)
           Float32.zero Float32.one Float32.one Float32.one Float32.zero
           Float32.infinity 0 (to_uint32 i) 0.

(** Distance of the query to a candidate triangle, as the callback
    computes it; [None] when the callback does not look at the candidate. *)
Definition candidate_point (ptrs : list geometry_ptr) (query : RTCPointQuery)
           (c : N * N) : option Vec3f :=
  match nth_error ptrs (N.to_nat (fst c)) with
  | Some (RTC_GEOMETRY_TYPE_TRIANGLE, vertices, triangles) =>
      let vtx := fun k : N =>
        let tri := triangles (to_uint32 (3 * snd c + k)) in
        mkVec3f (vertices (to_uint32 (3 * tri + 0)))
                (vertices (to_uint32 (3 * tri + 1)))
                (vertices (to_uint32 (3 * tri + 2))) in
      Some (closestPointTriangle (mkVec3f (qx query) (qy query) (qz query))
                                 (vtx 0%N) (vtx 1%N) (vtx 2%N))
  | _ => None
  end.

Definition candidate_distance (ptrs : list geometry_ptr) (query : RTCPointQuery)
           (c : N * N) : option float :=
  option_map (distance (mkVec3f (qx query) (qy query) (qz query)))
             (candidate_point ptrs query c).

(** The result the point query of point [i] leaves in its result record. *)
Definition closest_result (ix : list RTCGeometry) (ptrs : list geometry_ptr)
           (query_points : ptr float) (i : N) : ClosestPointResult :=
  snd (point_query_walk ix (rtcPointQueryOrder ix (new_query query_points i))
                        (new_query query_points i, new_ClosestPointResult ptrs)).

(** *** The operations as steps on the scene *)

Inductive Query : Type :=
| QCastRays (rays : Tensor float)
| QCountIntersections (rays : Tensor float)
| QComputeClosestPoints (query_points : Tensor float)
| QComputeDistance (query_points : Tensor float)
| QComputeSignedDistance (query_points : Tensor float)
| QComputeOccupancy (query_points : Tensor float).

(** The scene a query leaves behind. *)
Definition run_query (q : Query) (impl : Impl) : Result Impl :=
  match q with
  | QCastRays rays => r <- CastRays rays impl ;; Ok (snd r)
  | QCountIntersections rays => r <- CountIntersections rays impl ;; Ok (snd r)
  | QComputeClosestPoints pts => r <- ComputeClosestPoints pts impl ;; Ok (snd r)
  | QComputeDistance pts => r <- ComputeDistance pts impl ;; Ok (snd r)
  | QComputeSignedDistance pts => r <- ComputeSignedDistance pts impl ;; Ok (snd r)
  | QComputeOccupancy pts => r <- ComputeOccupancy pts impl ;; Ok (snd r)
  end.

Inductive Registration : Type :=
| RTensors (vertices : Tensor float) (triangles : Tensor N)
| RMesh (mesh : TriangleMesh).

Definition run_registration (r : Registration) (impl : Impl) : Result Impl :=
  match r with
  | RTensors vertices triangles => x <- AddTriangles vertices triangles impl ;; Ok (snd x)
  | RMesh mesh => x <- AddTriangles_mesh mesh impl ;; Ok (snd x)
  end.

(** The scene is consistent when a set flag means the acceleration
    structure was built from the geometries attached now. *)
Definition committed_inv (impl : Impl) : Prop :=
  scene_committed impl = true -> bvh (scene impl) = attached (scene impl).

(** [sc'] comes from [sc] by provider calls none of which is a commit. *)
Definition queried_from (sc sc' : RTCScene) : Prop :=
  attached sc' = attached sc /\ bvh sc' = bvh sc
  /\ exists evs, calls sc' = calls sc ++ evs /\ ~ In CallCommitScene evs.

(** A query step: the flag is set afterwards, the registry is untouched,
    and the provider's scene is the one [commit_if_needed] produced,
    extended by calls that are not commits. *)
Definition query_step (impl impl' : Impl) : Prop :=
  scene_committed impl' = true
  /\ geometry_ptrs impl' = geometry_ptrs impl
  /\ queried_from (scene (commit_if_needed impl)) (scene impl').

(** No slot of [rayhits] ever holds a [time] other than the zero it was
    initialised with. *)
Definition times_zero (rayhits : ptr RTCRayHit) : Prop :=
  forall j : N, time (ray (rayhits j)) = Float32.zero.

(** [o'] differs from [o] at most in the entries of rays [lo .. hi-1]. *)
Definition same_outside (lo hi : N) (o o' : CastOutputs) : Prop :=
  (forall j, ~ (lo <= j < hi)%N ->
             t_hit o' j = t_hit o j
             /\ geometry_ids o' j = geometry_ids o j
             /\ primitive_ids o' j = primitive_ids o j)
  /\ (forall j, ~ (lo * 2 <= j < hi * 2)%N -> primitive_uvs o' j = primitive_uvs o j)
  /\ (forall j, ~ (lo * 3 <= j < hi * 3)%N ->
                primitive_normals o' j = primitive_normals o j).

(** The five arrays agree entry by entry. *)
Definition same_outputs (o o' : CastOutputs) : Prop :=
  forall j : N,
    t_hit o j = t_hit o' j
    /\ geometry_ids o j = geometry_ids o' j
    /\ primitive_ids o j = primitive_ids o' j
    /\ primitive_uvs o j = primitive_uvs o' j
    /\ primitive_normals o j = primitive_normals o' j.

(** *** Sequences of operations, and what the scene keeps across them *)

Inductive Operation : Type :=
| OpRegister (r : Registration)
| OpQuery (q : Query).

Definition run_operation (op : Operation) (impl : Impl) : Result Impl :=
  match op with
  | OpRegister r => run_registration r impl
  | OpQuery q => run_query q impl
  end.

(** The scenes operations that returned lead to: the constructed one, and
    those that operations which returned leave behind.  (A registration
    the provider fails leaves a scene too, the one [AddTriangles_run]
    gives; it is not a step here.) *)
Inductive reachable : Impl -> Prop :=
| reachable_new : reachable new_RaycastingScene
| reachable_step : forall (op : Operation) (impl impl' : Impl),
    reachable impl -> run_operation op impl = Ok impl' -> reachable impl'.

(** The registry entry of an attached geometry. *)
Definition registry_entry (g : RTCGeometry) : geometry_ptr :=
  (RTC_GEOMETRY_TYPE_TRIANGLE, vertex_buffer g, index_buffer g).

(** A registration as a call that leaves a scene behind also when it
    fails. *)
Definition registration_run (r : Registration) : Run N :=
  match r with
  | RTensors vertices triangles => AddTriangles_run vertices triangles
  | RMesh mesh => AddTriangles_mesh_run mesh
  end.

(** The registry lists, in order of handle, the buffers of the geometries
    attached to the provider's scene. *)
Definition registry_inv (impl : Impl) : Prop :=
  geometry_ptrs impl = map registry_entry (attached (scene impl)).

(** The tensor a query takes, and the size its last dimension must have. *)
Definition query_input (q : Query) : Tensor float :=
  match q with
  | QCastRays t | QCountIntersections t | QComputeClosestPoints t
  | QComputeDistance t | QComputeSignedDistance t | QComputeOccupancy t => t
  end.

Definition query_last_dim (q : Query) : N :=
  match q with
  | QCastRays _ | QCountIntersections _ => 6%N
  | _ => 3%N
  end.

(** The three tests of [AssertTensorDtypeLastDimDeviceMinNDim] as a boolean. *)
Definition well_formed_input {A : Type} (last_dim : N) (t : Tensor A) : bool :=
  Device_eqb (device t) tensor_device
  && (2 <=? length (shape t))%nat
  && N.eqb (last (shape t) 0%N) last_dim.

(** The device and shape tests of [AddTriangles] on one tensor. *)
Definition well_formed_x3 {A : Type} (t : Tensor A) : bool :=
  Device_eqb (device t) tensor_device
  && match shape t with [_; 3%N] => true | _ => false end.

(** The point query of point [i], with the query as the callback leaves it
    (its radius is the distance of the recorded point). *)
Definition closest_final (ix : list RTCGeometry) (ptrs : list geometry_ptr)
           (query_points : ptr float) (i : N) : RTCPointQuery * ClosestPointResult :=
  point_query_walk ix (rtcPointQueryOrder ix (new_query query_points i))
                   (new_query query_points i, new_ClosestPointResult ptrs).

(** The provider culls soundly: a primitive it does not hand to the
    callback is not closer than the current radius. *)
Definition sound_culling (ix : list RTCGeometry) (ptrs : list geometry_ptr) : Prop :=
  forall (q : RTCPointQuery) (c : N * N) (d : float),
    rtcPointQueryVisits ix q c = false ->
    candidate_distance ptrs q c = Some d ->
    Float32.ltb d (radius q) = false.

(** The calls a query makes after its commit. *)
Definition is_query_call (c : RTCCall) : bool :=
  match c with
  | CallIntersect1M _ | CallPointQuery => true
  | _ => false
  end.

(** [sc'] comes from [sc] by traversal calls only. *)
Definition queried_only (sc sc' : RTCScene) : Prop :=
  attached sc' = attached sc /\ bvh sc' = bvh sc
  /\ exists evs, calls sc' = calls sc ++ evs /\ forallb is_query_call evs = true.

Definition query_step_only (impl impl' : Impl) : Prop :=
  scene_committed impl' = true
  /\ geometry_ptrs impl' = geometry_ptrs impl
  /\ queried_only (scene (commit_if_needed impl)) (scene impl').

(** The number of geometries attached so far, by the trace of calls. *)
Definition registrations (sc : RTCScene) : nat :=
  length (filter (fun c => match c with CallAttachGeometry => true | _ => false end)
                 (calls sc)).

(** What holds of every scene a program can hold. *)
Definition scene_inv (impl : Impl) : Prop :=
  registry_inv impl
  /\ committed_inv impl
  /\ length (attached (scene impl)) = registrations (scene impl)
  /\ (rebuilds (scene impl) + (if scene_committed impl then 0 else 1)
      <= registrations (scene impl) + 1)%nat
  /\ exists rest, attached (scene impl) = bvh (scene impl) ++ rest.

(** C6 as the specification words it, of the tensors the code returns:
    the distance times -1 when the number of crossings along the point's
    probe ray is odd, times 1 when it is even. *)
Definition spec_signed_distance (ix : list RTCGeometry)
           (pts dist sd : Tensor float) : Prop :=
  forall i : N,
    (i < NumElements (removelast (shape pts)))%N ->
    data sd i
    = Float32.mul (data dist i)
        (if Z.odd (count_crossings (rtcFilterCandidates ix (probe_ray (data pts) i)))
         then SFopp Float32.one else Float32.one).

(** C8 as the specification words it: the occupancy of a point is the
    number of crossings along its probe ray, modulo 2. *)
Definition spec_occupancy_parity (ix : list RTCGeometry)
           (pts occ : Tensor float) : Prop :=
  forall i : N,
    (i < NumElements (removelast (shape pts)))%N ->
    data occ i
    = Float32.of_int
        (Z.rem (count_crossings (rtcFilterCandidates ix (probe_ray (data pts) i))) 2).

(** *** Facts *)


Set Default Proof Using "Type".

(** **** Memory and loops *)

Lemma store_eq : forall (A : Type) (p : ptr A) (i : N) (x : A), store p i x i = x.
Proof. intros; unfold store; now rewrite N.eqb_refl. Qed.

Lemma store_neq : forall (A : Type) (p : ptr A) (i j : N) (x : A),
    j <> i -> store p i x j = p j.
Proof.
  intros A p i j x Hne; unfold store.
  destruct (N.eqb_spec j i); [contradiction | reflexivity].
Qed.

Lemma for_loop_inv : forall (S : Type) (P : N -> S -> Prop) (body : N -> S -> S)
                            (count : nat) (i : N) (s : S),
    P i s ->
    (forall k s', (i <= k < i + N.of_nat count)%N -> P k s' -> P (N.succ k) (body k s')) ->
    P (i + N.of_nat count)%N (for_loop count i body s).
Proof.
  intros S P body count; induction count as [|count IH]; intros i s Hinit Hstep.
  - simpl; now rewrite N.add_0_r.
  - cbn [for_loop].
    replace (i + N.of_nat (Datatypes.S count))%N with (N.succ i + N.of_nat count)%N by lia.
    apply IH.
    + apply Hstep; [lia | assumption].
    + intros k s' Hk; apply Hstep; lia.
Qed.

Lemma for_range_inv : forall (S : Type) (P : N -> S -> Prop) (body : N -> S -> S)
                             (lo hi : N) (s : S),
    (lo <= hi)%N ->
    P lo s ->
    (forall k s', (lo <= k < hi)%N -> P k s' -> P (N.succ k) (body k s')) ->
    P hi (for_range lo hi body s).
Proof.
  intros S P body lo hi s Hle Hinit Hstep; unfold for_range.
  replace hi with (lo + N.of_nat (N.to_nat (hi - lo)))%N at 1 by lia.
  apply for_loop_inv; [assumption |].
  intros k s' Hk; apply Hstep; lia.
Qed.

Lemma for_range_empty : forall (S : Type) (body : N -> S -> S) (lo hi : N) (s : S),
    (hi <= lo)%N -> for_range lo hi body s = s.
Proof.
  intros S body lo hi s Hle; unfold for_range.
  replace (N.to_nat (hi - lo)) with O by lia; reflexivity.
Qed.

(** **** C1: the traversal filter *)

Lemma lane_active : forall (ctx : Filter.CountIntersectionsContext) (r : RTCRay) (h : RTCHit),
    Filter.CountIntersectionsFunc (Filter.packet1 ctx r h)
    = (store (fun _ : N => (-1)%Z) 0%N 0%Z,
       Some (if Filter.new_crossing (Filter.previous_geom_prim_ID_tfar ctx (id r)) h r
             then Filter.mkContext
                    (store (Filter.previous_geom_prim_ID_tfar ctx) (id r)
                           (geomID h, primID h, tfar r))
                    (store (Filter.intersections ctx) (id r)
                           (Filter.intersections ctx (id r) + 1)%Z)
             else ctx)).
Proof. reflexivity. Qed.

(** C1 (as amended).  For every candidate hit the filter processes, that
    is for every active ray of a packet, the candidate is counted as a new
    crossing exactly when its geometry id differs from the last one recorded
    for that ray, or its primitive id and its distance both differ from the
    recorded ones.  On acceptance the ray's count grows by one and the
    recorded triple becomes the candidate's; otherwise the context is left
    as it was; in both cases the hit is marked as ignored.  Inactive rays
    are skipped, and the filter is this step run over the rays of the
    packet (nothing at all when the context is null). *)
Theorem CountIntersectionsFunc_new_crossing_iff :
  forall (rays : ptr RTCRay) (hits : ptr RTCHit) (ui : N) (vld : ptr Z)
         (ctx : Filter.CountIntersectionsContext),
    let r := rays ui in
    let h := hits ui in
    let last := Filter.previous_geom_prim_ID_tfar ctx (id r) in
    let accepted :=
      geomID h <> Filter.gpt_geom last
      \/ (primID h <> Filter.gpt_prim last
          /\ Float32.eqb (Filter.gpt_tfar last) (tfar r) = false) in
    let res := Filter.lane rays hits ui (vld, ctx) in
    (vld ui = (-1)%Z ->
     fst res ui = 0%Z
     /\ (Filter.intersections (snd res) (id r) = (Filter.intersections ctx (id r) + 1)%Z
         <-> accepted)
     /\ (accepted ->
         Filter.previous_geom_prim_ID_tfar (snd res) (id r) = (geomID h, primID h, tfar r))
     /\ (~ accepted -> snd res = ctx))
    /\ (vld ui <> (-1)%Z -> res = (vld, ctx))
    /\ (forall n : N,
          Filter.CountIntersectionsFunc (Filter.mkArgs vld (Some ctx) rays hits n)
          = (fst (for_range 0 n (Filter.lane rays hits) (vld, ctx)),
             Some (snd (for_range 0 n (Filter.lane rays hits) (vld, ctx))))
          /\ Filter.CountIntersectionsFunc (Filter.mkArgs vld None rays hits n)
             = (vld, None)).
Proof.
  intros rays hits ui vld ctx r h last accepted res.
  assert (Hacc : Filter.new_crossing last h r = true <-> accepted).
  { unfold Filter.new_crossing, accepted, Float32.neb, Float32.eqb.
    rewrite orb_true_iff, andb_true_iff, !negb_true_iff, !N.eqb_neq.
    split; intros [H | [H1 H2]]; [left | right | left | right];
      try split; congruence. }
  split; [| split].
  - intros Hactive; unfold res, Filter.lane.
    rewrite Hactive; cbn [Z.eqb Pos.eqb negb]; fold r h last.
    cbn [fst snd]; rewrite store_eq; split; [reflexivity |].
    destruct (Filter.new_crossing last h r) eqn:E;
      cbn [Filter.intersections Filter.previous_geom_prim_ID_tfar].
    + rewrite !store_eq; repeat split; auto.
      * intros _; now apply Hacc.
      * intros Hn; exfalso; apply Hn; now apply Hacc.
    + repeat split; auto.
      * intros Heq; lia.
      * intros Ha; apply Hacc in Ha; discriminate.
      * intros Ha; apply Hacc in Ha; discriminate.
  - intros Hinactive; unfold res, Filter.lane.
    apply Z.eqb_neq in Hinactive; now rewrite Hinactive.
  - intros n; split; [| reflexivity].
    unfold Filter.CountIntersectionsFunc; cbn [Filter.context Filter.N_ Filter.rayN
      Filter.hitN Filter.valid].
    now destruct (for_range 0 n (Filter.lane rays hits) (vld, ctx)).
Qed.

(** **** C2: translation of one ray-hit slot *)

Lemma write_hit_read : forall (rayhits : ptr RTCRayHit) (start_idx i : N) (o : CastOutputs),
    read_out (write_hit rayhits start_idx i o)
             (id (ray (rayhits (i - start_idx)%N)) + start_idx)%N
    = hit_out (rayhits (i - start_idx)%N).
Proof.
  intros rayhits start_idx i o; unfold read_out, write_hit, hit_out, miss_sentinel, inv_norm_of.
  set (rh := rayhits (i - start_idx)%N).
  set (idx := (id (ray rh) + start_idx)%N).
  destruct (negb (N.eqb (geomID (hit rh)) RTC_INVALID_GEOMETRY_ID));
    cbn [t_hit geometry_ids primitive_ids primitive_uvs primitive_normals];
    rewrite ?store_eq;
    rewrite (store_neq _ (j := (idx * 2 + 0)%N) (i := (idx * 2 + 1)%N)) by lia;
    rewrite (store_neq _ (j := (idx * 3 + 0)%N) (i := (idx * 3 + 2)%N)) by lia;
    rewrite (store_neq _ (j := (idx * 3 + 0)%N) (i := (idx * 3 + 1)%N)) by lia;
    rewrite (store_neq _ (j := (idx * 3 + 1)%N) (i := (idx * 3 + 2)%N)) by lia;
    rewrite ?store_eq; reflexivity.
Qed.

Lemma zero_normal_inv_norm : forall h : RTCHit,
    Float32.is_zero (Ng_x h) = true ->
    Float32.is_zero (Ng_y h) = true ->
    Float32.is_zero (Ng_z h) = true ->
    inv_norm_of h = Float32.infinity.
Proof.
  intros [nx ny nz hu hv p g i0]; cbn [Ng_x Ng_y Ng_z]; unfold inv_norm_of; cbn [Ng_x Ng_y Ng_z].
  destruct nx as [sx | | |]; try discriminate.
  destruct ny as [sy | | |]; try discriminate.
  destruct nz as [sz | | |]; try discriminate.
  intros _ _ _; destruct sx, sy, sz; reflexivity.
Qed.

Lemma zero_times_infinity : forall x : float,
    Float32.is_zero x = true -> Float32.mul x Float32.infinity = S754_nan.
Proof. intros [s | | |]; try discriminate; reflexivity. Qed.

(** C2 (as amended).  For every ray-hit slot that reports a hit, the
    translation writes the hit distance, the ids, the barycentric
    coordinates and the normal scaled by [1 / sqrt(Ng . Ng)], all in single
    precision and without a guard: when the three components of the reported
    normal are zero the scale factor is +infinity and the three components
    written are NaN. *)
Theorem write_hit_normal_unguarded :
  forall (rayhits : ptr RTCRayHit) (start_idx i : N) (o : CastOutputs),
    let rh := rayhits (i - start_idx)%N in
    let h := hit rh in
    let out := read_out (write_hit rayhits start_idx i o) (id (ray rh) + start_idx)%N in
    geomID h <> RTC_INVALID_GEOMETRY_ID ->
    out = mkHitOut (tfar (ray rh)) (geomID h) (primID h) (u h) (v h)
                   (Float32.mul (Ng_x h) (inv_norm_of h))
                   (Float32.mul (Ng_y h) (inv_norm_of h))
                   (Float32.mul (Ng_z h) (inv_norm_of h))
    /\ (Float32.is_zero (Ng_x h) = true ->
        Float32.is_zero (Ng_y h) = true ->
        Float32.is_zero (Ng_z h) = true ->
        inv_norm_of h = Float32.infinity
        /\ o_nx out = S754_nan /\ o_ny out = S754_nan /\ o_nz out = S754_nan).
Proof.
  intros rayhits start_idx i o rh h out Hhit.
  assert (Hout : out = mkHitOut (tfar (ray rh)) (geomID h) (primID h) (u h) (v h)
                   (Float32.mul (Ng_x h) (inv_norm_of h))
                   (Float32.mul (Ng_y h) (inv_norm_of h))
                   (Float32.mul (Ng_z h) (inv_norm_of h))).
  { unfold out, rh; rewrite write_hit_read; unfold hit_out; fold rh; fold h.
    apply N.eqb_neq in Hhit; now rewrite Hhit. }
  split; [exact Hout |].
  intros Hx Hy Hz.
  pose proof (zero_normal_inv_norm h Hx Hy Hz) as Hinv.
  rewrite Hout, Hinv; cbn [o_nx o_ny o_nz].
  rewrite !zero_times_infinity by assumption; auto.
Qed.

(** **** C10, C9: the closest-point callback and the point query *)

Lemma ClosestPointFunc_cases :
  forall (query : RTCPointQuery) (result : ClosestPointResult) (c : N * N),
    ClosestPointFunc query result (fst c) (snd c)
    = match candidate_point (geometry_ptrs_ptr result) query c with
      | Some pt =>
          let d := distance (mkVec3f (qx query) (qy query) (qz query)) pt in
          if Float32.ltb d (radius query)
          then (true, (set_radius query d,
                       mkClosestPointResult pt (snd c) (fst c) (geometry_ptrs_ptr result)))
          else (false, (query, result))
      | None => (false, (query, result))
      end.
Proof.
  intros query result c; unfold ClosestPointFunc, candidate_point.
  destruct (nth_error (geometry_ptrs_ptr result) (N.to_nat (fst c))) as [[[ty vs] ts] |];
    [destruct ty |]; reflexivity.
Qed.

Lemma ltb_eqb_exclusive : forall x y : float,
    Float32.eqb x y = true -> Float32.ltb x y = false.
Proof.
  intros x y; unfold Float32.eqb, Float32.ltb, SFeqb, SFltb.
  destruct (SFcompare x y) as [[ | | ] |]; congruence.
Qed.

Lemma walk_no_improvement :
  forall (ix : list RTCGeometry) (rest : list (N * N))
         (query : RTCPointQuery) (result : ClosestPointResult),
    (forall c d, In c rest ->
                 candidate_distance (geometry_ptrs_ptr result) query c = Some d ->
                 Float32.ltb d (radius query) = false) ->
    point_query_walk ix rest (query, result) = (query, result).
Proof.
  intros ix rest query result; induction rest as [| c rest IH]; intros Hno; [reflexivity |].
  cbn [point_query_walk fst snd].
  assert (Hc : ClosestPointFunc query result (fst c) (snd c) = (false, (query, result))).
  { rewrite ClosestPointFunc_cases.
    destruct (candidate_point (geometry_ptrs_ptr result) query c) as [pt |] eqn:E;
      [| reflexivity].
    cbv zeta. rewrite (Hno c _ (or_introl eq_refl)); [reflexivity |].
    unfold candidate_distance; now rewrite E. }
  rewrite Hc; cbn [snd].
  assert (IH' : point_query_walk ix rest (query, result) = (query, result)).
  { apply IH; intros c' d' Hin; apply Hno; now right. }
  rewrite IH'; now destruct (rtcPointQueryVisits ix query c).
Qed.

(** C10.  The callback replaces the recorded best point only when the
    candidate's distance is strictly below the query radius, and then
    records the candidate and shrinks the radius to that distance; a
    candidate whose distance equals the radius changes nothing; so once a
    candidate has been recorded, later candidates that are not strictly
    closer leave its point, geometry id and primitive id in place, whatever
    their number and order. *)
Theorem ClosestPointFunc_strict_first_wins :
  forall (ix : list RTCGeometry) (query : RTCPointQuery)
         (result : ClosestPointResult) (c : N * N),
    let ptrs := geometry_ptrs_ptr result in
    let q := mkVec3f (qx query) (qy query) (qz query) in
    (forall out, ClosestPointFunc query result (fst c) (snd c) = (true, out) ->
                 exists pt, candidate_point ptrs query c = Some pt
                            /\ Float32.ltb (distance q pt) (radius query) = true
                            /\ out = (set_radius query (distance q pt),
                                      mkClosestPointResult pt (snd c) (fst c) ptrs))
    /\ (forall d, candidate_distance ptrs query c = Some d ->
                  Float32.eqb d (radius query) = true ->
                  ClosestPointFunc query result (fst c) (snd c) = (false, (query, result)))
    /\ (forall rest pt,
           candidate_point ptrs query c = Some pt ->
           Float32.ltb (distance q pt) (radius query) = true ->
           rtcPointQueryVisits ix query c = true ->
           (forall c' d', In c' rest ->
                          candidate_distance ptrs query c' = Some d' ->
                          Float32.ltb d' (distance q pt) = false) ->
           point_query_walk ix (c :: rest) (query, result)
           = (set_radius query (distance q pt),
              mkClosestPointResult pt (snd c) (fst c) ptrs)).
Proof.
  intros ix query result c ptrs q.
  pose proof (ClosestPointFunc_cases query result c) as Hcases.
  fold ptrs in Hcases; cbv zeta in Hcases; fold q in Hcases.
  repeat split.
  - intros out Hout; rewrite Hcases in Hout.
    destruct (candidate_point ptrs query c) as [pt |]; [| discriminate].
    destruct (Float32.ltb (distance q pt) (radius query)) eqn:E; [| discriminate].
    exists pt; repeat split; congruence.
  - intros d Hd Heq; rewrite Hcases.
    unfold candidate_distance in Hd; fold q in Hd.
    destruct (candidate_point ptrs query c) as [pt |]; [| reflexivity].
    cbn in Hd; injection Hd as <-.
    now rewrite (ltb_eqb_exclusive _ _ Heq).
  - intros rest pt Hpt Hlt Hvis Hrest.
    cbn [point_query_walk fst snd]; rewrite Hvis, Hcases, Hpt, Hlt; cbn [snd].
    apply walk_no_improvement; cbn [geometry_ptrs_ptr radius].
    intros c' d' Hin Hd'; apply (Hrest c' d' Hin); exact Hd'.
Qed.

Lemma walk_all_rejected :
  forall (ix : list RTCGeometry) (cands : list (N * N))
         (query : RTCPointQuery) (result : ClosestPointResult),
    (forall c, In c cands -> rtcPointQueryVisits ix query c = true ->
               fst (ClosestPointFunc query result (fst c) (snd c)) = false) ->
    point_query_walk ix cands (query, result) = (query, result).
Proof.
  intros ix cands query result; induction cands as [| c rest IH]; intros Hrej;
    [reflexivity |].
  cbn [point_query_walk fst snd].
  assert (IH' : point_query_walk ix rest (query, result) = (query, result)).
  { apply IH; intros c' Hin; apply Hrej; now right. }
  destruct (rtcPointQueryVisits ix query c) eqn:Hvis; [| exact IH'].
  specialize (Hrej c (or_introl eq_refl) Hvis).
  rewrite ClosestPointFunc_cases in Hrej |- *.
  destruct (candidate_point (geometry_ptrs_ptr result) query c) as [pt |];
    [| exact IH'].
  cbv zeta in Hrej |- *.
  destruct (Float32.ltb _ (radius query)); [discriminate | exact IH'].
Qed.

(** **** The provider calls of the three queries of [Impl] *)

Lemma queried_from_refl : forall sc : RTCScene, queried_from sc sc.
Proof.
  intros sc; repeat split; exists []; split; [now rewrite app_nil_r | intros []].
Qed.

Lemma queried_from_trans : forall a b c : RTCScene,
    queried_from a b -> queried_from b c -> queried_from a c.
Proof.
  intros a b c (Ha & Hb & e1 & He1 & Hn1) (Ha' & Hb' & e2 & He2 & Hn2).
  split; [now rewrite Ha' | split; [now rewrite Hb' |]].
  exists (e1 ++ e2); split.
  - now rewrite He2, He1, app_assoc.
  - intros Hin; apply in_app_or in Hin; destruct Hin as [Hin | Hin];
      [now apply Hn1 | now apply Hn2].
Qed.

Lemma queried_from_emit : forall (sc : RTCScene) (c : RTCCall),
    c <> CallCommitScene -> queried_from sc (emit c sc).
Proof.
  intros sc c Hc; repeat split; exists [c]; split; [reflexivity |].
  intros [H | []]; congruence.
Qed.

Lemma cast_batch_scene : forall (L : bool) (rays : ptr float) (num_rays size n : N)
                                (st : CastState),
    queried_from (cs_scene st) (cs_scene (cast_batch L rays num_rays size n st)).
Proof. intros; apply queried_from_emit; discriminate. Qed.


Lemma closest_point_step_scene :
  forall (ptrs : list geometry_ptr) (pts : ptr float) (i : N) (st : ClosestState),
    queried_from (cl_scene st) (cl_scene (closest_point_step ptrs pts i st)).
Proof. intros; apply queried_from_emit; discriminate. Qed.

Lemma for_loop_scene :
  forall (S : Type) (proj : S -> RTCScene) (body : N -> S -> S),
    (forall k s, queried_from (proj s) (proj (body k s))) ->
    forall (count : nat) (i : N) (s : S),
      queried_from (proj s) (proj (for_loop count i body s)).
Proof.
  intros S proj body Hbody count; induction count as [| count IH]; intros i s.
  - apply queried_from_refl.
  - cbn [for_loop]; eapply queried_from_trans; [apply Hbody | apply IH].
Qed.

Lemma commit_if_needed_committed : forall impl : Impl,
    scene_committed (commit_if_needed impl) = true.
Proof. intros impl; unfold commit_if_needed; now destruct (scene_committed impl) eqn:E. Qed.

Lemma commit_if_needed_ptrs : forall impl : Impl,
    geometry_ptrs (commit_if_needed impl) = geometry_ptrs impl.
Proof. intros impl; unfold commit_if_needed; now destruct (scene_committed impl). Qed.

Lemma commit_if_needed_idem : forall impl : Impl,
    scene_committed impl = true -> commit_if_needed impl = impl.
Proof. intros impl H; unfold commit_if_needed; now rewrite H. Qed.

Lemma commit_if_needed_calls : forall impl : Impl,
    calls (scene (commit_if_needed impl))
    = calls (scene impl) ++ (if scene_committed impl then [] else [CallCommitScene]).
Proof.
  intros impl; unfold commit_if_needed; destruct (scene_committed impl); cbn.
  - now rewrite app_nil_r.
  - reflexivity.
Qed.

Lemma commit_if_needed_attached : forall impl : Impl,
    attached (scene (commit_if_needed impl)) = attached (scene impl).
Proof. intros impl; unfold commit_if_needed; now destruct (scene_committed impl). Qed.

Lemma commit_if_needed_bvh : forall impl : Impl,
    committed_inv impl ->
    bvh (scene (commit_if_needed impl)) = attached (scene impl).
Proof.
  intros impl Hinv; unfold commit_if_needed; destruct (scene_committed impl) eqn:E; cbn.
  - now apply Hinv.
  - reflexivity.
Qed.

Lemma Impl_CastRays_step :
  forall (b : N) (L : bool) (rays : ptr float) (num_rays : N) (o : CastOutputs) (impl : Impl),
    query_step impl (fst (Impl_CastRays_with b L rays num_rays o impl)).
Proof.
  intros; unfold Impl_CastRays_with, for_range; cbn [fst scene scene_committed geometry_ptrs].
  split; [apply commit_if_needed_committed |].
  split; [apply commit_if_needed_ptrs |].
  apply for_loop_scene with (proj := cs_scene); intros; apply cast_batch_scene.
Qed.


Lemma Impl_ComputeClosestPoints_step :
  forall (pts : ptr float) (n : N) (o : ClosestOutputs) (impl : Impl),
    query_step impl (fst (Impl_ComputeClosestPoints pts n o impl)).
Proof.
  intros; unfold Impl_ComputeClosestPoints, for_range;
    cbn [fst scene scene_committed geometry_ptrs].
  split; [apply commit_if_needed_committed |].
  split; [apply commit_if_needed_ptrs |].
  apply for_loop_scene with (proj := cl_scene); intros; apply closest_point_step_scene.
Qed.


Lemma bind_Ok : forall (A B : Type) (r : Result A) (k : A -> Result B) (y : B),
    bind r k = Ok y -> exists x, r = Ok x /\ k x = Ok y.
Proof. intros A B [x | m] k y H; [now exists x | discriminate]. Qed.

Ltac bind_inv H :=
  let x := fresh "x" in
  let Hx := fresh "Hx" in
  apply bind_Ok in H; destruct H as (x & Hx & H).

Lemma CastRays_step : forall (rays : Tensor float) (impl : Impl) r,
    CastRays rays impl = Ok r -> query_step impl (snd r).
Proof.
  intros rays impl r H; unfold CastRays in H; bind_inv H.
  injection H as <-; apply Impl_CastRays_step.
Qed.


Lemma ComputeClosestPoints_step : forall (pts : Tensor float) (impl : Impl) r,
    ComputeClosestPoints pts impl = Ok r -> query_step impl (snd r).
Proof.
  intros pts impl r H; unfold ComputeClosestPoints in H; bind_inv H.
  injection H as <-; apply Impl_ComputeClosestPoints_step.
Qed.

Lemma ComputeDistance_step : forall (pts : Tensor float) (impl : Impl) r,
    ComputeDistance pts impl = Ok r -> query_step impl (snd r).
Proof.
  intros pts impl r H; unfold ComputeDistance in H; bind_inv H; bind_inv H.
  injection H as <-; cbn [snd]; eapply ComputeClosestPoints_step; eauto.
Qed.





Lemma rebuilds_app : forall (sc : RTCScene) (l1 l2 : list RTCCall),
    calls sc = l1 ++ l2 ->
    ~ In CallCommitScene l2 ->
    rebuilds sc
    = length (filter (fun c => match c with CallCommitScene => true | _ => false end) l1).
Proof.
  intros sc l1 l2 Hc Hn; unfold rebuilds; rewrite Hc, filter_app, length_app.
  assert (H0 : filter (fun c => match c with CallCommitScene => true | _ => false end) l2 = []).
  { clear Hc; induction l2 as [| c l2 IH]; [reflexivity |].
    destruct c; cbn; try (apply IH; intros Hin; apply Hn; now right).
    exfalso; apply Hn; now left. }
  rewrite H0; cbn; lia.
Qed.

Lemma Ok_inj : forall (A : Type) (a b : A), Ok a = Ok b -> a = b.
Proof. intros A a b H; now injection H. Qed.

Lemma AssertShapeCompatible_x3_cases : forall (A : Type) (t : Tensor A),
    (AssertShapeCompatible_x3 t = Ok tt
     /\ match shape t with [_; 3%N] => true | _ => false end = true)
    \/ (exists msg, AssertShapeCompatible_x3 t = LogError msg
                    /\ match shape t with [_; 3%N] => true | _ => false end = false).
Proof.
  intros A t; unfold AssertShapeCompatible_x3.
  destruct (shape t) as [| a [| b [| c l]]];
    try (right; eexists; split; reflexivity);
    destruct b as [| [[p | p |] | [p | p |] |]];
    try (right; eexists; split; reflexivity).
  left; split; reflexivity.
Qed.

(** The three ways [AddTriangles] ends: an input check fails and the scene
    is untouched; the provider reports an error and only the flag has been
    cleared; or the geometry is attached and registered. *)
Lemma AddTriangles_run_cases :
  forall (vertices : Tensor float) (triangles : Tensor N) (impl : Impl),
    let g := mkRTCGeometry (GetLength vertices)
               (memcpy uninit_float (data vertices) (3 * GetLength vertices))
               (GetLength triangles)
               (memcpy uninit_uint32 (data triangles) (3 * GetLength triangles)) in
    let accepted :=
      rtcError NewGeometry = None
      /\ rtcError (SetNewGeometryBuffer RTC_BUFFER_TYPE_VERTEX (GetLength vertices)) = None
      /\ rtcError (SetNewGeometryBuffer RTC_BUFFER_TYPE_INDEX (GetLength triangles)) = None
      /\ rtcError CommitGeometry = None
      /\ rtcError AttachGeometry = None in
    (well_formed_x3 vertices && well_formed_x3 triangles = false
     /\ exists msg, AddTriangles_run vertices triangles impl = (LogError msg, impl))
    \/ (well_formed_x3 vertices && well_formed_x3 triangles = true
        /\ ~ accepted
        /\ exists msg,
             AddTriangles_run vertices triangles impl
             = (LogError msg, mkImpl (scene impl) false (geometry_ptrs impl)))
    \/ (well_formed_x3 vertices && well_formed_x3 triangles = true
        /\ accepted
        /\ AddTriangles_run vertices triangles impl
           = (Ok (to_uint32 (N.of_nat (length (attached (scene impl))))),
              mkImpl (mkRTCScene (attached (scene impl) ++ [g]) (bvh (scene impl))
                                 (calls (scene impl) ++ [CallAttachGeometry]))
                     false
                     (geometry_ptrs impl ++ [registry_entry g]))).
Proof.
  intros vertices triangles impl g accepted.
  unfold AddTriangles_run, well_formed_x3, run_bind, lift, check.
  destruct (Device_eqb (device vertices) tensor_device);
    [| left; split; [reflexivity | eexists; reflexivity]].
  destruct (AssertShapeCompatible_x3_cases vertices) as [[-> ->] | (m & -> & ->)];
    [| left; split; [reflexivity | eexists; reflexivity]].
  destruct (Device_eqb (device triangles) tensor_device);
    [| left; split; [reflexivity | eexists; reflexivity]].
  destruct (AssertShapeCompatible_x3_cases triangles) as [[-> ->] | (m & -> & ->)];
    [| left; split; [reflexivity | eexists; reflexivity]].
  right; unfold rtc_call, lift, ErrorFunction, accepted; cbn [andb].
  destruct (rtcError NewGeometry) as [e |];
    [left; split; [reflexivity |];
     split; [intros (H & _); discriminate | eexists; reflexivity] |].
  destruct (rtcError (SetNewGeometryBuffer RTC_BUFFER_TYPE_VERTEX _)) as [e |];
    [left; split; [reflexivity |];
     split; [intros (_ & H & _); discriminate | eexists; reflexivity] |].
  destruct (rtcError (SetNewGeometryBuffer RTC_BUFFER_TYPE_INDEX _)) as [e |];
    [left; split; [reflexivity |];
     split; [intros (_ & _ & H & _); discriminate | eexists; reflexivity] |].
  destruct (rtcError CommitGeometry) as [e |];
    [left; split; [reflexivity |];
     split; [intros (_ & _ & _ & H & _); discriminate | eexists; reflexivity] |].
  destruct (rtcError AttachGeometry) as [e |];
    [left; split; [reflexivity |];
     split; [intros (_ & _ & _ & _ & H); discriminate | eexists; reflexivity] |].
  right; split; [reflexivity |]. split; [repeat split |]. reflexivity.
Qed.

Lemma AddTriangles_mesh_eq : forall (mesh : TriangleMesh) (impl : Impl),
    AddTriangles_mesh mesh impl
    = if (4294967295 <? GetLength (GetVertices mesh))%N
      then LogError
             "Cannot add mesh with more than 4294967295 vertices to the scene"%string
      else AddTriangles (GetVertices mesh) (To_uint32 (GetTriangles mesh)) impl.
Proof.
  intros mesh impl; unfold AddTriangles_mesh, AddTriangles, AddTriangles_mesh_run.
  now destruct (4294967295 <? GetLength (GetVertices mesh))%N.
Qed.

(** What a registration through the tensor entry point leaves behind. *)
Lemma AddTriangles_result :
  forall (vertices : Tensor float) (triangles : Tensor N) (impl : Impl) r,
    AddTriangles vertices triangles impl = Ok r ->
    let g := mkRTCGeometry (GetLength vertices)
               (memcpy uninit_float (data vertices) (3 * GetLength vertices))
               (GetLength triangles)
               (memcpy uninit_uint32 (data triangles) (3 * GetLength triangles)) in
    fst r = to_uint32 (N.of_nat (length (attached (scene impl))))
    /\ snd r = mkImpl (mkRTCScene (attached (scene impl) ++ [g]) (bvh (scene impl))
                                  (calls (scene impl) ++ [CallAttachGeometry]))
                      false
                      (geometry_ptrs impl ++ [registry_entry g]).
Proof.
  intros vertices triangles impl r H g; unfold AddTriangles, outcome in H.
  destruct (AddTriangles_run_cases vertices triangles impl)
    as [(_ & msg & E) | [(_ & _ & msg & E) | (_ & _ & E)]];
    rewrite E in H; cbn [fst snd] in H; try discriminate.
  apply Ok_inj in H; subst r; split; reflexivity.
Qed.


(** **** C3: registration *)

(** C3.  For every vertex buffer of more than 2^32 - 1 vertices,
    registering it fails before the geometry is added, through every public
    entry point.  [AddTriangles(const TriangleMesh&)] fails by its own
    check, before any provider call, and leaves the scene untouched.
    [AddTriangles(vertices, triangles)] has no check of its own: it fails
    when the provider refuses the vertex buffer (the limit the specification
    gives the provider), the provider's error ending the call through
    [ErrorFunction] before the geometry is attached: the provider's scene
    and the registry are as they were. *)
Theorem AddTriangles_vertex_count_check :
  forall (impl : Impl),
    (forall mesh : TriangleMesh,
        (4294967295 < GetLength (GetVertices mesh))%N ->
        exists msg, AddTriangles_mesh_run mesh impl = (LogError msg, impl)
                    /\ AddTriangles_mesh mesh impl = LogError msg
                    /\ run_registration (RMesh mesh) impl = LogError msg)
    /\ (provider_item_limit ->
        forall (vertices : Tensor float) (triangles : Tensor N),
          (4294967295 < GetLength vertices)%N ->
          exists msg impl',
            AddTriangles_run vertices triangles impl = (LogError msg, impl')
            /\ AddTriangles vertices triangles impl = LogError msg
            /\ run_registration (RTensors vertices triangles) impl = LogError msg
            /\ scene impl' = scene impl
            /\ geometry_ptrs impl' = geometry_ptrs impl).
Proof.
  intros impl; split.
  - intros mesh Hbig; unfold run_registration, AddTriangles_mesh, AddTriangles_mesh_run.
    apply N.ltb_lt in Hbig; rewrite Hbig; cbn [bind lift outcome fst snd].
    eexists; repeat split; reflexivity.
  - intros Hlimit vertices triangles Hbig.
    unfold run_registration, AddTriangles, outcome.
    destruct (AddTriangles_run_cases vertices triangles impl)
      as [(_ & msg & E) | [(_ & _ & msg & E) | (_ & (_ & Hv & _) & _)]].
    + exists msg, impl; rewrite E; cbn [fst snd bind]; repeat split; reflexivity.
    + eexists msg, _; rewrite E; cbn [fst snd bind]; repeat split; reflexivity.
    + exfalso; exact (Hlimit RTC_BUFFER_TYPE_VERTEX _ Hbig Hv).
Qed.

(** **** C5: the commit flag *)


(** **** C9: Impl::ComputeClosestPoints, point by point *)

Lemma Impl_ComputeClosestPoints_at :
  forall (pts : ptr float) (n : N) (o : ClosestOutputs) (impl : Impl) (i : N),
    (i < n)%N ->
    let out := snd (Impl_ComputeClosestPoints pts n o impl) in
    let res := closest_result (bvh (scene (commit_if_needed impl)))
                              (geometry_ptrs (commit_if_needed impl)) pts i in
    cl_geometry_ids out i = cp_geomID res
    /\ cl_primitive_ids out i = cp_primID res
    /\ closest_points out (3 * i + 0)%N = vx (cp_p res)
    /\ closest_points out (3 * i + 1)%N = vy (cp_p res)
    /\ closest_points out (3 * i + 2)%N = vz (cp_p res).
Proof.
  intros pts n o impl i Hi out res.
  set (impl1 := commit_if_needed impl) in *.
  set (ix := bvh (scene impl1)) in *.
  set (ptrs := geometry_ptrs impl1) in *.
  pose (P := fun (k : N) (st : ClosestState) =>
    bvh (cl_scene st) = ix
    /\ forall j, (j < k)%N ->
         let r := closest_result ix ptrs pts j in
         cl_geometry_ids (cl_out st) j = cp_geomID r
         /\ cl_primitive_ids (cl_out st) j = cp_primID r
         /\ closest_points (cl_out st) (3 * j + 0)%N = vx (cp_p r)
         /\ closest_points (cl_out st) (3 * j + 1)%N = vy (cp_p r)
         /\ closest_points (cl_out st) (3 * j + 2)%N = vz (cp_p r)).
  assert (HP : P n (for_range 0 n (closest_point_step ptrs pts)
                              (mkClosestState (scene impl1) o))).
  { apply for_range_inv; [lia | split; [reflexivity | intros j Hj; lia] |].
    intros k st Hk [Hbvh Hdone]; split; [exact Hbvh |].
    intros j Hj r.
    unfold closest_point_step, rtcPointQuery;
      cbn [cl_out fst snd closest_points cl_geometry_ids cl_primitive_ids].
    rewrite Hbvh.
    destruct (N.eq_dec j k) as [-> | Hne].
    - fold (closest_result ix ptrs pts k); fold r.
      rewrite !store_eq.
      rewrite (store_neq _ (j := (3 * k + 0)%N) (i := (3 * k + 2)%N)) by lia.
      rewrite (store_neq _ (j := (3 * k + 0)%N) (i := (3 * k + 1)%N)) by lia.
      rewrite (store_neq _ (j := (3 * k + 1)%N) (i := (3 * k + 2)%N)) by lia.
      rewrite !store_eq; auto.
    - rewrite !store_neq by lia; apply Hdone; lia. }
  destruct HP as [_ HP]; apply (HP i Hi).
Qed.

(** C9.  For every query point for which the callback accepts none of the
    candidates the provider hands it, [Impl::ComputeClosestPoints] reports
    the invalid id as geometry id and as primitive id; in particular this is
    so for every point on a scene nothing was registered in, the provider
    having no candidate to hand over. *)
Theorem ComputeClosestPoints_no_candidate_invalid :
  forall (pts : ptr float) (n : N) (o : ClosestOutputs) (i : N),
    (i < n)%N ->
    (forall impl : Impl,
        let ix := bvh (scene (commit_if_needed impl)) in
        let q := new_query pts i in
        let out := snd (Impl_ComputeClosestPoints pts n o impl) in
        (forall c, In c (rtcPointQueryOrder ix q) ->
                   rtcPointQueryVisits ix q c = true ->
                   fst (ClosestPointFunc q (new_ClosestPointResult (geometry_ptrs impl))
                                         (fst c) (snd c)) = false) ->
        cl_geometry_ids out i = INVALID_ID /\ cl_primitive_ids out i = INVALID_ID)
    /\ ((forall q, rtcPointQueryOrder [] q = []) ->
        let out := snd (Impl_ComputeClosestPoints pts n o new_RaycastingScene) in
        cl_geometry_ids out i = INVALID_ID /\ cl_primitive_ids out i = INVALID_ID).
Proof.
  intros pts n o i Hi.
  assert (Hgen : forall impl : Impl,
        let ix := bvh (scene (commit_if_needed impl)) in
        let q := new_query pts i in
        let out := snd (Impl_ComputeClosestPoints pts n o impl) in
        (forall c, In c (rtcPointQueryOrder ix q) ->
                   rtcPointQueryVisits ix q c = true ->
                   fst (ClosestPointFunc q (new_ClosestPointResult (geometry_ptrs impl))
                                         (fst c) (snd c)) = false) ->
        cl_geometry_ids out i = INVALID_ID /\ cl_primitive_ids out i = INVALID_ID).
  { intros impl ix q out Hrej.
    destruct (Impl_ComputeClosestPoints_at pts o impl Hi) as (Hg & Hp & _).
    fold out in Hg, Hp; fold ix in Hg, Hp.
    unfold closest_result in Hg, Hp; fold q in Hg, Hp.
    rewrite commit_if_needed_ptrs in Hg, Hp.
    rewrite (@walk_all_rejected ix _ q _ Hrej) in Hg, Hp.
    now rewrite Hg, Hp. }
  split; [exact Hgen |].
  intros Hempty out; apply Hgen.
  cbn [commit_if_needed new_RaycastingScene scene_committed negb scene
       rtcCommitScene attached bvh].
  rewrite Hempty; intros c [].
Qed.

(** **** C4, C7: Impl::CastRays, ray by ray *)

Lemma same_outside_refl : forall (lo hi : N) (o : CastOutputs), same_outside lo hi o o.
Proof. intros; repeat split. Qed.

Lemma same_outside_trans : forall (lo1 hi1 lo2 hi2 lo hi : N) (o1 o2 o3 : CastOutputs),
    same_outside lo1 hi1 o1 o2 ->
    same_outside lo2 hi2 o2 o3 ->
    (lo <= lo1)%N -> (lo <= lo2)%N -> (hi1 <= hi)%N -> (hi2 <= hi)%N ->
    same_outside lo hi o1 o3.
Proof.
  intros lo1 hi1 lo2 hi2 lo hi o1 o2 o3 (A1 & B1 & C1) (A2 & B2 & C2) H1 H2 H3 H4.
  split; [| split]; intros j Hj.
  - destruct (A1 j) as (a & b & c); [lia |].
    destruct (A2 j) as (a' & b' & c'); [lia |].
    repeat split; congruence.
  - rewrite B2, B1 by lia; reflexivity.
  - rewrite C2, C1 by lia; reflexivity.
Qed.

Lemma write_hit_same_outside :
  forall (rayhits : ptr RTCRayHit) (start_idx i : N) (o : CastOutputs),
    let idx := (id (ray (rayhits (i - start_idx)%N)) + start_idx)%N in
    same_outside idx (idx + 1) o (write_hit rayhits start_idx i o).
Proof.
  intros rayhits start_idx i o idx; unfold write_hit; fold idx.
  destruct (negb (N.eqb (geomID (hit (rayhits (i - start_idx)%N))) RTC_INVALID_GEOMETRY_ID));
    (split; [| split]; intros j Hj;
     cbn [t_hit geometry_ids primitive_ids primitive_uvs primitive_normals];
     rewrite ?store_neq by lia; auto).
Qed.

Lemma read_out_same_outside : forall (lo hi i : N) (o o' : CastOutputs),
    same_outside lo hi o o' -> ~ (lo <= i < hi)%N -> read_out o' i = read_out o i.
Proof.
  intros lo hi i o o' (A & B & C) Hi; unfold read_out.
  destruct (A i Hi) as (-> & -> & ->).
  rewrite !B, !C by lia; reflexivity.
Qed.

Lemma to_uint32_small : forall n : N, (n < 4294967296)%N -> to_uint32 n = n.
Proof. intros n Hn; unfold to_uint32; now apply N.mod_small. Qed.

Lemma fill_loop :
  forall (L : bool) (rays : ptr float) (start_idx end_idx : N) (rh0 : ptr RTCRayHit),
    (start_idx <= end_idx)%N ->
    times_zero rh0 ->
    let rh := for_range start_idx end_idx (fill_rayhit L rays start_idx) rh0 in
    times_zero rh
    /\ forall j, (j < end_idx - start_idx)%N ->
                 ray (rh j) = ray_at L rays (start_idx + j) (to_uint32 j)
                 /\ geomID (hit (rh j)) = RTC_INVALID_GEOMETRY_ID.
Proof.
  intros L rays start_idx end_idx rh0 Hle Hz rh.
  pose (P := fun (k : N) (r : ptr RTCRayHit) =>
    times_zero r
    /\ forall j, (start_idx + j < k)%N ->
                 ray (r j) = ray_at L rays (start_idx + j) (to_uint32 j)
                 /\ geomID (hit (r j)) = RTC_INVALID_GEOMETRY_ID).
  assert (HP : P end_idx rh).
  { apply for_range_inv; [exact Hle | split; [exact Hz | intros j Hj; lia] |].
    intros k r Hk [Hzr Hdone]; split.
    - intros j; unfold fill_rayhit.
      destruct (N.eq_dec j (k - start_idx)) as [-> | Hne].
      + rewrite store_eq; cbn [ray time]; apply Hzr.
      + rewrite store_neq by exact Hne; apply Hzr.
    - intros j Hj; unfold fill_rayhit.
      destruct (N.eq_dec j (k - start_idx)) as [-> | Hne].
      + rewrite store_eq; cbn [ray hit geomID]; rewrite Hzr.
        replace (start_idx + (k - start_idx))%N with k by lia.
        split; reflexivity.
      + rewrite store_neq by exact Hne; apply Hdone; lia. }
  destruct HP as [Hz' Hdone]; split; [exact Hz' |].
  intros j Hj; apply Hdone; lia.
Qed.

Lemma rtcIntersect1_ray : forall (ix : list RTCGeometry) (rh : RTCRayHit),
    id (ray (rtcIntersect1 ix rh)) = id (ray rh)
    /\ time (ray (rtcIntersect1 ix rh)) = time (ray rh).
Proof.
  intros ix rh; unfold rtcIntersect1.
  destruct (rtcNearestHit ix (ray rh)) as [[t h] |]; split; reflexivity.
Qed.

Lemma rtcIntersect1_cast_ray :
  forall (ix : list RTCGeometry) (L : bool) (rays : ptr float) (i k : N) (rh : RTCRayHit),
    ray rh = ray_at L rays i k ->
    geomID (hit rh) = RTC_INVALID_GEOMETRY_ID ->
    hit_out (rtcIntersect1 ix rh) = cast_ray ix L rays i.
Proof using rtcNearestHit_id.
  intros ix L rays i k rh Hray Hgeom; unfold cast_ray, rtcIntersect1.
  cbn [ray]; rewrite Hray.
  change (ray_at L rays i k) with (set_id (ray_at L rays i 0) k).
  rewrite rtcNearestHit_id.
  destruct (rtcNearestHit ix (ray_at L rays i 0)) as [[t h] |].
  - reflexivity.
  - unfold hit_out; cbn [hit ray]; rewrite Hgeom, Hray; reflexivity.
Qed.

Lemma write_loop :
  forall (rh : ptr RTCRayHit) (start_idx end_idx : N) (o : CastOutputs),
    (start_idx <= end_idx)%N ->
    (forall j, (j < end_idx - start_idx)%N -> id (ray (rh j)) = j) ->
    let o' := for_range start_idx end_idx (write_hit rh start_idx) o in
    same_outside start_idx end_idx o o'
    /\ forall i, (start_idx <= i < end_idx)%N ->
                 read_out o' i = hit_out (rh (i - start_idx)%N).
Proof.
  intros rh start_idx end_idx o Hle Hid o'.
  pose (P := fun (k : N) (x : CastOutputs) =>
    same_outside start_idx k o x
    /\ forall i, (start_idx <= i < k)%N -> read_out x i = hit_out (rh (i - start_idx)%N)).
  assert (HP : P end_idx o').
  { apply for_range_inv;
      [exact Hle | split; [apply same_outside_refl | intros i Hi; lia] |].
    intros k x Hk [Hout Hdone].
    assert (Hidx : (id (ray (rh (k - start_idx)%N)) + start_idx)%N = k)
      by (rewrite Hid by lia; lia).
    pose proof (write_hit_same_outside rh start_idx k x) as Hw.
    cbv zeta in Hw; rewrite Hidx in Hw.
    split.
    - eapply same_outside_trans; [exact Hout | exact Hw | lia ..].
    - intros i Hi; destruct (N.eq_dec i k) as [-> | Hne].
      + rewrite <- Hidx at 2; apply write_hit_read.
      + rewrite (read_out_same_outside (i := i) Hw) by lia; apply Hdone; lia. }
  exact HP.
Qed.

Lemma rtcIntersect1M_times_zero :
  forall (sc : RTCScene) (rh : ptr RTCRayHit) (M : N),
    times_zero rh -> times_zero (snd (rtcIntersect1M sc rh M)).
Proof.
  intros sc rh M Hz j; cbn [rtcIntersect1M snd].
  destruct (j <? M)%N; [| apply Hz].
  destruct (rtcIntersect1_ray (bvh sc) (rh j)) as [_ ->]; apply Hz.
Qed.

Lemma cast_batch_inv :
  forall (L : bool) (rays : ptr float) (num_rays size n : N) (o : CastOutputs)
         (st : CastState) (ix : list RTCGeometry),
    (size <= 4294967296)%N ->
    bvh (cs_scene st) = ix ->
    times_zero (cs_rayhits st) ->
    same_outside 0 (N.min num_rays (n * size)) o (cs_out st) ->
    (forall i, (i < N.min num_rays (n * size))%N ->
               read_out (cs_out st) i = cast_ray ix L rays i) ->
    let st' := cast_batch L rays num_rays size n st in
    bvh (cs_scene st') = ix
    /\ times_zero (cs_rayhits st')
    /\ same_outside 0 (N.min num_rays (N.succ n * size)) o (cs_out st')
    /\ (forall i, (i < N.min num_rays (N.succ n * size))%N ->
                  read_out (cs_out st') i = cast_ray ix L rays i).
Proof using rtcNearestHit_id.
  intros L rays num_rays size n o st ix Hsize Hbvh Hz Hout Hdone st'.
  unfold st', cast_batch.
  replace (N.succ n * size)%N with (n * size + size)%N in * by lia.
  replace ((n + 1) * size)%N with (n * size + size)%N by lia.
  set (start_idx := (n * size)%N) in *.
  set (end_idx := N.min num_rays (start_idx + size)).
  set (rh1 := for_range start_idx end_idx (fill_rayhit L rays start_idx) (cs_rayhits st)).
  cbn [cs_scene cs_rayhits cs_out].
  split; [exact Hbvh |].
  destruct (N.le_gt_cases end_idx start_idx) as [Hempty | Hlt].
  - unfold rh1; rewrite !for_range_empty by exact Hempty.
    split; [now apply rtcIntersect1M_times_zero |].
    replace end_idx with (N.min num_rays start_idx) by lia.
    split; assumption.
  - assert (Hle : (start_idx <= end_idx)%N) by lia.
    destruct (fill_loop L rays (rh0 := cs_rayhits st) Hle Hz) as [Hz1 Hfill].
    fold rh1 in Hz1, Hfill.
    split; [now apply rtcIntersect1M_times_zero |].
    set (rh2 := snd (rtcIntersect1M (cs_scene st) rh1 (end_idx - start_idx))).
    assert (Hrh2 : forall j, (j < end_idx - start_idx)%N ->
                             rh2 j = rtcIntersect1 ix (rh1 j)).
    { intros j Hj; unfold rh2; cbn [rtcIntersect1M snd].
      apply N.ltb_lt in Hj; now rewrite Hj, Hbvh. }
    assert (Hid : forall j, (j < end_idx - start_idx)%N -> id (ray (rh2 j)) = j).
    { intros j Hj; rewrite (Hrh2 j Hj).
      destruct (rtcIntersect1_ray ix (rh1 j)) as [-> _].
      destruct (Hfill j Hj) as [-> _]; cbn [ray_at id].
      apply to_uint32_small; lia. }
    destruct (write_loop rh2 (cs_out st) Hle Hid) as [Hframe Hnew].
    split.
    + eapply same_outside_trans; [exact Hout | exact Hframe | lia ..].
    + intros i Hi; destruct (N.lt_ge_cases i start_idx) as [Hold | Hin].
      * rewrite (read_out_same_outside (i := i) Hframe) by lia.
        apply Hdone; lia.
      * rewrite Hnew by (fold end_idx in Hi; lia).
        rewrite Hrh2 by (fold end_idx in Hi; lia).
        destruct (Hfill (i - start_idx)%N) as [Hray Hgeom];
          [fold end_idx in Hi; lia |].
        replace (start_idx + (i - start_idx))%N with i in Hray by lia.
        eapply rtcIntersect1_cast_ray; eauto.
Qed.

Lemma DivUp_covers : forall x y : N, (0 < y)%N -> (x <= DivUp x y * y)%N.
Proof using DivUp_spec.
  intros x y Hy; rewrite DivUp_spec by exact Hy.
  pose proof (N.div_mod (x + y - 1) y ltac:(lia)) as Hdm.
  pose proof (N.mod_lt (x + y - 1) y ltac:(lia)) as Hm.
  rewrite N.mul_comm; lia.
Qed.

Lemma zero_rayhit_times_zero : times_zero (fun _ : N => zero_rayhit).
Proof. intros j; reflexivity. Qed.

(** What [Impl::CastRays] writes: entry [i] is the record of input ray [i]
    cast on its own, and nothing is written beyond the entries of the
    [num_rays] rays. *)
Lemma Impl_CastRays_with_at :
  forall (b : N) (L : bool) (rays : ptr float) (num_rays : N) (o : CastOutputs)
         (impl : Impl),
    (0 < b)%N ->
    (N.min num_rays b <= 4294967296)%N ->
    let ix := bvh (scene (commit_if_needed impl)) in
    let out := snd (Impl_CastRays_with b L rays num_rays o impl) in
    same_outside 0 num_rays o out
    /\ forall i, (i < num_rays)%N -> read_out out i = cast_ray ix L rays i.
Proof using DivUp_spec rtcNearestHit_id.
  intros b L rays num_rays o impl Hb Hsize ix out.
  unfold out, Impl_CastRays_with; cbn [snd].
  set (size := N.min num_rays b) in *.
  set (impl1 := commit_if_needed impl) in *.
  pose (P := fun (n : N) (st : CastState) =>
    bvh (cs_scene st) = ix
    /\ times_zero (cs_rayhits st)
    /\ same_outside 0 (N.min num_rays (n * size)) o (cs_out st)
    /\ (forall i, (i < N.min num_rays (n * size))%N ->
                  read_out (cs_out st) i = cast_ray ix L rays i)).
  assert (HP : P (DivUp num_rays size)
                 (for_range 0 (DivUp num_rays size) (cast_batch L rays num_rays size)
                            (mkCastState (scene impl1) (fun _ => zero_rayhit) o))).
  { apply for_range_inv; [lia | |].
    - repeat split; try reflexivity; intros i Hi; lia.
    - intros n st _ (H1 & H2 & H3 & H4); unfold P.
      now apply cast_batch_inv. }
  destruct HP as (_ & _ & Hframe & Hdone).
  assert (Hcover : N.min num_rays (DivUp num_rays size * size) = num_rays).
  { destruct (N.eq_dec size 0) as [H0 | Hpos].
    - unfold size in H0; lia.
    - pose proof (@DivUp_covers num_rays size ltac:(lia)); lia. }
  rewrite Hcover in Hframe, Hdone; split; assumption.
Qed.

Lemma same_outputs_of_reads :
  forall (n : N) (o o1 o2 : CastOutputs),
    same_outside 0 n o o1 ->
    same_outside 0 n o o2 ->
    (forall i, (i < n)%N -> read_out o1 i = read_out o2 i) ->
    same_outputs o1 o2.
Proof.
  intros n o o1 o2 (A1 & B1 & C1) (A2 & B2 & C2) Hreads j.
  assert (Hscalar : t_hit o1 j = t_hit o2 j
                    /\ geometry_ids o1 j = geometry_ids o2 j
                    /\ primitive_ids o1 j = primitive_ids o2 j).
  { destruct (N.lt_ge_cases j n) as [Hlt | Hge].
    - specialize (Hreads j Hlt); unfold read_out in Hreads.
      injection Hreads; auto.
    - destruct (A1 j) as (-> & -> & ->); [lia |].
      destruct (A2 j) as (-> & -> & ->); [lia |]; auto. }
  assert (Huv : primitive_uvs o1 j = primitive_uvs o2 j).
  { destruct (N.lt_ge_cases j (n * 2)) as [Hlt | Hge].
    - pose proof (N.div_mod j 2 ltac:(lia)) as Hdm.
      pose proof (N.mod_lt j 2 ltac:(lia)) as Hm.
      set (q := (j / 2)%N) in *; set (r := (j mod 2)%N) in *; clearbody q r.
      assert (Hi : (q < n)%N) by lia.
      specialize (Hreads _ Hi); unfold read_out in Hreads.
      injection Hreads; intros _ _ _ Hv Hu _ _ _.
      assert (Hcase : j = (q * 2 + 0)%N \/ j = (q * 2 + 1)%N) by lia.
      destruct Hcase as [-> | ->]; assumption.
    - rewrite B1, B2 by lia; reflexivity. }
  assert (Hn : primitive_normals o1 j = primitive_normals o2 j).
  { destruct (N.lt_ge_cases j (n * 3)) as [Hlt | Hge].
    - pose proof (N.div_mod j 3 ltac:(lia)) as Hdm.
      pose proof (N.mod_lt j 3 ltac:(lia)) as Hm.
      set (q := (j / 3)%N) in *; set (r := (j mod 3)%N) in *; clearbody q r.
      assert (Hi : (q < n)%N) by lia.
      specialize (Hreads _ Hi); unfold read_out in Hreads.
      injection Hreads; intros Hz Hy Hx _ _ _ _ _.
      assert (Hcase : j = (q * 3 + 0)%N \/ j = (q * 3 + 1)%N
                      \/ j = (q * 3 + 2)%N) by lia.
      destruct Hcase as [-> | [-> | ->]]; assumption.
    - rewrite C1, C2 by lia; reflexivity. }
  destruct Hscalar as (Ht & Hg & Hp); repeat split; assumption.
Qed.

Lemma DivUp_one_batch : forall n : N, (0 < n)%N -> DivUp n n = 1%N.
Proof using DivUp_spec.
  intros n Hn; rewrite DivUp_spec by exact Hn.
  symmetry; apply (N.div_unique (n + n - 1) n 1 (n - 1)); lia.
Qed.



(** C7.  For every ray of an unbounded-mode batch that the provider finds
    no hit for, [Impl::CastRays] writes the miss sentinel: [t_hit] is
    +infinity, the geometry and primitive ids are the invalid id, and the
    two barycentric coordinates and three normal components are zero. *)
Theorem CastRays_miss_sentinel :
  forall (rays : ptr float) (num_rays : N) (o : CastOutputs) (impl : Impl) (i : N),
    (i < num_rays)%N ->
    rtcNearestHit (bvh (scene (commit_if_needed impl))) (ray_at false rays i 0) = None ->
    read_out (snd (Impl_CastRays false rays num_rays o impl)) i
    = mkHitOut Float32.infinity INVALID_ID INVALID_ID
               Float32.zero Float32.zero Float32.zero Float32.zero Float32.zero.
Proof using DivUp_spec rtcNearestHit_id.
  intros rays num_rays o impl i Hi Hmiss; unfold Impl_CastRays.
  destruct (@Impl_CastRays_with_at MAX_BATCH_SIZE false rays num_rays o impl)
    as [_ Hr]; [reflexivity | unfold MAX_BATCH_SIZE; lia |].
  rewrite (Hr i Hi); unfold cast_ray, rtcIntersect1; cbn [ray].
  rewrite Hmiss; reflexivity.
Qed.

(** **** C6, C8: Impl::CountIntersections, ray by ray *)

Lemma present_candidate_eq :
  forall (ctx : Filter.CountIntersectionsContext) (rh : RTCRayHit) (c : float * RTCHit),
    present_candidate (ctx, rh) c
    = (if Filter.new_crossing (Filter.previous_geom_prim_ID_tfar ctx (id (ray rh)))
                              (snd c) (set_tfar (ray rh) (fst c))
       then Filter.mkContext
              (store (Filter.previous_geom_prim_ID_tfar ctx) (id (ray rh))
                     (geomID (snd c), primID (snd c), fst c))
              (store (Filter.intersections ctx) (id (ray rh))
                     (Filter.intersections ctx (id (ray rh)) + 1)%Z)
       else ctx, rh).
Proof.
  intros ctx rh c; unfold present_candidate; cbn [fst snd].
  rewrite lane_active; cbn [fst snd]; rewrite store_eq; reflexivity.
Qed.

Lemma fold_present_candidate :
  forall (cands : list (float * RTCHit)) (ctx : Filter.CountIntersectionsContext)
         (rh : RTCRayHit),
  exists ctx',
    fold_left present_candidate cands (ctx, rh) = (ctx', rh)
    /\ (Filter.previous_geom_prim_ID_tfar ctx' (id (ray rh)),
        Filter.intersections ctx' (id (ray rh)))
       = fold_left crossing_step cands
           (Filter.previous_geom_prim_ID_tfar ctx (id (ray rh)),
            Filter.intersections ctx (id (ray rh)))
    /\ forall k, k <> id (ray rh) ->
                 Filter.previous_geom_prim_ID_tfar ctx' k
                 = Filter.previous_geom_prim_ID_tfar ctx k
                 /\ Filter.intersections ctx' k = Filter.intersections ctx k.
Proof.
  induction cands as [| c cands IH]; intros ctx rh.
  - exists ctx; cbn; auto.
  - cbn [fold_left]; rewrite present_candidate_eq.
    set (ctx1 := if Filter.new_crossing _ _ _ then _ else ctx).
    destruct (IH ctx1 rh) as (ctx' & Hfold & Hat & Hframe).
    exists ctx'; split; [exact Hfold |].
    assert (Hstep : (Filter.previous_geom_prim_ID_tfar ctx1 (id (ray rh)),
                     Filter.intersections ctx1 (id (ray rh)))
                    = crossing_step
                        (Filter.previous_geom_prim_ID_tfar ctx (id (ray rh)),
                         Filter.intersections ctx (id (ray rh))) c).
    { unfold ctx1, crossing_step, Filter.new_crossing; cbn [fst snd tfar set_tfar].
      destruct (negb _ || _);
        cbn [Filter.previous_geom_prim_ID_tfar Filter.intersections];
        rewrite ?store_eq; reflexivity. }
    split; [now rewrite Hat, Hstep |].
    intros k Hk; destruct (Hframe k Hk) as [-> ->].
    unfold ctx1; destruct (Filter.new_crossing _ _ _);
      cbn [Filter.previous_geom_prim_ID_tfar Filter.intersections];
      rewrite ?store_neq by exact Hk; auto.
Qed.

Lemma filter_rays_loop :
  forall (sc : RTCScene) (ctx : Filter.CountIntersectionsContext)
         (rh : ptr RTCRayHit) (M start_idx : N),
    (forall j, (j < M)%N -> id (ray (rh j)) = (start_idx + j)%N) ->
    let res := snd (rtcIntersect1M_filter sc ctx rh M) in
    (forall j, snd res j = rh j)
    /\ (forall j, (j < M)%N ->
          (Filter.previous_geom_prim_ID_tfar (fst res) (start_idx + j)%N,
           Filter.intersections (fst res) (start_idx + j)%N)
          = fold_left crossing_step (rtcFilterCandidates (bvh sc) (ray (rh j)))
              (Filter.previous_geom_prim_ID_tfar ctx (start_idx + j)%N,
               Filter.intersections ctx (start_idx + j)%N))
    /\ (forall k, ~ (start_idx <= k < start_idx + M)%N ->
          Filter.previous_geom_prim_ID_tfar (fst res) k
          = Filter.previous_geom_prim_ID_tfar ctx k
          /\ Filter.intersections (fst res) k = Filter.intersections ctx k).
Proof.
  intros sc ctx rh M start_idx Hid res.
  pose (P := fun (n : N) (st : Filter.CountIntersectionsContext * ptr RTCRayHit) =>
    (forall j, snd st j = rh j)
    /\ (forall j, (j < n)%N ->
          (Filter.previous_geom_prim_ID_tfar (fst st) (start_idx + j)%N,
           Filter.intersections (fst st) (start_idx + j)%N)
          = fold_left crossing_step (rtcFilterCandidates (bvh sc) (ray (rh j)))
              (Filter.previous_geom_prim_ID_tfar ctx (start_idx + j)%N,
               Filter.intersections ctx (start_idx + j)%N))
    /\ (forall k, ~ (start_idx <= k < start_idx + n)%N ->
          Filter.previous_geom_prim_ID_tfar (fst st) k
          = Filter.previous_geom_prim_ID_tfar ctx k
          /\ Filter.intersections (fst st) k = Filter.intersections ctx k)).
  assert (HP : P M res).
  { unfold res, rtcIntersect1M_filter; cbn [snd].
    apply for_range_inv; [lia | |].
    - repeat split; intros; lia.
    - intros n st Hn (Hrh & Hdone & Hframe).
      unfold P; cbv beta zeta; unfold ptr in *; rewrite (Hrh n).
      destruct (fold_present_candidate (rtcFilterCandidates (bvh sc) (ray (rh n)))
                                       (fst st) (rh n))
        as (ctx' & Hfold & Hat & Hother).
      rewrite Hfold; cbn [fst snd]; rewrite (Hid n) in Hat, Hother by lia.
      split; [| split].
      + intros j; destruct (N.eq_dec j n) as [-> | Hne];
          [apply store_eq | rewrite store_neq by exact Hne; apply Hrh].
      + intros j Hj; destruct (N.eq_dec j n) as [-> | Hne].
        * rewrite Hat; destruct (Hframe (start_idx + n)%N) as [-> ->];
            [lia | reflexivity].
        * destruct (Hother (start_idx + j)%N) as [-> ->]; [lia |].
          apply Hdone; lia.
      + intros k Hk; destruct (Hother k) as [-> ->]; [lia |].
        apply Hframe; lia. }
  exact HP.
Qed.

Lemma fill_count_loop :
  forall (rays : ptr float) (start_idx end_idx : N) (rh0 : ptr RTCRayHit),
    (start_idx <= end_idx)%N ->
    times_zero rh0 ->
    let rh := for_range start_idx end_idx (fill_count_rayhit rays start_idx) rh0 in
    times_zero rh
    /\ forall j, (j < end_idx - start_idx)%N ->
                 ray (rh j) = ray_at false rays (start_idx + j) (to_uint32 (start_idx + j)).
Proof.
  intros rays start_idx end_idx rh0 Hle Hz rh.
  pose (P := fun (k : N) (r : ptr RTCRayHit) =>
    times_zero r
    /\ forall j, (start_idx + j < k)%N ->
                 ray (r j) = ray_at false rays (start_idx + j) (to_uint32 (start_idx + j))).
  assert (HP : P end_idx rh).
  { apply for_range_inv; [exact Hle | split; [exact Hz | intros j Hj; lia] |].
    intros k r Hk [Hzr Hdone]; split.
    - intros j; unfold fill_count_rayhit.
      destruct (N.eq_dec j (k - start_idx)) as [-> | Hne].
      + rewrite store_eq; cbn [ray time]; apply Hzr.
      + rewrite store_neq by exact Hne; apply Hzr.
    - intros j Hj; unfold fill_count_rayhit.
      destruct (N.eq_dec j (k - start_idx)) as [-> | Hne].
      + rewrite store_eq; cbn [ray]; rewrite Hzr.
        replace (start_idx + (k - start_idx))%N with k by lia.
        reflexivity.
      + rewrite store_neq by exact Hne; apply Hdone; lia. }
  destruct HP as [Hz' Hdone]; split; [exact Hz' |].
  intros j Hj; apply Hdone; lia.
Qed.

Lemma count_batch_inv :
  forall (rays : ptr float) (num_rays size n : N) (ints0 : ptr Z)
         (st : CountState) (ix : list RTCGeometry),
    (num_rays <= 4294967296)%N ->
    bvh (ct_scene st) = ix ->
    times_zero (ct_rayhits st) ->
    let init : Filter.gpt :=
      (RTC_INVALID_GEOMETRY_ID, RTC_INVALID_GEOMETRY_ID, Float32.zero) in
    let done := fun (m : N) (ctx : Filter.CountIntersectionsContext) =>
      (forall i, (i < m)%N ->
         Filter.intersections ctx i
         = snd (fold_left crossing_step
                  (rtcFilterCandidates ix (ray_at false rays i i)) (init, ints0 i)))
      /\ (forall i, (m <= i)%N ->
            Filter.previous_geom_prim_ID_tfar ctx i = init
            /\ Filter.intersections ctx i = ints0 i) in
    done (N.min num_rays (n * size)) (ct_context st) ->
    let st' := count_batch rays num_rays size n st in
    bvh (ct_scene st') = ix
    /\ times_zero (ct_rayhits st')
    /\ done (N.min num_rays (N.succ n * size)) (ct_context st').
Proof.
  intros rays num_rays size n ints0 st ix Hmax Hbvh Hz init done [Hold Hrest] st'.
  unfold st', count_batch.
  replace (N.succ n * size)%N with (n * size + size)%N in * by lia.
  replace ((n + 1) * size)%N with (n * size + size)%N by lia.
  set (start_idx := (n * size)%N) in *.
  set (end_idx := N.min num_rays (start_idx + size)).
  set (rh1 := for_range start_idx end_idx (fill_count_rayhit rays start_idx) (ct_rayhits st)).
  assert (Hrh1 : times_zero rh1
                 /\ forall j, (j < end_idx - start_idx)%N ->
                      ray (rh1 j)
                      = ray_at false rays (start_idx + j) (to_uint32 (start_idx + j))).
  { destruct (N.le_gt_cases end_idx start_idx) as [Hempty | Hlt].
    - unfold rh1; rewrite for_range_empty by exact Hempty.
      split; [exact Hz | intros j Hj; lia].
    - apply fill_count_loop; [lia | exact Hz]. }
  destruct Hrh1 as [Hz1 Hfill].
  assert (Hid : forall j, (j < end_idx - start_idx)%N ->
                          id (ray (rh1 j)) = (start_idx + j)%N).
  { intros j Hj; rewrite (Hfill j Hj); cbn [ray_at id].
    apply to_uint32_small; lia. }
  destruct (@filter_rays_loop (ct_scene st) (ct_context st) rh1
                              (end_idx - start_idx) start_idx Hid)
    as (Hsame & Hnew & Hframe).
  cbn [ct_scene ct_rayhits ct_context].
  split; [exact Hbvh |].
  split; [intros j; rewrite Hsame; apply Hz1 |].
  split.
  - intros i Hi; fold end_idx in Hi.
    destruct (N.lt_ge_cases i (N.min num_rays start_idx)) as [Hlt | Hge].
    + destruct (Hframe i) as [_ ->]; [lia | now apply Hold].
    + assert (Hj : (i - start_idx < end_idx - start_idx)%N) by lia.
      specialize (Hnew _ Hj); rewrite (Hfill _ Hj), Hbvh in Hnew.
      replace (start_idx + (i - start_idx))%N with i in Hnew by lia.
      rewrite (to_uint32_small (n := i)) in Hnew by lia.
      destruct (Hrest i Hge) as [Hp Hi0]; rewrite Hp, Hi0 in Hnew.
      rewrite <- Hnew; reflexivity.
  - intros i Hi; fold end_idx in Hi.
    destruct (Hframe i) as [-> ->]; [lia |].
    apply Hrest; lia.
Qed.

Lemma crossing_step_nonneg : forall (cands : list (float * RTCHit)) (st : Filter.gpt * Z),
    (0 <= snd st)%Z -> (0 <= snd (fold_left crossing_step cands st))%Z.
Proof.
  induction cands as [| c cands IH]; intros st Hst; [exact Hst |].
  cbn [fold_left]; apply IH; unfold crossing_step.
  destruct (negb _ || _); cbn [snd]; lia.
Qed.

Lemma count_crossings_nonneg : forall cands : list (float * RTCHit),
    (0 <= count_crossings cands)%Z.
Proof. intros cands; apply crossing_step_nonneg; cbn; lia. Qed.

(** What [Impl::CountIntersections] writes: entry [i] is the number of
    crossings counted along input ray [i] on its own, and nothing is written
    beyond the [num_rays] entries. *)
Lemma Impl_CountIntersections_with_all :
  forall (b : N) (rays : ptr float) (num_rays : N) (ints : ptr Z) (impl : Impl),
    (0 < b)%N ->
    (num_rays <= 4294967296)%N ->
    let out := snd (Impl_CountIntersections_with b rays num_rays ints impl) in
    (forall i, (i < num_rays)%N ->
       out i = count_crossings
                 (rtcFilterCandidates (bvh (scene (commit_if_needed impl)))
                                      (ray_at false rays i i)))
    /\ (forall i, (num_rays <= i)%N -> out i = ints i).
Proof using DivUp_spec.
  intros b rays num_rays ints impl Hb Hmax out.
  unfold out, Impl_CountIntersections_with; cbn [snd].
  set (size := N.min num_rays b) in *.
  set (impl1 := commit_if_needed impl) in *.
  set (ix := bvh (scene impl1)).
  set (ints0 := fun j : N => if (j <? num_rays)%N then 0%Z else ints j).
  set (init := (RTC_INVALID_GEOMETRY_ID, RTC_INVALID_GEOMETRY_ID, Float32.zero)).
  pose (P := fun (n : N) (st : CountState) =>
    bvh (ct_scene st) = ix
    /\ times_zero (ct_rayhits st)
    /\ (forall i, (i < N.min num_rays (n * size))%N ->
          Filter.intersections (ct_context st) i
          = snd (fold_left crossing_step
                   (rtcFilterCandidates ix (ray_at false rays i i)) (init, ints0 i)))
    /\ (forall i, (N.min num_rays (n * size) <= i)%N ->
          Filter.previous_geom_prim_ID_tfar (ct_context st) i = init
          /\ Filter.intersections (ct_context st) i = ints0 i)).
  assert (HP : P (DivUp num_rays size)
                 (for_range 0 (DivUp num_rays size) (count_batch rays num_rays size)
                    (mkCountState (scene impl1) (fun _ => zero_rayhit)
                       (Filter.mkContext (fun _ => init) ints0)))).
  { apply for_range_inv; [lia | |].
    - repeat split; try reflexivity; intros j Hj; lia.
    - intros n st _ (H1 & H2 & H3 & H4); unfold P.
      pose proof (@count_batch_inv rays num_rays size n ints0 st ix Hmax H1 H2
                                   (conj H3 H4)) as H.
      cbv zeta in H; destruct H as (A & B & C & D).
      split; [exact A | split; [exact B | split; [exact C | exact D]]]. }
  destruct HP as (_ & _ & Hdone & Hrest).
  assert (Hcover : N.min num_rays (DivUp num_rays size * size) = num_rays).
  { destruct (N.eq_dec size 0) as [H0 | Hpos].
    - unfold size in H0; lia.
    - pose proof (@DivUp_covers num_rays size ltac:(lia)); lia. }
  rewrite Hcover in Hdone, Hrest; split.
  - intros i Hi; rewrite (Hdone i Hi).
    unfold count_crossings, ints0; apply N.ltb_lt in Hi; now rewrite Hi.
  - intros i Hi; destruct (Hrest i Hi) as [_ ->].
    unfold ints0; apply N.ltb_ge in Hi; now rewrite Hi.
Qed.

Lemma Impl_CountIntersections_with_at :
  forall (b : N) (rays : ptr float) (num_rays : N) (ints : ptr Z) (impl : Impl) (i : N),
    (0 < b)%N ->
    (num_rays <= 4294967296)%N ->
    (i < num_rays)%N ->
    snd (Impl_CountIntersections_with b rays num_rays ints impl) i
    = count_crossings
        (rtcFilterCandidates (bvh (scene (commit_if_needed impl)))
                             (ray_at false rays i i)).
Proof using DivUp_spec.
  intros b rays num_rays ints impl i Hb Hmax Hi.
  now apply (@Impl_CountIntersections_with_all b rays num_rays ints impl Hb Hmax).
Qed.

(** C4.  For both ray parameterisations, every input and every two
    positive batch sizes (of which no more than 2^32 rays go into one
    batch, [ray.id] being a 32-bit field), entry [i] of the outputs of
    [Impl::CastRays] is the record of input ray [i] cast on its own, and
    the five output arrays of the two runs are equal entry by entry; when
    the second batch size is at least the number of rays, that run makes a
    single call to the provider for all the rays.  The crossing counts of
    [Impl::CountIntersections] are likewise the same for every two positive
    batch sizes, for inputs of at most 2^32 rays. *)
Theorem CastRays_chunks_invisible :
  forall (b B : N) (L : bool) (rays : ptr float) (num_rays : N) (o : CastOutputs)
         (impl : Impl),
    (0 < b)%N -> (0 < B)%N ->
    (N.min num_rays b <= 4294967296)%N ->
    (N.min num_rays B <= 4294967296)%N ->
    let ix := bvh (scene (commit_if_needed impl)) in
    let chunked := snd (Impl_CastRays_with b L rays num_rays o impl) in
    let unchunked := Impl_CastRays_with B L rays num_rays o impl in
    (forall i, (i < num_rays)%N -> read_out chunked i = cast_ray ix L rays i)
    /\ same_outputs chunked (snd unchunked)
    /\ ((0 < num_rays)%N -> (num_rays <= B)%N ->
        calls (scene (fst unchunked))
        = calls (scene (commit_if_needed impl)) ++ [CallIntersect1M num_rays])
    /\ ((num_rays <= 4294967296)%N ->
        forall (ints : ptr Z) (i : N),
          snd (Impl_CountIntersections_with b rays num_rays ints impl) i
          = snd (Impl_CountIntersections_with B rays num_rays ints impl) i).
Proof using DivUp_spec rtcNearestHit_id.
  intros b B L rays num_rays o impl Hb HB Hsb HsB ix chunked unchunked.
  destruct (@Impl_CastRays_with_at b L rays num_rays o impl Hb Hsb) as [Hf1 Hr1].
  destruct (@Impl_CastRays_with_at B L rays num_rays o impl HB HsB) as [Hf2 Hr2].
  fold chunked in Hf1, Hr1; fold unchunked in Hf2, Hr2; fold ix in Hr1, Hr2.
  split; [exact Hr1 |].
  split; [| split].
  - apply (same_outputs_of_reads Hf1 Hf2).
    intros i Hi; now rewrite Hr1, Hr2.
  - intros Hpos Hle; unfold unchunked, Impl_CastRays_with; cbn [fst scene].
    replace (N.min num_rays B) with num_rays by lia.
    rewrite (DivUp_one_batch Hpos).
    unfold for_range; change (N.to_nat (1 - 0)) with 1%nat.
    cbn [for_loop]; unfold cast_batch;
      cbn [cs_scene rtcIntersect1M fst emit calls].
    do 3 f_equal; lia.
  - intros Hmax ints i.
    destruct (@Impl_CountIntersections_with_all b rays num_rays ints impl Hb Hmax)
      as [Hc1 Hk1].
    destruct (@Impl_CountIntersections_with_all B rays num_rays ints impl HB Hmax)
      as [Hc2 Hk2].
    destruct (N.lt_ge_cases i num_rays) as [Hlt | Hge].
    + now rewrite (Hc1 i Hlt), (Hc2 i Hlt).
    + now rewrite (Hk1 i Hge), (Hk2 i Hge).
Qed.

Lemma data_mkTensor : forall (A : Type) (d : Device) (sh : list N) (f : ptr A),
    data (mkTensor d sh f) = f.
Proof. reflexivity. Qed.

Lemma probe_rays_data : forall (pts : ptr float) (n i k : N),
    (i < n)%N -> (k < 6)%N ->
    data (probe_rays pts n) (i * 6 + k)%N
    = if (k <? 3)%N then pts (3 * i + k)%N else Float32.one.
Proof.
  intros pts n i k Hi Hk; unfold probe_rays; cbn [data].
  assert (Hlt : (i * 6 + k <? n * 6)%N = true) by (apply N.ltb_lt; lia).
  rewrite Hlt.
  rewrite <- (N.mod_unique (i * 6 + k) 6 i k) by lia.
  rewrite <- (N.div_unique (i * 6 + k) 6 i k) by lia.
  reflexivity.
Qed.

Lemma probe_rays_ray_at : forall (pts : ptr float) (n i : N),
    (i < n)%N -> (n <= 4294967296)%N ->
    ray_at false (data (probe_rays pts n)) i i = probe_ray pts i.
Proof.
  intros pts n i Hi Hn; unfold ray_at, probe_ray.
  change (3 + 0)%N with 3%N; change (3 + 1)%N with 4%N; change (3 + 2)%N with 5%N.
  rewrite !(probe_rays_data pts (n := n) (i := i)) by lia.
  rewrite (to_uint32_small (n := i)) by lia.
  reflexivity.
Qed.

Lemma CountIntersections_probe :
  forall (pts : ptr float) (n : N) (impl : Impl) r,
    (n <= 4294967296)%N ->
    CountIntersections (probe_rays pts n) impl = Ok r ->
    forall i, (i < n)%N ->
      data (fst r) i
      = count_crossings
          (rtcFilterCandidates (bvh (scene (commit_if_needed impl))) (probe_ray pts i)).
Proof using DivUp_spec.
  intros pts n impl r Hn H i Hi; unfold CountIntersections in H; bind_inv H.
  injection H as <-.
  change (snd (Impl_CountIntersections (data (probe_rays pts n)) (n * 1) uninit_int impl) i
          = count_crossings
              (rtcFilterCandidates (bvh (scene (commit_if_needed impl)))
                                   (probe_ray pts i))).
  rewrite N.mul_1_r; unfold Impl_CountIntersections.
  rewrite Impl_CountIntersections_with_at by (try reflexivity; assumption).
  now rewrite (probe_rays_ray_at pts Hi Hn).
Qed.

Lemma ComputeDistance_at :
  forall (pts : Tensor float) (impl : Impl) r,
    ComputeDistance pts impl = Ok r ->
    forall i, (i < NumElements (removelast (shape pts)))%N ->
      let cp := cp_p (closest_result (bvh (scene (commit_if_needed impl)))
                                     (geometry_ptrs impl) (data pts) i) in
      data (fst r) i
      = colwise_norm (Float32.sub (vx cp) (data pts (3 * i + 0)%N))
                     (Float32.sub (vy cp) (data pts (3 * i + 1)%N))
                     (Float32.sub (vz cp) (data pts (3 * i + 2)%N)).
Proof.
  intros pts impl r H i Hi cp; unfold ComputeDistance in H; bind_inv H; bind_inv H.
  apply Ok_inj in H; subst r.
  unfold ComputeClosestPoints in Hx0; bind_inv Hx0.
  apply Ok_inj in Hx0; subst x0.
  set (out := snd (Impl_ComputeClosestPoints (data pts)
                     (NumElements (removelast (shape pts)))
                     (mkClosestOutputs uninit_float uninit_uint32 uninit_uint32) impl)).
  unfold fst at 1; rewrite !data_mkTensor.
  apply N.ltb_lt in Hi as Hi'; rewrite Hi'.
  change (r_points (fst (_, _))) with
    (mkTensor tensor_device (removelast (shape pts) ++ [3%N]) (closest_points out)).
  rewrite !data_mkTensor.
  destruct (Impl_ComputeClosestPoints_at (data pts)
              (mkClosestOutputs uninit_float uninit_uint32 uninit_uint32) impl Hi)
    as (_ & _ & H0 & H1 & H2).
  fold out in H0, H1, H2; rewrite H0, H1, H2.
  rewrite commit_if_needed_ptrs; reflexivity.
Qed.

Lemma binary_round_abs : forall (s : bool) (m : positive) (e : Z),
    SFabs (binary_round Float32.prec Float32.emax s m e)
    = SFabs (binary_round Float32.prec Float32.emax false m e).
Proof.
  intros s m e; unfold binary_round.
  destruct (shl_align m e _) as [mz ez]; unfold binary_round_aux.
  destruct (shr_fexp Float32.prec Float32.emax (Z.pos mz) ez loc_Exact) as [mrs' e'].
  destruct (shr_fexp Float32.prec Float32.emax _ e' loc_Exact) as [mrs'' e''].
  destruct (shr_m mrs''); [reflexivity | | reflexivity].
  destruct (e'' <=? Float32.emax - Float32.prec)%Z; reflexivity.
Qed.

Lemma binary_normalize_abs : forall (m e : Z),
    SFabs (binary_normalize Float32.prec Float32.emax (- m) e false)
    = SFabs (binary_normalize Float32.prec Float32.emax m e false).
Proof.
  intros [| m | m] e; cbn [Z.opp binary_normalize]; [reflexivity | |].
  - apply binary_round_abs.
  - symmetry; apply binary_round_abs.
Qed.

(** Exchanging the operands of a subtraction changes at most the sign. *)
Lemma sub_abs_sym : forall x y : float,
    SFabs (Float32.sub x y) = SFabs (Float32.sub y x).
Proof.
  intros [sx | sx | | sx mx ex] [sy | sy | | sy my ey]; unfold Float32.sub;
    cbn [SFsub]; try reflexivity;
    try (destruct sx; reflexivity); try (destruct sy; reflexivity);
    try (destruct sx, sy; reflexivity).
  cbv zeta; rewrite (Z.min_comm ey ex), <- binary_normalize_abs.
  f_equal; f_equal; lia.
Qed.

Lemma colwise_norm_sub_sym : forall a b c a' b' c' : float,
    colwise_norm (Float32.sub a a') (Float32.sub b b') (Float32.sub c c')
    = colwise_norm (Float32.sub a' a) (Float32.sub b' b) (Float32.sub c' c).
Proof using colwise_norm_abs.
  intros a b c a' b' c'.
  rewrite colwise_norm_abs, (sub_abs_sym a a'), (sub_abs_sym b b'), (sub_abs_sym c c').
  now rewrite <- colwise_norm_abs.
Qed.

Lemma sign_of_count_odd : forall c : Z,
    (0 <= c)%Z -> sign_of_count c = if Z.odd c then (-1)%Z else 1%Z.
Proof.
  intros c Hc; unfold sign_of_count.
  rewrite Z.rem_mod_nonneg, Zmod_odd by lia.
  now destruct (Z.odd c).
Qed.

Lemma query_step_bvh : forall impl impl' : Impl,
    query_step impl impl' ->
    bvh (scene (commit_if_needed impl')) = bvh (scene (commit_if_needed impl)).
Proof.
  intros impl impl' (Hc & _ & _ & Hbvh & _).
  now rewrite (commit_if_needed_idem _ Hc).
Qed.

(** C6 (as amended).  For every batch of at most 2^32 query points,
    [ComputeSignedDistance] returns, point by point, the distance
    [ComputeDistance] returns (the norm of the point minus its closest
    point, which is also the norm of the closest point minus the point the
    code takes) multiplied by the float -1 when the number of crossings
    counted along the ray from the point in direction (1,1,1) is odd, and by
    the float 1 when it is even. *)
Theorem ComputeSignedDistance_sign_by_parity :
  forall (pts : Tensor float) (impl impl' : Impl) (sd : Tensor float),
    let n := NumElements (removelast (shape pts)) in
    let ix := bvh (scene (commit_if_needed impl)) in
    (n <= 4294967296)%N ->
    ComputeSignedDistance pts impl = Ok (sd, impl') ->
    exists dist impl1,
      ComputeDistance pts impl = Ok (dist, impl1)
      /\ forall i, (i < n)%N ->
           let c := count_crossings (rtcFilterCandidates ix (probe_ray (data pts) i)) in
           let cp := cp_p (closest_result ix (geometry_ptrs impl) (data pts) i) in
           data dist i
           = colwise_norm (Float32.sub (data pts (3 * i + 0)%N) (vx cp))
                          (Float32.sub (data pts (3 * i + 1)%N) (vy cp))
                          (Float32.sub (data pts (3 * i + 2)%N) (vz cp))
           /\ data sd i
              = Float32.mul (data dist i)
                  (if Z.odd c then SFopp Float32.one else Float32.one).
Proof using DivUp_spec colwise_norm_abs.
  intros pts impl impl' sd n ix Hn H.
  unfold ComputeSignedDistance in H; bind_inv H; injection H as <- <-.
  unfold ComputeSignedDistance_signs in Hx; do 3 bind_inv Hx.
  apply Ok_inj in Hx; subst x; destruct x1 as [dist impl1].
  exists dist, impl1; split; [exact Hx1 |].
  intros i Hi c cp; split;
    [rewrite colwise_norm_sub_sym; apply (@ComputeDistance_at _ _ _ Hx1 i Hi) |].
  unfold fst at 1 2; rewrite data_mkTensor; fold n.
  apply N.ltb_lt in Hi as Hi'; rewrite !Hi'.
  unfold snd at 1 in Hx2; unfold fst at 1.
  rewrite (@CountIntersections_probe _ _ _ _ Hn Hx2 i Hi).
  pose proof (@ComputeDistance_step _ _ _ Hx1) as Hstep; unfold snd in Hstep.
  rewrite (query_step_bvh Hstep); fold ix c.
  rewrite (@sign_of_count_odd c (count_crossings_nonneg _)).
  now destruct (Z.odd c).
Qed.


(** **** The order of single-precision floats *)

Lemma ltb_irrefl : forall x : float, Float32.ltb x x = false.
Proof.
  intros [s | s | | s m e]; unfold Float32.ltb, SFltb; cbn [SFcompare];
    try (destruct s; reflexivity); try reflexivity.
  rewrite Z.compare_refl.
  change (PosDef.Pos.compare_cont Eq m m) with (Pos.compare m m).
  rewrite Pos.compare_refl; destruct s; reflexivity.
Qed.

Lemma finite_compare_trans :
  forall (e1 e2 e3 : Z) (m1 m2 m3 : positive),
    match (e1 ?= e2)%Z with Eq => Pos.compare m1 m2 | Lt => Lt | Gt => Gt end = Lt ->
    match (e2 ?= e3)%Z with Eq => Pos.compare m2 m3 | Lt => Lt | Gt => Gt end = Lt ->
    match (e1 ?= e3)%Z with Eq => Pos.compare m1 m3 | Lt => Lt | Gt => Gt end = Lt.
Proof.
  intros e1 e2 e3 m1 m2 m3.
  destruct (Z.compare_spec e1 e2), (Z.compare_spec e2 e3), (Z.compare_spec e1 e3);
    try discriminate; try reflexivity; try lia; subst.
  rewrite !Pos.compare_lt_iff; lia.
Qed.

Lemma ltb_trans : forall x y z : float,
    Float32.ltb x y = true -> Float32.ltb y z = true -> Float32.ltb x z = true.
Proof.
  unfold Float32.ltb, SFltb.
  intros [sx | sx | | sx mx ex] [sy | sy | | sy my ey] [sz | sz | | sz mz ez];
    cbn [SFcompare];
    try discriminate;
    try (destruct sx; try discriminate);
    try (destruct sy; try discriminate);
    try (destruct sz; try discriminate);
    try reflexivity;
    change (PosDef.Pos.compare_cont Eq) with Pos.compare.
  - (* three negative finite numbers *)
    intros H1 H2.
    assert (G1 : match (ey ?= ex)%Z with
                 | Eq => Pos.compare my mx | Lt => Lt | Gt => Gt end = Lt).
    { rewrite (Z.compare_antisym ex ey), (Pos.compare_antisym mx my).
      destruct (ex ?= ey)%Z; cbn [CompOpp] in *;
        [destruct (Pos.compare mx my); cbn [CompOpp] in *; congruence
        | discriminate | reflexivity]. }
    assert (G2 : match (ez ?= ey)%Z with
                 | Eq => Pos.compare mz my | Lt => Lt | Gt => Gt end = Lt).
    { rewrite (Z.compare_antisym ey ez), (Pos.compare_antisym my mz).
      destruct (ey ?= ez)%Z; cbn [CompOpp] in *;
        [destruct (Pos.compare my mz); cbn [CompOpp] in *; congruence
        | discriminate | reflexivity]. }
    pose proof (finite_compare_trans _ _ _ _ _ _ G2 G1) as G.
    rewrite (Z.compare_antisym ex ez), (Pos.compare_antisym mx mz) in G.
    destruct (ex ?= ez)%Z; cbn [CompOpp] in *;
      [destruct (Pos.compare mx mz); cbn [CompOpp] in *; congruence
      | discriminate | reflexivity].
  - (* three positive finite numbers *)
    intros H1 H2.
    assert (G1 : match (ex ?= ey)%Z with
                 | Eq => Pos.compare mx my | Lt => Lt | Gt => Gt end = Lt)
      by (destruct (ex ?= ey)%Z; [destruct (Pos.compare mx my) | |]; congruence).
    assert (G2 : match (ey ?= ez)%Z with
                 | Eq => Pos.compare my mz | Lt => Lt | Gt => Gt end = Lt)
      by (destruct (ey ?= ez)%Z; [destruct (Pos.compare my mz) | |]; congruence).
    pose proof (finite_compare_trans _ _ _ _ _ _ G1 G2) as G.
    now rewrite G.
Qed.

(** **** The point query returns a closest candidate *)

Lemma point_query_walk_sound :
  forall (ix : list RTCGeometry) (cands : list (N * N))
         (query : RTCPointQuery) (result : ClosestPointResult),
    let ptrs := geometry_ptrs_ptr result in
    let qv := mkVec3f (qx query) (qy query) (qz query) in
    let fin := point_query_walk ix cands (query, result) in
    fin = (query, result)
    \/ exists c pt,
        In c cands
        /\ candidate_point ptrs query c = Some pt
        /\ Float32.ltb (distance qv pt) (radius query) = true
        /\ fin = (set_radius query (distance qv pt),
                  mkClosestPointResult pt (snd c) (fst c) ptrs).
Proof.
  intros ix cands; induction cands as [| c rest IH]; intros query result ptrs qv fin;
    [now left |].
  unfold fin; cbn [point_query_walk fst snd].
  assert (Hskip : point_query_walk ix rest (query, result) = (query, result)
                  \/ exists c0 pt,
                      In c0 (c :: rest)
                      /\ candidate_point ptrs query c0 = Some pt
                      /\ Float32.ltb (distance qv pt) (radius query) = true
                      /\ point_query_walk ix rest (query, result)
                         = (set_radius query (distance qv pt),
                            mkClosestPointResult pt (snd c0) (fst c0) ptrs)).
  { destruct (IH query result) as [H | (c0 & pt & Hin & Hpt & Hlt & H)];
      [now left | right].
    exists c0, pt; repeat split; [now right | exact Hpt | exact Hlt | exact H]. }
  destruct (rtcPointQueryVisits ix query c); [| exact Hskip].
  rewrite ClosestPointFunc_cases; fold ptrs.
  destruct (candidate_point ptrs query c) as [pt |] eqn:Hpt; [| exact Hskip].
  cbv zeta; fold qv.
  destruct (Float32.ltb (distance qv pt) (radius query)) eqn:Hlt; [| exact Hskip].
  cbn [snd]; right.
  set (d := distance qv pt) in *.
  destruct (IH (set_radius query d) (mkClosestPointResult pt (snd c) (fst c) ptrs))
    as [H | (c0 & pt0 & Hin & Hpt0 & Hlt0 & H)].
  - exists c, pt; repeat split; [now left | exact Hpt | exact Hlt | exact H].
  - exists c0, pt0; repeat split; [now right | exact Hpt0 | | exact H].
    exact (ltb_trans _ _ _ Hlt0 Hlt).
Qed.

Lemma point_query_walk_minimal :
  forall (ix : list RTCGeometry) (ptrs : list geometry_ptr),
    sound_culling ix ptrs ->
    forall (cands : list (N * N)) (query : RTCPointQuery) (result : ClosestPointResult),
      geometry_ptrs_ptr result = ptrs ->
      let fin := point_query_walk ix cands (query, result) in
      (forall c d, In c cands ->
                   candidate_distance ptrs query c = Some d ->
                   Float32.ltb d (radius (fst fin)) = false)
      /\ (forall d, Float32.ltb d (radius query) = false ->
                    Float32.ltb d (radius (fst fin)) = false).
Proof.
  intros ix ptrs Hcull cands; induction cands as [| c rest IH];
    intros query result Hptrs fin.
  - split; [intros c d [] | intros d Hd; exact Hd].
  - unfold fin; cbn [point_query_walk fst snd].
    assert (Hkeep : (forall d, candidate_distance ptrs query c = Some d ->
                               Float32.ltb d (radius query) = false) ->
                    let fin0 := point_query_walk ix rest (query, result) in
                    (forall c0 d, In c0 (c :: rest) ->
                                  candidate_distance ptrs query c0 = Some d ->
                                  Float32.ltb d (radius (fst fin0)) = false)
                    /\ (forall d, Float32.ltb d (radius query) = false ->
                                  Float32.ltb d (radius (fst fin0)) = false)).
    { intros Hc fin0; destruct (IH query result Hptrs) as [Hrest Hmono].
      split; [| exact Hmono].
      intros c0 d [<- | Hin] Hd; [apply Hmono; now apply Hc | now apply (Hrest c0)]. }
    destruct (rtcPointQueryVisits ix query c) eqn:Hvis;
      [| apply Hkeep; intros d Hd; exact (Hcull query c d Hvis Hd)].
    rewrite ClosestPointFunc_cases, Hptrs.
    destruct (candidate_point ptrs query c) as [pt |] eqn:Hpt;
      [| apply Hkeep; unfold candidate_distance; rewrite Hpt; discriminate].
    cbv zeta.
    set (d0 := distance (mkVec3f (qx query) (qy query) (qz query)) pt).
    destruct (Float32.ltb d0 (radius query)) eqn:Hlt;
      [| apply Hkeep; unfold candidate_distance; rewrite Hpt; cbn [option_map];
         fold d0; intros d Hd; injection Hd as <-; exact Hlt].
    cbn [snd].
    destruct (IH (set_radius query d0) (mkClosestPointResult pt (snd c) (fst c) ptrs)
                 eq_refl) as [Hrest Hmono].
    cbn [radius set_radius] in Hmono.
    assert (Hbelow : forall d, Float32.ltb d (radius query) = false ->
                               Float32.ltb d d0 = false).
    { intros d Hd; destruct (Float32.ltb d d0) eqn:E; [| reflexivity].
      now rewrite (ltb_trans _ _ _ E Hlt) in Hd. }
    split.
    + intros c0 d [<- | Hin] Hd.
      * unfold candidate_distance in Hd; rewrite Hpt in Hd; cbn [option_map] in Hd.
        fold d0 in Hd; injection Hd as <-.
        apply Hmono, ltb_irrefl.
      * apply (Hrest c0 d Hin); exact Hd.
    + intros d Hd; apply Hmono, Hbelow, Hd.
Qed.

(** The closest point [Impl::ComputeClosestPoints] reports for a point is
    that of one of the primitives the provider's traversal lists for it,
    with that primitive's ids; or nothing was recorded and both ids are
    invalid. *)
Theorem ComputeClosestPoints_reports_a_candidate :
  forall (pts : ptr float) (n : N) (o : ClosestOutputs) (impl : Impl) (i : N),
    (i < n)%N ->
    let ix := bvh (scene (commit_if_needed impl)) in
    let ptrs := geometry_ptrs impl in
    let q := new_query pts i in
    let out := snd (Impl_ComputeClosestPoints pts n o impl) in
    (cl_geometry_ids out i = INVALID_ID /\ cl_primitive_ids out i = INVALID_ID)
    \/ exists c pt,
        In c (rtcPointQueryOrder ix q)
        /\ candidate_point ptrs q c = Some pt
        /\ Float32.ltb (distance (mkVec3f (qx q) (qy q) (qz q)) pt) Float32.infinity = true
        /\ cl_geometry_ids out i = fst c
        /\ cl_primitive_ids out i = snd c
        /\ closest_points out (3 * i + 0)%N = vx pt
        /\ closest_points out (3 * i + 1)%N = vy pt
        /\ closest_points out (3 * i + 2)%N = vz pt.
Proof.
  intros pts n o impl i Hi ix ptrs q out.
  destruct (Impl_ComputeClosestPoints_at pts o impl Hi) as (Hg & Hp & Hx & Hy & Hz).
  fold out ix in Hg, Hp, Hx, Hy, Hz.
  rewrite commit_if_needed_ptrs in Hg, Hp, Hx, Hy, Hz; fold ptrs in Hg, Hp, Hx, Hy, Hz.
  unfold closest_result in Hg, Hp, Hx, Hy, Hz; fold q in Hg, Hp, Hx, Hy, Hz.
  pose proof (point_query_walk_sound ix (rtcPointQueryOrder ix q) q
                                     (new_ClosestPointResult ptrs)) as Hsound.
  cbv zeta in Hsound; cbn [geometry_ptrs_ptr new_ClosestPointResult] in Hsound.
  destruct Hsound as [H | (c & pt & Hin & Hpt & Hlt & H)].
  - left; rewrite H in Hg, Hp; now rewrite Hg, Hp.
  - right; exists c, pt; rewrite H in Hg, Hp, Hx, Hy, Hz.
    repeat split; assumption.
Qed.

(** When the provider culls soundly, no primitive of the traversal is
    strictly closer to the query point than the one
    [Impl::ComputeClosestPoints] reports; and when it reports none, no
    primitive is at a distance below +infinity. *)
Theorem ComputeClosestPoints_minimal :
  forall (pts : ptr float) (n : N) (o : ClosestOutputs) (impl : Impl) (i : N),
    (i < n)%N ->
    let ix := bvh (scene (commit_if_needed impl)) in
    let ptrs := geometry_ptrs impl in
    let q := new_query pts i in
    let qv := mkVec3f (qx q) (qy q) (qz q) in
    let out := snd (Impl_ComputeClosestPoints pts n o impl) in
    sound_culling ix ptrs ->
    (cl_geometry_ids out i = INVALID_ID
     /\ cl_primitive_ids out i = INVALID_ID
     /\ forall c d, In c (rtcPointQueryOrder ix q) ->
                    candidate_distance ptrs q c = Some d ->
                    Float32.ltb d Float32.infinity = false)
    \/ exists c pt,
        In c (rtcPointQueryOrder ix q)
        /\ candidate_point ptrs q c = Some pt
        /\ cl_geometry_ids out i = fst c
        /\ cl_primitive_ids out i = snd c
        /\ (closest_points out (3 * i + 0)%N, closest_points out (3 * i + 1)%N,
            closest_points out (3 * i + 2)%N) = (vx pt, vy pt, vz pt)
        /\ forall c' d', In c' (rtcPointQueryOrder ix q) ->
                         candidate_distance ptrs q c' = Some d' ->
                         Float32.ltb d' (distance qv pt) = false.
Proof.
  intros pts n o impl i Hi ix ptrs q qv out Hcull.
  destruct (Impl_ComputeClosestPoints_at pts o impl Hi) as (Hg & Hp & Hx & Hy & Hz).
  fold out ix in Hg, Hp, Hx, Hy, Hz.
  rewrite commit_if_needed_ptrs in Hg, Hp, Hx, Hy, Hz; fold ptrs in Hg, Hp, Hx, Hy, Hz.
  unfold closest_result in Hg, Hp, Hx, Hy, Hz; fold q in Hg, Hp, Hx, Hy, Hz.
  pose proof (point_query_walk_sound ix (rtcPointQueryOrder ix q) q
                                     (new_ClosestPointResult ptrs)) as Hsound.
  destruct (@point_query_walk_minimal ix ptrs Hcull (rtcPointQueryOrder ix q) q
                                      (new_ClosestPointResult ptrs) eq_refl)
    as [Hmin _].
  cbv zeta in Hsound; cbn [geometry_ptrs_ptr new_ClosestPointResult] in Hsound.
  destruct Hsound as [H | (c & pt & Hin & Hpt & Hlt & H)].
  - left; rewrite H in Hg, Hp, Hmin; rewrite Hg, Hp.
    repeat split; try reflexivity.
    intros c d Hin Hd; exact (Hmin c d Hin Hd).
  - right; exists c, pt; rewrite H in Hg, Hp, Hx, Hy, Hz, Hmin.
    cbn [snd cp_geomID cp_primID cp_p] in Hg, Hp, Hx, Hy, Hz.
    repeat split; try assumption.
    now rewrite Hx, Hy, Hz.
Qed.

(** **** The filter on a packet of rays *)

Lemma lane_valid : forall (rays : ptr RTCRay) (hits : ptr RTCHit) (ui : N)
                          (vld : ptr Z) (ctx : Filter.CountIntersectionsContext),
    fst (Filter.lane rays hits ui (vld, ctx))
    = if Z.eqb (vld ui) (-1) then store vld ui 0%Z else vld.
Proof.
  intros rays hits ui vld ctx; unfold Filter.lane.
  destruct (Z.eqb (vld ui) (-1)); reflexivity.
Qed.

Lemma lane_counts : forall (rays : ptr RTCRay) (hits : ptr RTCHit) (ui : N)
                           (vld : ptr Z) (ctx : Filter.CountIntersectionsContext) (k : N),
    let ctx' := snd (Filter.lane rays hits ui (vld, ctx)) in
    (Filter.intersections ctx k <= Filter.intersections ctx' k
     <= Filter.intersections ctx k + 1)%Z
    /\ ((vld ui <> (-1)%Z \/ id (rays ui) <> k) ->
        Filter.intersections ctx' k = Filter.intersections ctx k
        /\ Filter.previous_geom_prim_ID_tfar ctx' k
           = Filter.previous_geom_prim_ID_tfar ctx k).
Proof.
  intros rays hits ui vld ctx k; unfold Filter.lane.
  destruct (Z.eqb_spec (vld ui) (-1)) as [Hact | Hina]; cbn [negb snd];
    [| split; [lia | auto]].
  destruct (Filter.new_crossing _ _ _);
    cbn [Filter.intersections Filter.previous_geom_prim_ID_tfar];
    [| split; [lia | auto]].
  destruct (N.eq_dec k (id (rays ui))) as [-> | Hne].
  - rewrite store_eq; split; [lia |].
    intros [H | H]; [contradiction | congruence].
  - rewrite !store_neq by exact Hne; split; [lia | auto].
Qed.

(** After the filter has run on a packet with a context, no ray of the
    packet is still marked valid: the rays that were active are marked 0,
    all other entries of the mask are as they were.  Every count has grown
    by at most the number of rays in the packet, none has shrunk, and the
    entries of ray ids that no active ray of the packet carries are
    untouched. *)
Theorem CountIntersectionsFunc_rejects_every_hit :
  forall (vld : ptr Z) (ctx : Filter.CountIntersectionsContext)
         (rays : ptr RTCRay) (hits : ptr RTCHit) (n : N),
  exists vld' ctx',
    Filter.CountIntersectionsFunc (Filter.mkArgs vld (Some ctx) rays hits n)
    = (vld', Some ctx')
    /\ (forall ui, (ui < n)%N -> vld' ui <> (-1)%Z)
    /\ (forall ui, vld' ui = if ((ui <? n)%N && Z.eqb (vld ui) (-1))%bool
                             then 0%Z else vld ui)
    /\ (forall k, (Filter.intersections ctx k <= Filter.intersections ctx' k
                   <= Filter.intersections ctx k + Z.of_N n)%Z)
    /\ (forall k, (forall ui, (ui < n)%N -> vld ui = (-1)%Z -> id (rays ui) <> k) ->
                  Filter.intersections ctx' k = Filter.intersections ctx k
                  /\ Filter.previous_geom_prim_ID_tfar ctx' k
                     = Filter.previous_geom_prim_ID_tfar ctx k).
Proof.
  intros vld ctx rays hits n.
  pose (P := fun (m : N) (st : ptr Z * Filter.CountIntersectionsContext) =>
    (forall ui, fst st ui = if ((ui <? m)%N && Z.eqb (vld ui) (-1))%bool
                            then 0%Z else vld ui)
    /\ (forall k, (Filter.intersections ctx k <= Filter.intersections (snd st) k
                   <= Filter.intersections ctx k + Z.of_N m)%Z)
    /\ (forall k, (forall ui, (ui < m)%N -> vld ui = (-1)%Z -> id (rays ui) <> k) ->
                  Filter.intersections (snd st) k = Filter.intersections ctx k
                  /\ Filter.previous_geom_prim_ID_tfar (snd st) k
                     = Filter.previous_geom_prim_ID_tfar ctx k)).
  assert (HP : P n (for_range 0 n (Filter.lane rays hits) (vld, ctx))).
  { apply for_range_inv; [lia | |].
    - split; [| split]; cbn [fst snd].
      + intros ui; destruct (ui <? 0)%N eqn:E; [apply N.ltb_lt in E; lia | reflexivity].
      + intros k; lia.
      + intros k _; auto.
    - intros m [v c] Hm (Hv & Hc & Hf); cbn [fst snd] in Hv, Hc, Hf.
      assert (Hvm : v m = vld m).
      { rewrite Hv; destruct (m <? m)%N eqn:E; [apply N.ltb_lt in E; lia | reflexivity]. }
      split; [| split].
      + intros ui; rewrite lane_valid, Hvm.
        destruct (N.eq_dec ui m) as [-> | Hne].
        * destruct (Z.eqb (vld m) (-1)) eqn:E.
          -- rewrite store_eq.
             destruct (m <? N.succ m)%N eqn:E'; [reflexivity | apply N.ltb_ge in E'; lia].
          -- rewrite Hvm, andb_false_r; reflexivity.
        * assert (Hsame : (ui <? N.succ m)%N = (ui <? m)%N).
          { destruct (ui <? m)%N eqn:E1, (ui <? N.succ m)%N eqn:E2; try reflexivity;
              [apply N.ltb_lt in E1; apply N.ltb_ge in E2
              | apply N.ltb_ge in E1; apply N.ltb_lt in E2]; lia. }
          rewrite Hsame.
          destruct (Z.eqb (vld m) (-1)); [rewrite store_neq by exact Hne |]; apply Hv.
      + intros k; destruct (lane_counts rays hits m v c k) as [Hstep _].
        specialize (Hc k); lia.
      + intros k Hk; destruct (lane_counts rays hits m v c k) as [_ Hstep].
        destruct Hstep as [-> ->].
        * destruct (Z.eq_dec (vld m) (-1)) as [Hact | Hina];
            [right; apply Hk; [lia | exact Hact] | left; now rewrite Hvm].
        * apply Hf; intros ui Hui; apply Hk; lia. }
  destruct HP as (Hv & Hc & Hf).
  unfold Filter.CountIntersectionsFunc;
    cbn [Filter.context Filter.N_ Filter.rayN Filter.hitN Filter.valid].
  destruct (for_range 0 n (Filter.lane rays hits) (vld, ctx)) as [vld' ctx'].
  cbn [fst snd] in Hv, Hc, Hf.
  exists vld', ctx'; split; [reflexivity |].
  split; [| split; [exact Hv | split; [exact Hc | exact Hf]]].
  intros ui Hui; rewrite Hv; apply N.ltb_lt in Hui; rewrite Hui; cbn [andb].
  destruct (Z.eqb_spec (vld ui) (-1)); [discriminate | assumption].
Qed.

(** **** Bounds on the crossing counts *)

Lemma crossing_step_bounds : forall (cands : list (float * RTCHit)) (st : Filter.gpt * Z),
    (snd st <= snd (fold_left crossing_step cands st)
     <= snd st + Z.of_nat (length cands))%Z.
Proof.
  induction cands as [| c cands IH]; intros st; [cbn; lia |].
  cbn [fold_left length]; specialize (IH (crossing_step st c)).
  assert (Hstep : (snd st <= snd (crossing_step st c) <= snd st + 1)%Z).
  { unfold crossing_step; destruct (negb _ || _); cbn [snd]; lia. }
  lia.
Qed.

Lemma crossing_step_first : forall (c : float * RTCHit),
    geomID (snd c) <> RTC_INVALID_GEOMETRY_ID ->
    snd (crossing_step ((RTC_INVALID_GEOMETRY_ID, RTC_INVALID_GEOMETRY_ID, Float32.zero),
                        0%Z) c) = 1%Z.
Proof.
  intros c Hc; unfold crossing_step; cbn [fst snd Filter.gpt_geom].
  assert (E : N.eqb RTC_INVALID_GEOMETRY_ID (geomID (snd c)) = false)
    by (apply N.eqb_neq; congruence).
  rewrite E; reflexivity.
Qed.

(** For every ray of a batch of at most 2^32 rays, the number
    [Impl::CountIntersections] writes lies between 0 and the number of
    candidate hits the provider found along the ray; it is 0 for a ray
    without candidates, and at least 1 when the first candidate lies on a
    geometry. *)
Theorem CountIntersections_bounds :
  forall (rays : ptr float) (num_rays : N) (ints : ptr Z) (impl : Impl) (i : N),
    (num_rays <= 4294967296)%N ->
    (i < num_rays)%N ->
    let cands := rtcFilterCandidates (bvh (scene (commit_if_needed impl)))
                                     (ray_at false rays i i) in
    let count := snd (Impl_CountIntersections rays num_rays ints impl) i in
    (0 <= count <= Z.of_nat (length cands))%Z
    /\ (cands = [] -> count = 0%Z)
    /\ (forall c rest, cands = c :: rest ->
                       geomID (snd c) <> RTC_INVALID_GEOMETRY_ID ->
                       (1 <= count)%Z).
Proof using DivUp_spec.
  intros rays num_rays ints impl i Hmax Hi cands count.
  assert (Hcount : count = count_crossings cands).
  { unfold count, Impl_CountIntersections.
    now rewrite Impl_CountIntersections_with_at by (try reflexivity; assumption). }
  rewrite Hcount; unfold count_crossings.
  split; [| split].
  - pose proof (crossing_step_bounds cands
        ((RTC_INVALID_GEOMETRY_ID, RTC_INVALID_GEOMETRY_ID, Float32.zero), 0%Z)) as H.
    cbn [snd] in H; lia.
  - intros ->; reflexivity.
  - intros c rest -> Hc; cbn [fold_left].
    pose proof (crossing_step_bounds rest
        (crossing_step
           ((RTC_INVALID_GEOMETRY_ID, RTC_INVALID_GEOMETRY_ID, Float32.zero), 0%Z) c))
      as H.
    rewrite (crossing_step_first c Hc) in H; lia.
Qed.

Lemma present_candidate_again :
  forall (st : Filter.CountIntersectionsContext * RTCRayHit) (c : float * RTCHit),
    present_candidate (present_candidate st c) c = present_candidate st c.
Proof.
  intros [ctx rh] c; rewrite (present_candidate_eq ctx rh c).
  destruct (Filter.new_crossing _ (snd c) (set_tfar (ray rh) (fst c))) eqn:E.
  - rewrite present_candidate_eq.
    cbn [Filter.previous_geom_prim_ID_tfar]; rewrite store_eq.
    unfold Filter.new_crossing; cbn [Filter.gpt_geom Filter.gpt_prim fst snd].
    now rewrite !N.eqb_refl.
  - now rewrite present_candidate_eq, E.
Qed.

(** The provider handing the filter the same candidate twice in a row has
    the effect of handing it once; and after a candidate was counted, a
    candidate on the same geometry at an equal distance is not counted,
    whatever its primitive. *)
Theorem filter_counts_rehits_once :
  (forall (l1 l2 : list (float * RTCHit)) (c : float * RTCHit)
          (st : Filter.CountIntersectionsContext * RTCRayHit),
      fold_left present_candidate (l1 ++ c :: c :: l2) st
      = fold_left present_candidate (l1 ++ c :: l2) st)
  /\ (forall (ctx : Filter.CountIntersectionsContext) (rh : RTCRayHit)
             (c1 c2 : float * RTCHit),
         geomID (snd c2) = geomID (snd c1) ->
         Float32.eqb (fst c1) (fst c2) = true ->
         let st1 := present_candidate (ctx, rh) c1 in
         Filter.intersections (fst st1) (id (ray rh))
         = (Filter.intersections ctx (id (ray rh)) + 1)%Z ->
         present_candidate st1 c2 = st1).
Proof.
  split.
  - intros l1 l2 c st; rewrite !fold_left_app; cbn [fold_left].
    now rewrite present_candidate_again.
  - intros ctx rh c1 c2 Hgeom Ht st1 Hcounted; unfold st1 in *.
    rewrite (present_candidate_eq ctx rh c1) in *.
    destruct (Filter.new_crossing _ (snd c1) (set_tfar (ray rh) (fst c1)));
      cbn [fst Filter.intersections] in Hcounted; [| lia].
    rewrite present_candidate_eq.
    cbn [Filter.previous_geom_prim_ID_tfar]; rewrite store_eq.
    unfold Filter.new_crossing, Float32.neb, Float32.eqb in *.
    cbn [Filter.gpt_geom Filter.gpt_prim Filter.gpt_tfar fst snd tfar set_tfar].
    now rewrite Hgeom, N.eqb_refl, Ht, andb_false_r.
Qed.

(** **** What every reachable scene satisfies *)

Lemma queried_only_refl : forall sc : RTCScene, queried_only sc sc.
Proof.
  intros sc; split; [reflexivity | split; [reflexivity |]].
  exists []; split; [now rewrite app_nil_r | reflexivity].
Qed.

Lemma queried_only_trans : forall a b c : RTCScene,
    queried_only a b -> queried_only b c -> queried_only a c.
Proof.
  intros a b c (Ha & Hb & e1 & He1 & Hq1) (Ha' & Hb' & e2 & He2 & Hq2).
  split; [now rewrite Ha' | split; [now rewrite Hb' |]].
  exists (e1 ++ e2); split.
  - now rewrite He2, He1, app_assoc.
  - now rewrite forallb_app, Hq1, Hq2.
Qed.

Lemma queried_only_emit : forall (sc : RTCScene) (c : RTCCall),
    is_query_call c = true -> queried_only sc (emit c sc).
Proof.
  intros sc c Hc; split; [reflexivity | split; [reflexivity |]].
  exists [c]; split; [reflexivity | cbn; now rewrite Hc].
Qed.

Lemma for_loop_queried_only :
  forall (S : Type) (proj : S -> RTCScene) (body : N -> S -> S),
    (forall k s, queried_only (proj s) (proj (body k s))) ->
    forall (count : nat) (i : N) (s : S),
      queried_only (proj s) (proj (for_loop count i body s)).
Proof.
  intros S proj body Hbody count; induction count as [| count IH]; intros i s.
  - apply queried_only_refl.
  - cbn [for_loop]; eapply queried_only_trans; [apply Hbody | apply IH].
Qed.

Lemma Impl_CastRays_only :
  forall (b : N) (L : bool) (rays : ptr float) (num_rays : N) (o : CastOutputs) (impl : Impl),
    query_step_only impl (fst (Impl_CastRays_with b L rays num_rays o impl)).
Proof.
  intros; unfold Impl_CastRays_with, for_range; cbn [fst scene scene_committed geometry_ptrs].
  split; [apply commit_if_needed_committed |].
  split; [apply commit_if_needed_ptrs |].
  apply for_loop_queried_only with (proj := cs_scene); intros.
  apply queried_only_emit; reflexivity.
Qed.

Lemma Impl_CountIntersections_only :
  forall (b : N) (rays : ptr float) (num_rays : N) (ints : ptr Z) (impl : Impl),
    query_step_only impl (fst (Impl_CountIntersections_with b rays num_rays ints impl)).
Proof.
  intros; unfold Impl_CountIntersections_with, for_range;
    cbn [fst scene scene_committed geometry_ptrs].
  split; [apply commit_if_needed_committed |].
  split; [apply commit_if_needed_ptrs |].
  apply for_loop_queried_only with (proj := ct_scene); intros.
  apply queried_only_emit; reflexivity.
Qed.

Lemma Impl_ComputeClosestPoints_only :
  forall (pts : ptr float) (n : N) (o : ClosestOutputs) (impl : Impl),
    query_step_only impl (fst (Impl_ComputeClosestPoints pts n o impl)).
Proof.
  intros; unfold Impl_ComputeClosestPoints, for_range;
    cbn [fst scene scene_committed geometry_ptrs].
  split; [apply commit_if_needed_committed |].
  split; [apply commit_if_needed_ptrs |].
  apply for_loop_queried_only with (proj := cl_scene); intros.
  apply queried_only_emit; reflexivity.
Qed.

Lemma query_step_only_trans : forall a b c : Impl,
    query_step_only a b -> query_step_only b c -> query_step_only a c.
Proof.
  intros a b c (Hb & Hp & Hq) (Hc & Hp' & Hq').
  rewrite (commit_if_needed_idem b Hb) in Hq'.
  split; [exact Hc | split; [now rewrite Hp' |]].
  eapply queried_only_trans; eauto.
Qed.

Lemma run_query_only : forall (q : Query) (impl impl' : Impl),
    run_query q impl = Ok impl' -> query_step_only impl impl'.
Proof.
  assert (Hcast : forall rays impl r, CastRays rays impl = Ok r ->
                                      query_step_only impl (snd r)).
  { intros rays impl r H; unfold CastRays in H; bind_inv H.
    apply Ok_inj in H; subst r; apply Impl_CastRays_only. }
  assert (Hcount : forall rays impl r, CountIntersections rays impl = Ok r ->
                                       query_step_only impl (snd r)).
  { intros rays impl r H; unfold CountIntersections in H; bind_inv H.
    apply Ok_inj in H; subst r; apply Impl_CountIntersections_only. }
  assert (Hclosest : forall pts impl r, ComputeClosestPoints pts impl = Ok r ->
                                        query_step_only impl (snd r)).
  { intros pts impl r H; unfold ComputeClosestPoints in H; bind_inv H.
    apply Ok_inj in H; subst r; apply Impl_ComputeClosestPoints_only. }
  assert (Hdist : forall pts impl r, ComputeDistance pts impl = Ok r ->
                                     query_step_only impl (snd r)).
  { intros pts impl r H; unfold ComputeDistance in H; bind_inv H; bind_inv H.
    apply Ok_inj in H; subst r; unfold snd at 1; eapply Hclosest; eauto. }
  intros q impl impl' H; destruct q; cbn [run_query] in H; bind_inv H;
    apply Ok_inj in H; subst impl'.
  - eapply Hcast; eauto.
  - eapply Hcount; eauto.
  - eapply Hclosest; eauto.
  - eapply Hdist; eauto.
  - unfold ComputeSignedDistance in Hx; bind_inv Hx.
    apply Ok_inj in Hx; subst x; unfold snd at 1.
    unfold ComputeSignedDistance_signs in Hx0; do 3 bind_inv Hx0.
    apply Ok_inj in Hx0; subst x0; unfold snd at 1.
    eapply query_step_only_trans; [eapply Hdist | eapply Hcount]; eauto.
  - unfold ComputeOccupancy in Hx; do 2 bind_inv Hx.
    apply Ok_inj in Hx; subst x; unfold snd at 1; eapply Hcount; eauto.
Qed.

Lemma count_query_calls :
  forall (p : RTCCall -> bool) (evs : list RTCCall),
    (forall c, is_query_call c = true -> p c = false) ->
    forallb is_query_call evs = true ->
    filter p evs = [].
Proof.
  intros p evs Hp; induction evs as [| c evs IH]; intros H; [reflexivity |].
  cbn [forallb] in H; apply andb_true_iff in H; destruct H as [Hc Hevs].
  cbn [filter]; rewrite (Hp c Hc); now apply IH.
Qed.

Lemma run_registration_result :
  forall (r : Registration) (impl impl' : Impl),
    run_registration r impl = Ok impl' ->
    exists g,
      impl' = mkImpl (mkRTCScene (attached (scene impl) ++ [g]) (bvh (scene impl))
                                 (calls (scene impl) ++ [CallAttachGeometry]))
                     false
                     (geometry_ptrs impl ++ [registry_entry g]).
Proof.
  intros r impl impl' H.
  destruct r as [v t | mesh]; cbn [run_registration] in H; bind_inv H;
    apply Ok_inj in H; subst impl'.
  - eexists; exact (proj2 (AddTriangles_result _ _ _ Hx)).
  - rewrite AddTriangles_mesh_eq in Hx.
    destruct (4294967295 <? GetLength (GetVertices mesh))%N; [discriminate |].
    eexists; exact (proj2 (AddTriangles_result _ _ _ Hx)).
Qed.

Lemma reachable_inv : forall impl : Impl, reachable impl -> scene_inv impl.
Proof.
  intros impl Hreach; induction Hreach as [| op impl impl' Hreach IH Hrun].
  - split; [reflexivity |]. split; [intros H; discriminate |].
    split; [reflexivity |]. split; [cbn; lia |]. now exists [].
  - destruct IH as (Hreg & Hcom & Hlen & Hre & rest & Hpre).
    destruct op as [r | q]; cbn [run_operation] in Hrun.
    + destruct (run_registration_result _ _ Hrun) as (g & ->).
      unfold scene_inv, registry_inv, committed_inv, registrations, rebuilds in *.
      cbn [scene geometry_ptrs scene_committed attached bvh calls].
      rewrite !filter_app, !length_app, map_app, Hreg; cbn [filter length map].
      split; [reflexivity |]. split; [intros H; discriminate |].
      split; [lia |]. split; [destruct (scene_committed impl); lia |].
      exists (rest ++ [g]); now rewrite Hpre, <- app_assoc.
    + destruct (run_query_only _ _ Hrun)
        as (Hflag & Hptrs & Hatt & Hbvh & evs & Hcalls & Hq).
      rewrite commit_if_needed_attached in Hatt.
      rewrite commit_if_needed_calls in Hcalls.
      rewrite (commit_if_needed_bvh Hcom) in Hbvh.
      unfold scene_inv, registry_inv, committed_inv, registrations, rebuilds in *.
      rewrite Hflag, Hptrs, Hatt, Hbvh, Hcalls, !filter_app, !length_app.
      rewrite !(fun p Hp => @count_query_calls p evs Hp Hq)
        by (intros [] Hc; try discriminate; reflexivity).
      split; [exact Hreg |]. split; [reflexivity |].
      destruct (scene_committed impl); cbn [filter length];
        (split; [lia |]; split; [lia |]; exists []; now rewrite app_nil_r).
Qed.

(** Every scene a program can hold is consistent: the registry lists the
    buffers of the attached geometries in order of handle; a set flag means
    the acceleration structure is built from all of them, and it is always
    built from an initial part of them; there are as many attached
    geometries as registrations; and the provider was asked to rebuild at
    most once per registration, once more if the scene is committed. *)
Theorem reachable_scene_consistent :
  forall impl : Impl,
    reachable impl ->
    geometry_ptrs impl = map registry_entry (attached (scene impl))
    /\ (scene_committed impl = true -> bvh (scene impl) = attached (scene impl))
    /\ (exists rest, attached (scene impl) = bvh (scene impl) ++ rest)
    /\ length (attached (scene impl)) = registrations (scene impl)
    /\ (rebuilds (scene impl)
        <= registrations (scene impl) + (if scene_committed impl then 1 else 0))%nat.
Proof.
  intros impl Hreach.
  destruct (reachable_inv Hreach) as (Hreg & Hcom & Hlen & Hre & Hpre).
  split; [exact Hreg |]. split; [exact Hcom |]. split; [exact Hpre |].
  split; [exact Hlen |]. destruct (scene_committed impl); lia.
Qed.

(** The handle [AddTriangles] returns on a reachable scene with fewer than
    2^32 - 1 geometries is the number of geometries registered before; it
    is not the invalid id; the registry holds at that handle a triangle
    entry whose buffers are copies of the two tensors; the older entries are
    as they were; and the scene is marked for a rebuild. *)
Theorem AddTriangles_handle_round_trip :
  forall (vertices : Tensor float) (triangles : Tensor N) (impl impl' : Impl)
         (geom_id : N),
    reachable impl ->
    (N.of_nat (length (geometry_ptrs impl)) < 4294967295)%N ->
    AddTriangles vertices triangles impl = Ok (geom_id, impl') ->
    geom_id = N.of_nat (length (geometry_ptrs impl))
    /\ geom_id <> INVALID_ID
    /\ (exists vb ib,
           nth_error (geometry_ptrs impl') (N.to_nat geom_id)
           = Some (RTC_GEOMETRY_TYPE_TRIANGLE, vb, ib)
           /\ (forall j, (j < 3 * GetLength vertices)%N -> vb j = data vertices j)
           /\ (forall j, (j < 3 * GetLength triangles)%N -> ib j = data triangles j))
    /\ (forall k, (k < length (geometry_ptrs impl))%nat ->
                  nth_error (geometry_ptrs impl') k = nth_error (geometry_ptrs impl) k)
    /\ length (geometry_ptrs impl') = Datatypes.S (length (geometry_ptrs impl))
    /\ scene_committed impl' = false.
Proof.
  intros vertices triangles impl impl' geom_id Hreach Hsmall H.
  destruct (reachable_inv Hreach) as (Hreg & _).
  destruct (AddTriangles_result _ _ _ H) as [Hid Himpl]; cbn [fst snd] in Hid, Himpl.
  assert (Hlen : length (attached (scene impl)) = length (geometry_ptrs impl)).
  { unfold registry_inv in Hreg; now rewrite Hreg, length_map. }
  rewrite Hlen in Hid; rewrite to_uint32_small in Hid by lia.
  subst geom_id impl'; cbn [geometry_ptrs scene_committed].
  split; [reflexivity |].
  split; [unfold INVALID_ID, RTC_INVALID_GEOMETRY_ID; lia |].
  split; [| split; [| split]].
  - do 2 eexists; split; [| split].
    + rewrite Nat2N.id, nth_error_app2 by lia.
      rewrite Nat.sub_diag; reflexivity.
    + intros j Hj; cbn [vertex_buffer]; unfold memcpy.
      apply N.ltb_lt in Hj; now rewrite Hj.
    + intros j Hj; cbn [index_buffer]; unfold memcpy.
      apply N.ltb_lt in Hj; now rewrite Hj.
  - intros k Hk; now rewrite nth_error_app1.
  - rewrite length_app; cbn [length]; lia.
  - reflexivity.
Qed.

(** On a reachable scene the callback of the point query never indexes the
    registry out of range and never meets an entry that is not a triangle
    mesh: for every geometry id the provider can report (an id of an
    attached geometry) it evaluates the candidate, on the vertex and index
    buffers of exactly that geometry, read at the indices the code computes
    in 32-bit unsigned arithmetic. *)
Theorem ClosestPointFunc_registry_in_bounds :
  forall (impl : Impl) (query : RTCPointQuery) (c : N * N),
    reachable impl ->
    (N.to_nat (fst c) < length (attached (scene impl)))%nat ->
    exists g,
      nth_error (attached (scene impl)) (N.to_nat (fst c)) = Some g
      /\ nth_error (geometry_ptrs impl) (N.to_nat (fst c))
         = Some (RTC_GEOMETRY_TYPE_TRIANGLE, vertex_buffer g, index_buffer g)
      /\ let tri := fun k : N => index_buffer g (to_uint32 (3 * snd c + k)) in
         let vtx := fun k : N =>
           mkVec3f (vertex_buffer g (to_uint32 (3 * tri k + 0)))
                   (vertex_buffer g (to_uint32 (3 * tri k + 1)))
                   (vertex_buffer g (to_uint32 (3 * tri k + 2))) in
         candidate_point (geometry_ptrs impl) query c
         = Some (closestPointTriangle
                   (mkVec3f (qx query) (qy query) (qz query))
                   (vtx 0%N) (vtx 1%N) (vtx 2%N))
         /\ forall result,
              geometry_ptrs_ptr result = geometry_ptrs impl ->
              snd (ClosestPointFunc query result (fst c) (snd c)) = (query, result)
              \/ cp_p (snd (snd (ClosestPointFunc query result (fst c) (snd c))))
                 = closestPointTriangle
                     (mkVec3f (qx query) (qy query) (qz query))
                     (vtx 0%N) (vtx 1%N) (vtx 2%N).
Proof.
  intros impl query c Hreach Hc.
  destruct (reachable_inv Hreach) as (Hreg & _); unfold registry_inv in Hreg.
  destruct (nth_error (attached (scene impl)) (N.to_nat (fst c))) as [g |] eqn:Hg;
    [| apply nth_error_None in Hg; lia].
  assert (Hp : nth_error (geometry_ptrs impl) (N.to_nat (fst c))
               = Some (RTC_GEOMETRY_TYPE_TRIANGLE, vertex_buffer g, index_buffer g)).
  { rewrite Hreg, nth_error_map, Hg; reflexivity. }
  exists g; split; [reflexivity |]. split; [exact Hp |].
  cbv zeta; split.
  - unfold candidate_point; rewrite Hp; reflexivity.
  - intros result Hptrs; unfold ClosestPointFunc; rewrite Hptrs, Hp.
    destruct (Float32.ltb _ (radius query)); cbn [fst snd cp_p];
      [right | left]; reflexivity.
Qed.

(** **** The public queries on reachable scenes *)

Lemma reachable_bvh : forall impl : Impl,
    reachable impl -> bvh (scene (commit_if_needed impl)) = attached (scene impl).
Proof.
  intros impl Hreach; destruct (reachable_inv Hreach) as (_ & Hcom & _).
  now apply commit_if_needed_bvh.
Qed.

(** No query of a reachable scene answers from a stale acceleration
    structure: [CastRays], [CountIntersections] and [ComputeClosestPoints]
    report, entry by entry, what the provider finds among all the
    geometries attached so far, in tensors of the shapes of the input
    without its last dimension (with 2 and 3 appended for the uv
    coordinates, the normals and the points). *)
Theorem queries_see_every_geometry :
  forall impl : Impl,
    reachable impl ->
    let ix := attached (scene impl) in
    (forall (rays : Tensor float) res impl',
        CastRays rays impl = Ok (res, impl') ->
        let sh := removelast (shape rays) in
        shape (r_t_hit res) = sh
        /\ shape (r_geometry_ids res) = sh
        /\ shape (r_primitive_ids res) = sh
        /\ shape (r_primitive_uvs res) = sh ++ [2%N]
        /\ shape (r_primitive_normals res) = sh ++ [3%N]
        /\ forall i, (i < NumElements sh)%N ->
             read_out (mkCastOutputs (data (r_t_hit res)) (data (r_geometry_ids res))
                                     (data (r_primitive_ids res))
                                     (data (r_primitive_uvs res))
                                     (data (r_primitive_normals res))) i
             = cast_ray ix false (data rays) i)
    /\ (forall (rays : Tensor float) counts impl',
           CountIntersections rays impl = Ok (counts, impl') ->
           let sh := removelast (shape rays) in
           (NumElements sh <= 4294967296)%N ->
           shape counts = sh
           /\ forall i, (i < NumElements sh)%N ->
                data counts i
                = count_crossings (rtcFilterCandidates ix (ray_at false (data rays) i i)))
    /\ (forall (pts : Tensor float) res impl',
           ComputeClosestPoints pts impl = Ok (res, impl') ->
           let sh := removelast (shape pts) in
           shape (r_points res) = sh ++ [3%N]
           /\ shape (r_cl_geometry_ids res) = sh
           /\ shape (r_cl_primitive_ids res) = sh
           /\ forall i, (i < NumElements sh)%N ->
                let r := closest_result ix (geometry_ptrs impl) (data pts) i in
                data (r_cl_geometry_ids res) i = cp_geomID r
                /\ data (r_cl_primitive_ids res) i = cp_primID r
                /\ data (r_points res) (3 * i + 0)%N = vx (cp_p r)
                /\ data (r_points res) (3 * i + 1)%N = vy (cp_p r)
                /\ data (r_points res) (3 * i + 2)%N = vz (cp_p r)).
Proof using DivUp_spec rtcNearestHit_id.
  intros impl Hreach ix.
  pose proof (reachable_bvh Hreach) as Hbvh; fold ix in Hbvh.
  split; [| split].
  - intros rays res impl' H sh; unfold CastRays in H; bind_inv H.
    apply Ok_inj in H; cbv zeta in H; fold sh in H.
    remember (Impl_CastRays false (data rays) (NumElements sh)
                (mkCastOutputs uninit_float uninit_uint32 uninit_uint32
                               uninit_float uninit_float) impl) as io eqn:Eio in H.
    injection H as <- _.
    cbn [r_t_hit r_geometry_ids r_primitive_ids r_primitive_uvs r_primitive_normals shape].
    do 5 (split; [reflexivity |]).
    intros i Hi; rewrite !data_mkTensor; subst io; unfold Impl_CastRays.
    destruct (@Impl_CastRays_with_at MAX_BATCH_SIZE false (data rays) (NumElements sh)
                (mkCastOutputs uninit_float uninit_uint32 uninit_uint32
                               uninit_float uninit_float) impl)
      as [_ Hr]; [reflexivity | unfold MAX_BATCH_SIZE; lia |].
    rewrite Hbvh in Hr; rewrite <- (Hr i Hi); reflexivity.
  - intros rays counts impl' H sh Hn; unfold CountIntersections in H; bind_inv H.
    apply Ok_inj in H; cbv zeta in H; fold sh in H.
    remember (Impl_CountIntersections (data rays) (NumElements sh) uninit_int impl)
      as io eqn:Eio in H.
    injection H as <- _.
    split; [reflexivity |].
    intros i Hi; rewrite data_mkTensor; subst io; unfold Impl_CountIntersections.
    rewrite Impl_CountIntersections_with_at by (try reflexivity; assumption).
    now rewrite Hbvh.
  - intros pts res impl' H sh; unfold ComputeClosestPoints in H; bind_inv H.
    apply Ok_inj in H; cbv zeta in H; fold sh in H.
    remember (Impl_ComputeClosestPoints (data pts) (NumElements sh)
                (mkClosestOutputs uninit_float uninit_uint32 uninit_uint32) impl)
      as io eqn:Eio in H.
    injection H as <- _.
    cbn [r_points r_cl_geometry_ids r_cl_primitive_ids shape].
    do 3 (split; [reflexivity |]).
    intros i Hi; cbv zeta; rewrite !data_mkTensor; subst io.
    pose proof (Impl_ComputeClosestPoints_at (data pts)
                  (mkClosestOutputs uninit_float uninit_uint32 uninit_uint32) impl Hi) as Hat.
    cbv zeta in Hat; rewrite Hbvh, commit_if_needed_ptrs in Hat; exact Hat.
Qed.

(** **** When the public operations fail *)

Lemma Assert_is_ok : forall (A : Type) (t : Tensor A) (d : N),
    is_ok (AssertTensorDtypeLastDimDeviceMinNDim t d tensor_device)
    = well_formed_input d t.
Proof.
  intros A t d; unfold AssertTensorDtypeLastDimDeviceMinNDim, well_formed_input, check.
  destruct (Device_eqb (device t) tensor_device); [| reflexivity].
  destruct (2 <=? length (shape t))%nat; [| reflexivity].
  now destruct (N.eqb (last (shape t) 0%N) d).
Qed.

Lemma Assert_Ok : forall (A : Type) (t : Tensor A) (d : N),
    well_formed_input d t = true ->
    AssertTensorDtypeLastDimDeviceMinNDim t d tensor_device = Ok tt.
Proof.
  intros A t d H; pose proof (Assert_is_ok t d) as E; rewrite H in E.
  destruct (AssertTensorDtypeLastDimDeviceMinNDim t d tensor_device) as [[] |];
    [reflexivity | discriminate].
Qed.

Lemma Assert_LogError : forall (A : Type) (t : Tensor A) (d : N),
    well_formed_input d t = false ->
    exists msg, AssertTensorDtypeLastDimDeviceMinNDim t d tensor_device = LogError msg.
Proof.
  intros A t d H; pose proof (Assert_is_ok t d) as E; rewrite H in E.
  destruct (AssertTensorDtypeLastDimDeviceMinNDim t d tensor_device) as [| msg];
    [discriminate | now exists msg].
Qed.

Lemma probe_rays_well_formed : forall (pts : ptr float) (n : N),
    well_formed_input 6 (probe_rays pts n) = true.
Proof. reflexivity. Qed.

(** In this embedding, where the provider's traversal reports no error, a
    query on a well-formed tensor returns. *)
Lemma run_query_returns :
  forall (q : Query) (impl : Impl),
    well_formed_input (query_last_dim q) (query_input q) = true ->
    exists impl', run_query q impl = Ok impl'.
Proof.
  intros q impl Hgood.
  destruct q as [t | t | t | t | t | t]; cbn [query_last_dim query_input] in Hgood;
    pose proof (Assert_Ok _ _ Hgood) as Hok;
    pose proof (Assert_Ok _ _ (probe_rays_well_formed (data t)
                   (NumElements (removelast (shape t))))) as Hprobe;
    cbn [run_query];
    unfold CastRays, CountIntersections, ComputeClosestPoints, ComputeDistance,
      ComputeSignedDistance, ComputeSignedDistance_signs, ComputeOccupancy,
      ComputeDistance, ComputeClosestPoints, CountIntersections;
    rewrite ?Hok; cbn [bind]; rewrite ?Hok; cbn [bind]; rewrite ?Hok; cbn [bind];
    rewrite ?Hprobe; cbn [bind]; eexists; reflexivity.
Qed.

(** Every query rejects a malformed input, whatever the scene: a tensor on
    another device, of fewer than two dimensions, or whose last dimension is
    not 6 (rays) or 3 (points) makes each of the six queries fail; so a
    query that returned was given a well-formed tensor. *)
Theorem run_query_rejects_malformed_input :
  forall (q : Query) (impl : Impl),
    (well_formed_input (query_last_dim q) (query_input q) = false ->
     exists msg, run_query q impl = LogError msg)
    /\ (forall impl', run_query q impl = Ok impl' ->
                      well_formed_input (query_last_dim q) (query_input q) = true).
Proof.
  intros q impl.
  assert (Hbad : well_formed_input (query_last_dim q) (query_input q) = false ->
                 exists msg, run_query q impl = LogError msg).
  { intros Hbad.
    destruct q as [t | t | t | t | t | t]; cbn [query_last_dim query_input] in Hbad;
      destruct (Assert_LogError _ _ Hbad) as [msg Hmsg]; exists msg;
      cbn [run_query];
      unfold CastRays, CountIntersections, ComputeClosestPoints, ComputeDistance,
        ComputeSignedDistance, ComputeSignedDistance_signs, ComputeOccupancy;
      rewrite Hmsg; reflexivity. }
  split; [exact Hbad |].
  intros impl' Hrun.
  destruct (well_formed_input (query_last_dim q) (query_input q)); [reflexivity |].
  destruct (Hbad eq_refl) as [msg Hmsg]; rewrite Hmsg in Hrun; discriminate.
Qed.


(** **** Range of the occupancy, and points without candidates *)

(** Every entry of the tensor [ComputeOccupancy] returns is 0.0 or 1.0, and
    it is 0.0 for a point whose probe ray meets no candidate - for every
    point, then, on a scene where the provider finds nothing. *)
Theorem ComputeOccupancy_zero_or_one :
  forall (pts : Tensor float) (impl impl' : Impl) (occ : Tensor float),
    let n := NumElements (removelast (shape pts)) in
    let ix := bvh (scene (commit_if_needed impl)) in
    (n <= 4294967296)%N ->
    ComputeOccupancy pts impl = Ok (occ, impl') ->
    shape occ = removelast (shape pts)
    /\ forall i, (i < n)%N ->
         (data occ i = Float32.zero \/ data occ i = Float32.one)
         /\ (rtcFilterCandidates ix (probe_ray (data pts) i) = [] ->
             data occ i = Float32.zero).
Proof using DivUp_spec.
  intros pts impl impl' occ n ix Hn Hocc.
  unfold ComputeOccupancy in Hocc; do 2 bind_inv Hocc.
  apply Ok_inj in Hocc; injection Hocc as <- _.
  split; [reflexivity |].
  intros i Hi; rewrite data_mkTensor; fold n.
  apply N.ltb_lt in Hi as Hi'; rewrite Hi'.
  rewrite (@CountIntersections_probe _ _ _ _ Hn Hx0 i Hi); fold ix.
  pose proof (count_crossings_nonneg
                (rtcFilterCandidates ix (probe_ray (data pts) i))) as Hc.
  unfold parity_of_count; split.
  - rewrite Z.rem_mod_nonneg, Zmod_odd by lia.
    destruct (Z.odd _); [right | left]; reflexivity.
  - intros ->; reflexivity.
Qed.


(** **** What the loops write *)

Lemma Impl_ComputeClosestPoints_frame :
  forall (pts : ptr float) (n : N) (o : ClosestOutputs) (impl : Impl),
    let out := snd (Impl_ComputeClosestPoints pts n o impl) in
    (forall j, (n <= j)%N ->
               cl_geometry_ids out j = cl_geometry_ids o j
               /\ cl_primitive_ids out j = cl_primitive_ids o j)
    /\ (forall j, (3 * n <= j)%N -> closest_points out j = closest_points o j).
Proof.
  intros pts n o impl out; unfold out, Impl_ComputeClosestPoints; cbn [snd].
  set (ptrs := geometry_ptrs (commit_if_needed impl)).
  pose (P := fun (k : N) (st : ClosestState) =>
    (forall j, (k <= j)%N ->
               cl_geometry_ids (cl_out st) j = cl_geometry_ids o j
               /\ cl_primitive_ids (cl_out st) j = cl_primitive_ids o j)
    /\ (forall j, (3 * k <= j)%N -> closest_points (cl_out st) j = closest_points o j)).
  assert (HP : P n (for_range 0 n (closest_point_step ptrs pts)
                              (mkClosestState (scene (commit_if_needed impl)) o))).
  { apply for_range_inv; [lia | split; intros; auto |].
    intros k st Hk [Hids Hpts]; split.
    - intros j Hj; unfold closest_point_step;
        cbn [cl_out cl_geometry_ids cl_primitive_ids].
      rewrite !store_neq by lia; apply Hids; lia.
    - intros j Hj; unfold closest_point_step; cbn [cl_out closest_points].
      rewrite !store_neq by lia; apply Hpts; lia. }
  exact HP.
Qed.

(** The loops write only the entries of the output arrays that belong to
    their inputs: [Impl::CastRays] leaves every entry at an index of
    [num_rays] or beyond as it was (for the uv coordinates [2 * num_rays],
    for the normals [3 * num_rays]), [Impl::CountIntersections] likewise
    (its counts land at the ray ids, all below [num_rays]), and
    [Impl::ComputeClosestPoints] leaves the entries from [num_query_points]
    on ([3 * num_query_points] for the points) as they were. *)
Theorem queries_write_within_bounds :
  (forall (rays : ptr float) (num_rays : N) (o : CastOutputs) (impl : Impl),
      let out := snd (Impl_CastRays false rays num_rays o impl) in
      (forall j, (num_rays <= j)%N ->
                 t_hit out j = t_hit o j
                 /\ geometry_ids out j = geometry_ids o j
                 /\ primitive_ids out j = primitive_ids o j)
      /\ (forall j, (2 * num_rays <= j)%N -> primitive_uvs out j = primitive_uvs o j)
      /\ (forall j, (3 * num_rays <= j)%N ->
                    primitive_normals out j = primitive_normals o j))
  /\ (forall (rays : ptr float) (num_rays : N) (ints : ptr Z) (impl : Impl),
         (num_rays <= 4294967296)%N ->
         forall j, (num_rays <= j)%N ->
                   snd (Impl_CountIntersections rays num_rays ints impl) j = ints j)
  /\ (forall (pts : ptr float) (n : N) (o : ClosestOutputs) (impl : Impl),
         let out := snd (Impl_ComputeClosestPoints pts n o impl) in
         (forall j, (n <= j)%N ->
                    cl_geometry_ids out j = cl_geometry_ids o j
                    /\ cl_primitive_ids out j = cl_primitive_ids o j)
         /\ (forall j, (3 * n <= j)%N -> closest_points out j = closest_points o j)).
Proof using DivUp_spec rtcNearestHit_id.
  split; [| split].
  - intros rays num_rays o impl out.
    destruct (@Impl_CastRays_with_at MAX_BATCH_SIZE false rays num_rays o impl)
      as [(Ha & Hb & Hc) _]; [reflexivity | unfold MAX_BATCH_SIZE; lia |].
    fold (Impl_CastRays false rays num_rays o impl) in Ha, Hb, Hc; fold out in Ha, Hb, Hc.
    split; [| split]; intros j Hj; [apply Ha | apply Hb | apply Hc]; lia.
  - intros rays num_rays ints impl Hn j Hj; unfold Impl_CountIntersections.
    destruct (@Impl_CountIntersections_with_all MAX_BATCH_SIZE rays num_rays ints impl)
      as [_ Hout]; [reflexivity | exact Hn |].
    now apply Hout.
  - intros pts n o impl; apply Impl_ComputeClosestPoints_frame.
Qed.

(** **** The batches partition the rays *)

Lemma DivUp_last_batch : forall x y k : N,
    (0 < y)%N -> (k < DivUp x y)%N -> (k * y < x)%N.
Proof using DivUp_spec.
  intros x y k Hy Hk; rewrite DivUp_spec in Hk by exact Hy.
  pose proof (N.div_mod (x + y - 1) y ltac:(lia)) as Hdm.
  pose proof (N.mod_lt (x + y - 1) y ltac:(lia)) as Hm.
  set (q := ((x + y - 1) / y)%N) in *; set (r := ((x + y - 1) mod y)%N) in *.
  clearbody q r; nia.
Qed.

Lemma batches_partition :
  forall (S : Type) (proj : S -> RTCScene) (body : N -> S -> S)
         (num_rays size : N) (s : S),
    (0 < size)%N ->
    (forall k s', calls (proj (body k s'))
                  = calls (proj s')
                    ++ [CallIntersect1M (N.min num_rays ((k + 1) * size) - k * size)]) ->
    exists sizes,
      calls (proj (for_range 0 (DivUp num_rays size) body s))
      = calls (proj s) ++ map CallIntersect1M sizes
      /\ fold_right N.add 0%N sizes = num_rays
      /\ Forall (fun m => (0 < m <= size)%N) sizes
      /\ N.of_nat (length sizes) = DivUp num_rays size.
Proof using DivUp_spec.
  intros S proj body num_rays size s Hsize Hbody.
  pose (P := fun (k : N) (st : S) =>
    (k <= DivUp num_rays size)%N ->
    exists sizes,
      calls (proj st) = calls (proj s) ++ map CallIntersect1M sizes
      /\ fold_right N.add 0%N sizes = N.min num_rays (k * size)
      /\ Forall (fun m => (0 < m <= size)%N) sizes
      /\ N.of_nat (length sizes) = k).
  assert (HP : P (DivUp num_rays size) (for_range 0 (DivUp num_rays size) body s)).
  { apply for_range_inv; [lia | |].
    - intros _; exists []; cbn [map fold_right length].
      rewrite app_nil_r; repeat split; [lia | constructor].
    - intros k st Hk IH Hle.
      destruct IH as (sizes & Hcalls & Hsum & Hall & Hlen); [lia |].
      assert (Hlast : (k * size < num_rays)%N) by (apply DivUp_last_batch; lia).
      exists (sizes ++ [(N.min num_rays ((k + 1) * size) - k * size)%N]).
      rewrite Hbody, Hcalls, map_app, <- app_assoc; cbn [map].
      split; [reflexivity |]. split; [| split].
      + rewrite fold_right_app; cbn [fold_right].
        assert (Hgen : forall (l : list N) (a : N),
                   fold_right N.add a l = (fold_right N.add 0 l + a)%N).
        { induction l as [| x l IHl]; intros a; cbn [fold_right]; [lia |].
          rewrite IHl; lia. }
        rewrite Hgen, Hsum; lia.
      + apply Forall_app; split; [exact Hall |].
        constructor; [lia | constructor].
      + rewrite length_app; cbn [length]; lia. }
  destruct (HP ltac:(lia)) as (sizes & Hcalls & Hsum & Hall & Hlen).
  exists sizes; repeat split; try assumption.
  rewrite Hsum; pose proof (DivUp_covers num_rays Hsize); lia.
Qed.

(** The batches partition the rays: after its commit, [Impl::CastRays] (and
    likewise [Impl::CountIntersections]) on at least one ray calls the
    provider once per batch and makes no other call; every batch holds at
    least one ray and at most [MAX_BATCH_SIZE] of them, and the sizes of the
    batches add up to [num_rays] - no ray is handed over twice or left
    out. *)
Theorem batches_partition_the_rays :
  forall (rays : ptr float) (num_rays : N) (impl : Impl),
    (0 < num_rays)%N ->
    (forall (L : bool) (o : CastOutputs),
        exists sizes,
          calls (scene (fst (Impl_CastRays L rays num_rays o impl)))
          = calls (scene (commit_if_needed impl)) ++ map CallIntersect1M sizes
          /\ fold_right N.add 0%N sizes = num_rays
          /\ Forall (fun m => (0 < m <= MAX_BATCH_SIZE)%N) sizes
          /\ N.of_nat (length sizes)
             = ((num_rays + MAX_BATCH_SIZE - 1) / MAX_BATCH_SIZE)%N)
    /\ (forall ints : ptr Z,
           exists sizes,
             calls (scene (fst (Impl_CountIntersections rays num_rays ints impl)))
             = calls (scene (commit_if_needed impl)) ++ map CallIntersect1M sizes
             /\ fold_right N.add 0%N sizes = num_rays
             /\ Forall (fun m => (0 < m <= MAX_BATCH_SIZE)%N) sizes
             /\ N.of_nat (length sizes)
                = ((num_rays + MAX_BATCH_SIZE - 1) / MAX_BATCH_SIZE)%N).
Proof using DivUp_spec.
  intros rays num_rays impl Hn.
  assert (Hsize : (0 < N.min num_rays MAX_BATCH_SIZE)%N) by (unfold MAX_BATCH_SIZE; lia).
  assert (Hweak : forall sizes,
             Forall (fun m => (0 < m <= N.min num_rays MAX_BATCH_SIZE)%N) sizes ->
             Forall (fun m => (0 < m <= MAX_BATCH_SIZE)%N) sizes).
  { intros sizes H; eapply Forall_impl; [| exact H]; cbv beta; intros m Hm; lia. }
  assert (Hnb : DivUp num_rays (N.min num_rays MAX_BATCH_SIZE)
                = ((num_rays + MAX_BATCH_SIZE - 1) / MAX_BATCH_SIZE)%N).
  { destruct (N.le_gt_cases num_rays MAX_BATCH_SIZE) as [Hle | Hgt].
    - rewrite N.min_l by exact Hle; rewrite DivUp_one_batch by exact Hn.
      apply (N.div_unique (num_rays + MAX_BATCH_SIZE - 1) MAX_BATCH_SIZE 1 (num_rays - 1));
        unfold MAX_BATCH_SIZE in *; lia.
    - rewrite N.min_r by lia; apply DivUp_spec; reflexivity. }
  split.
  - intros L o; unfold Impl_CastRays, Impl_CastRays_with; cbn [fst scene].
    destruct (@batches_partition CastState cs_scene
                (cast_batch L rays num_rays (N.min num_rays MAX_BATCH_SIZE))
                num_rays (N.min num_rays MAX_BATCH_SIZE)
                (mkCastState (scene (commit_if_needed impl)) (fun _ => zero_rayhit) o)
                Hsize ltac:(intros; reflexivity))
      as (sizes & Hcalls & Hsum & Hall & Hlen).
    exists sizes; cbn [cs_scene] in Hcalls.
    split; [exact Hcalls |]. split; [exact Hsum |]. split; [now apply Hweak |].
    now rewrite Hlen.
  - intros ints; unfold Impl_CountIntersections, Impl_CountIntersections_with;
      cbn [fst scene].
    match goal with
    | |- context [for_range 0 _ _ ?s0] =>
        destruct (@batches_partition CountState ct_scene
                    (count_batch rays num_rays (N.min num_rays MAX_BATCH_SIZE))
                    num_rays (N.min num_rays MAX_BATCH_SIZE) s0
                    Hsize ltac:(intros; reflexivity))
          as (sizes & Hcalls & Hsum & Hall & Hlen)
    end.
    exists sizes; cbn [ct_scene] in Hcalls.
    split; [exact Hcalls |]. split; [exact Hsum |]. split; [now apply Hweak |].
    now rewrite Hlen.
Qed.

(** **** A registration followed by a query *)

(** A registration followed by [CastRays], whatever the scene: the query
    rebuilds the acceleration structure exactly once and every ray is cast
    against the geometries attached before together with the new one, whose
    buffers hold the registered vertices and indices; the handle returned by
    the registration is the position of the new geometry among them
    (truncated to 32 bits). *)
Theorem AddTriangles_then_CastRays :
  forall (vertices : Tensor float) (triangles : Tensor N) (rays : Tensor float)
         (impl impl1 impl2 : Impl) (geom_id : N) res,
    AddTriangles vertices triangles impl = Ok (geom_id, impl1) ->
    CastRays rays impl1 = Ok (res, impl2) ->
    exists g,
      (forall j, (j < 3 * GetLength vertices)%N -> vertex_buffer g j = data vertices j)
      /\ (forall j, (j < 3 * GetLength triangles)%N -> index_buffer g j = data triangles j)
      /\ geom_id = to_uint32 (N.of_nat (length (attached (scene impl))))
      /\ nth_error (attached (scene impl) ++ [g]) (length (attached (scene impl))) = Some g
      /\ rebuilds (scene impl2) = Datatypes.S (rebuilds (scene impl))
      /\ bvh (scene impl2) = attached (scene impl) ++ [g]
      /\ forall i, (i < NumElements (removelast (shape rays)))%N ->
           read_out (mkCastOutputs (data (r_t_hit res)) (data (r_geometry_ids res))
                                   (data (r_primitive_ids res))
                                   (data (r_primitive_uvs res))
                                   (data (r_primitive_normals res))) i
           = cast_ray (attached (scene impl) ++ [g]) false (data rays) i.
Proof using DivUp_spec rtcNearestHit_id.
  intros vertices triangles rays impl impl1 impl2 geom_id res Hadd Hcast.
  destruct (AddTriangles_result _ _ _ Hadd) as [Hid Himpl1]; cbn [fst snd] in Hid, Himpl1.
  set (g := mkRTCGeometry (GetLength vertices)
              (memcpy uninit_float (data vertices) (3 * GetLength vertices))
              (GetLength triangles)
              (memcpy uninit_uint32 (data triangles) (3 * GetLength triangles))) in *.
  exists g.
  split; [intros j Hj; unfold g, memcpy; cbn [vertex_buffer];
          apply N.ltb_lt in Hj; now rewrite Hj |].
  split; [intros j Hj; unfold g, memcpy; cbn [index_buffer];
          apply N.ltb_lt in Hj; now rewrite Hj |].
  split; [exact Hid |].
  split; [rewrite nth_error_app2 by lia; now rewrite Nat.sub_diag |].
  assert (Hbvh1 : bvh (scene (commit_if_needed impl1)) = attached (scene impl) ++ [g]).
  { rewrite Himpl1; reflexivity. }
  destruct (CastRays_step _ _ Hcast) as (_ & _ & _ & Hbvh2 & evs & Hcalls & Hno).
  cbn [snd] in Hbvh2, Hcalls.
  split; [| split].
  - rewrite commit_if_needed_calls in Hcalls.
    rewrite (rebuilds_app _ _ _ Hcalls Hno), Himpl1.
    cbn [scene scene_committed calls]; rewrite !filter_app, !length_app.
    unfold rebuilds; cbn [filter length]; lia.
  - now rewrite Hbvh2.
  - unfold CastRays in Hcast; bind_inv Hcast.
    apply Ok_inj in Hcast; cbv zeta in Hcast.
    remember (Impl_CastRays false (data rays) (NumElements (removelast (shape rays)))
                (mkCastOutputs uninit_float uninit_uint32 uninit_uint32
                               uninit_float uninit_float) impl1) as io eqn:Eio in Hcast.
    injection Hcast as <- _.
    intros i Hi; cbn [r_t_hit r_geometry_ids r_primitive_ids r_primitive_uvs
                      r_primitive_normals]; rewrite !data_mkTensor.
    subst io; unfold Impl_CastRays.
    destruct (@Impl_CastRays_with_at MAX_BATCH_SIZE false (data rays)
                (NumElements (removelast (shape rays)))
                (mkCastOutputs uninit_float uninit_uint32 uninit_uint32
                               uninit_float uninit_float) impl1)
      as [_ Hr]; [reflexivity | unfold MAX_BATCH_SIZE; lia |].
    rewrite Hbvh1 in Hr; rewrite <- (Hr i Hi); reflexivity.
Qed.

(** **** The crossing counts of any number of rays *)

Lemma fold_present_candidate_mono :
  forall (cands : list (float * RTCHit)) (ctx : Filter.CountIntersectionsContext)
         (rh : RTCRayHit),
  exists ctx',
    fold_left present_candidate cands (ctx, rh) = (ctx', rh)
    /\ (forall k, (Filter.intersections ctx k <= Filter.intersections ctx' k)%Z)
    /\ (forall k, k <> id (ray rh) ->
                  Filter.intersections ctx' k = Filter.intersections ctx k).
Proof.
  intros cands ctx rh.
  destruct (fold_present_candidate cands ctx rh) as (ctx' & Hfold & Hat & Hframe).
  exists ctx'; split; [exact Hfold |]. split.
  - intros k; destruct (N.eq_dec k (id (ray rh))) as [-> | Hne].
    + pose proof (crossing_step_bounds cands
                    (Filter.previous_geom_prim_ID_tfar ctx (id (ray rh)),
                     Filter.intersections ctx (id (ray rh)))) as Hb.
      rewrite <- Hat in Hb; cbn [snd] in Hb; lia.
    + destruct (Hframe k Hne) as [_ ->]; lia.
  - intros k Hne; now destruct (Hframe k Hne).
Qed.

Lemma filter_rays_general :
  forall (sc : RTCScene) (ctx : Filter.CountIntersectionsContext)
         (rh : ptr RTCRayHit) (M : N),
    let res := snd (rtcIntersect1M_filter sc ctx rh M) in
    (forall j, snd res j = rh j)
    /\ (forall k, (Filter.intersections ctx k <= Filter.intersections (fst res) k)%Z)
    /\ (forall k, (forall j, (j < M)%N -> id (ray (rh j)) <> k) ->
                  Filter.intersections (fst res) k = Filter.intersections ctx k).
Proof.
  intros sc ctx rh M res.
  pose (P := fun (n : N) (st : Filter.CountIntersectionsContext * ptr RTCRayHit) =>
    (forall j, snd st j = rh j)
    /\ (forall k, (Filter.intersections ctx k <= Filter.intersections (fst st) k)%Z)
    /\ (forall k, (forall j, (j < n)%N -> id (ray (rh j)) <> k) ->
                  Filter.intersections (fst st) k = Filter.intersections ctx k)).
  assert (HP : P M res).
  { unfold res, rtcIntersect1M_filter; cbn [snd].
    apply for_range_inv; [lia | |].
    - unfold P; cbn [fst snd]; repeat split; intros; lia.
    - intros n st Hn (Hrh & Hmono & Hframe).
      unfold P; cbv beta zeta; unfold ptr in *; rewrite (Hrh n).
      destruct (fold_present_candidate_mono
                  (rtcFilterCandidates (bvh sc) (ray (rh n))) (fst st) (rh n))
        as (ctx' & Hfold & Hup & Hother).
      rewrite Hfold; cbn [fst snd].
      split; [| split].
      + intros j; destruct (N.eq_dec j n) as [-> | Hne];
          [apply store_eq | rewrite store_neq by exact Hne; apply Hrh].
      + intros k; specialize (Hmono k); specialize (Hup k); lia.
      + intros k Hk; rewrite Hother by (apply not_eq_sym, Hk; lia).
        apply Hframe; intros j Hj; apply Hk; lia. }
  exact HP.
Qed.

Lemma count_batch_general :
  forall (rays : ptr float) (num_rays size n : N) (st : CountState),
    times_zero (ct_rayhits st) ->
    let st' := count_batch rays num_rays size n st in
    times_zero (ct_rayhits st')
    /\ (forall k, (Filter.intersections (ct_context st) k
                   <= Filter.intersections (ct_context st') k)%Z)
    /\ (forall k, (4294967296 <= k)%N ->
                  Filter.intersections (ct_context st') k
                  = Filter.intersections (ct_context st) k).
Proof.
  intros rays num_rays size n st Hz st'; unfold st', count_batch.
  set (start_idx := (n * size)%N).
  set (end_idx := N.min num_rays ((n + 1) * size)).
  set (rh1 := for_range start_idx end_idx (fill_count_rayhit rays start_idx) (ct_rayhits st)).
  assert (Hrh1 : times_zero rh1
                 /\ forall j, (j < end_idx - start_idx)%N ->
                      ray (rh1 j)
                      = ray_at false rays (start_idx + j) (to_uint32 (start_idx + j))).
  { destruct (N.le_gt_cases end_idx start_idx) as [Hempty | Hlt].
    - unfold rh1; rewrite for_range_empty by exact Hempty.
      split; [exact Hz | intros j Hj; lia].
    - apply fill_count_loop; [lia | exact Hz]. }
  destruct Hrh1 as [Hz1 Hfill].
  destruct (filter_rays_general (ct_scene st) (ct_context st) rh1 (end_idx - start_idx))
    as (Hsame & Hmono & Hframe).
  cbn [ct_scene ct_rayhits ct_context].
  split; [intros j; rewrite Hsame; apply Hz1 |].
  split; [exact Hmono |].
  intros k Hk; apply Hframe; intros j Hj Hid.
  rewrite (Hfill j Hj) in Hid; cbn [ray_at id] in Hid.
  unfold to_uint32 in Hid.
  pose proof (N.mod_lt (start_idx + j) 4294967296 ltac:(lia)); lia.
Qed.

(** Whatever the number of rays and of batches: no count is negative, and
    no count is filed at an index of 2^32 or more, [ray.id] being a 32-bit
    field. *)
Lemma Impl_CountIntersections_with_general :
  forall (b : N) (rays : ptr float) (num_rays : N) (ints : ptr Z) (impl : Impl),
    let out := snd (Impl_CountIntersections_with b rays num_rays ints impl) in
    (forall k, (k < num_rays)%N -> (0 <= out k)%Z)
    /\ (forall k, (4294967296 <= k)%N -> (k < num_rays)%N -> out k = 0%Z).
Proof.
  intros b rays num_rays ints impl out.
  unfold out, Impl_CountIntersections_with; cbn [snd].
  set (size := N.min num_rays b).
  set (ints0 := fun j : N => if (j <? num_rays)%N then 0%Z else ints j).
  pose (P := fun (n : N) (st : CountState) =>
    times_zero (ct_rayhits st)
    /\ (forall k, (ints0 k <= Filter.intersections (ct_context st) k)%Z)
    /\ (forall k, (4294967296 <= k)%N ->
                  Filter.intersections (ct_context st) k = ints0 k)).
  match goal with
  | |- context [for_range 0 ?nb ?body ?s0] =>
      assert (HP : P nb (for_range 0 nb body s0))
  end.
  { apply for_range_inv; [lia | |].
    - split; [intros j; reflexivity |]. split; intros; cbn; [lia | reflexivity].
    - intros n st _ (Hz & Hlow & Hhigh).
      destruct (count_batch_general rays num_rays size n st Hz) as (Hz' & Hmono & Hframe).
      split; [exact Hz' |]. split.
      + intros k; specialize (Hlow k); specialize (Hmono k); lia.
      + intros k Hk; rewrite (Hframe k Hk); now apply Hhigh. }
  destruct HP as (_ & Hlow & Hhigh); split.
  - intros k Hk; specialize (Hlow k); unfold ints0 in Hlow.
    apply N.ltb_lt in Hk; rewrite Hk in Hlow; exact Hlow.
  - intros k Hbig Hk; rewrite (Hhigh k Hbig); unfold ints0.
    apply N.ltb_lt in Hk; now rewrite Hk.
Qed.

Lemma for_loop_related :
  forall (S : Type) (R : S -> S -> Prop) (body : N -> S -> S),
    (forall k s s', R s s' -> R (body k s) (body k s')) ->
    forall (count : nat) (i : N) (s s' : S),
      R s s' -> R (for_loop count i body s) (for_loop count i body s').
Proof.
  intros S R body Hbody count; induction count as [| count IH]; intros i s s' H.
  - exact H.
  - cbn [for_loop]; apply IH, Hbody, H.
Qed.

(** The counts depend on the scene only through the acceleration
    structure the query runs on. *)
Lemma Impl_CountIntersections_with_bvh :
  forall (b : N) (rays : ptr float) (num_rays : N) (ints : ptr Z) (impl1 impl2 : Impl),
    bvh (scene (commit_if_needed impl1)) = bvh (scene (commit_if_needed impl2)) ->
    snd (Impl_CountIntersections_with b rays num_rays ints impl1)
    = snd (Impl_CountIntersections_with b rays num_rays ints impl2).
Proof.
  intros b rays num_rays ints impl1 impl2 Hbvh.
  unfold Impl_CountIntersections_with, for_range; cbn [snd].
  pose (R := fun st st' : CountState =>
    bvh (ct_scene st) = bvh (ct_scene st')
    /\ ct_rayhits st = ct_rayhits st'
    /\ ct_context st = ct_context st').
  match goal with
  | |- Filter.intersections (ct_context (for_loop ?c ?i ?body ?s1))
       = Filter.intersections (ct_context (for_loop _ _ _ ?s2)) =>
      assert (HR : R (for_loop c i body s1) (for_loop c i body s2))
  end.
  { apply for_loop_related.
    - intros k s s' (H1 & H2 & H3); unfold R, count_batch, rtcIntersect1M_filter.
      cbn [ct_scene ct_rayhits ct_context fst snd emit bvh].
      rewrite H1, H2, H3; repeat split.
    - unfold R; cbn [ct_scene ct_rayhits ct_context]; repeat split; exact Hbvh. }
  destruct HR as (_ & _ & ->); reflexivity.
Qed.

Lemma CountIntersections_probe_returns :
  forall (pts : ptr float) (n : N) (impl : Impl),
    CountIntersections (probe_rays pts n) impl
    = Ok (mkTensor tensor_device [n]
            (snd (Impl_CountIntersections (data (probe_rays pts n)) n uninit_int impl)),
          fst (Impl_CountIntersections (data (probe_rays pts n)) n uninit_int impl)).
Proof.
  intros pts n impl; unfold CountIntersections.
  rewrite (Assert_Ok _ _ (probe_rays_well_formed pts n)); cbn [bind].
  change (removelast (shape (probe_rays pts n))) with [n].
  change (NumElements [n]) with (n * 1)%N; rewrite N.mul_1_r; reflexivity.
Qed.

(** What [CountIntersections] reports for the probe rays: no count is
    negative, and the counts at indices of 2^32 and beyond are 0, whatever
    the rays at those indices cross. *)
Lemma CountIntersections_probe_general :
  forall (pts : ptr float) (n : N) (impl : Impl) (counts : Tensor Z) (impl' : Impl),
    CountIntersections (probe_rays pts n) impl = Ok (counts, impl') ->
    (forall k, (k < n)%N -> (0 <= data counts k)%Z)
    /\ (forall k, (4294967296 <= k)%N -> (k < n)%N -> data counts k = 0%Z).
Proof.
  intros pts n impl counts impl' H.
  rewrite CountIntersections_probe_returns in H; apply Ok_inj in H.
  replace counts with (fst (counts, impl')) by reflexivity.
  rewrite <- H; unfold fst at 1 2; rewrite data_mkTensor.
  apply Impl_CountIntersections_with_general.
Qed.

(** [ComputeOccupancy] and [ComputeSignedDistance] by the counts that
    [CountIntersections] reports for the probe rays on the same scene. *)
Lemma ComputeOccupancy_by_count :
  forall (pts : Tensor float) (impl impl' : Impl) (occ : Tensor float),
    let n := NumElements (removelast (shape pts)) in
    ComputeOccupancy pts impl = Ok (occ, impl') ->
    exists counts impl2,
      CountIntersections (probe_rays (data pts) n) impl = Ok (counts, impl2)
      /\ forall i, (i < n)%N ->
           data occ i = Float32.of_int (Z.rem (data counts i) 2).
Proof.
  intros pts impl impl' occ n H.
  unfold ComputeOccupancy in H; do 2 bind_inv H.
  apply Ok_inj in H; fold n in H, Hx0.
  destruct x0 as [counts impl2]; exists counts, impl2; split; [exact Hx0 |].
  injection H as <- _; intros i Hi; rewrite data_mkTensor.
  apply N.ltb_lt in Hi; rewrite Hi; reflexivity.
Qed.

Lemma ComputeSignedDistance_by_count :
  forall (pts : Tensor float) (impl impl' : Impl) (sd : Tensor float),
    let n := NumElements (removelast (shape pts)) in
    ComputeSignedDistance pts impl = Ok (sd, impl') ->
    exists dist impl1 counts impl2,
      ComputeDistance pts impl = Ok (dist, impl1)
      /\ CountIntersections (probe_rays (data pts) n) impl = Ok (counts, impl2)
      /\ forall i, (i < n)%N ->
           data sd i
           = Float32.mul (data dist i)
                         (Float32.of_int (sign_of_count (data counts i))).
Proof.
  intros pts impl impl' sd n H.
  unfold ComputeSignedDistance in H; bind_inv H; injection H as <- _.
  unfold ComputeSignedDistance_signs in Hx; do 3 bind_inv Hx.
  apply Ok_inj in Hx; subst x; fold n in Hx2.
  destruct x1 as [dist impl1]; unfold snd at 1 in Hx2.
  exists dist, impl1; do 2 eexists.
  split; [exact Hx1 |]. split; [apply CountIntersections_probe_returns |].
  rewrite CountIntersections_probe_returns in Hx2; apply Ok_inj in Hx2; subst x2.
  intros i Hi.
  unfold fst at 1 2; rewrite !data_mkTensor; fold n.
  apply N.ltb_lt in Hi; rewrite !Hi.
  unfold fst at 1 2; rewrite !data_mkTensor.
  unfold Impl_CountIntersections.
  rewrite (@Impl_CountIntersections_with_bvh MAX_BATCH_SIZE _ n uninit_int impl1 impl);
    [reflexivity |].
  pose proof (@ComputeDistance_step _ _ _ Hx1) as Hstep; unfold snd in Hstep.
  exact (query_step_bvh Hstep).
Qed.

Lemma ComputeOccupancy_returns :
  forall (pts : Tensor float) (impl : Impl),
    well_formed_input 3 pts = true ->
    exists occ impl', ComputeOccupancy pts impl = Ok (occ, impl').
Proof.
  intros pts impl Hwf; unfold ComputeOccupancy.
  rewrite (Assert_Ok _ _ Hwf); cbn [bind].
  rewrite CountIntersections_probe_returns; cbn [bind].
  do 2 eexists; reflexivity.
Qed.

Lemma ComputeSignedDistance_returns :
  forall (pts : Tensor float) (impl : Impl),
    well_formed_input 3 pts = true ->
    exists sd impl', ComputeSignedDistance pts impl = Ok (sd, impl').
Proof.
  intros pts impl Hwf.
  unfold ComputeSignedDistance, ComputeSignedDistance_signs, ComputeDistance,
    ComputeClosestPoints.
  rewrite ?(Assert_Ok _ _ Hwf); cbn [bind].
  rewrite ?(Assert_Ok _ _ Hwf); cbn [bind].
  rewrite ?(Assert_Ok _ _ Hwf); cbn [bind].
  unfold snd at 1; rewrite CountIntersections_probe_returns; cbn [bind].
  do 2 eexists; reflexivity.
Qed.

(** **** C8: occupancy and sign *)

(** C8 (as amended).  On the same scene and for every batch of query
    points, [ComputeOccupancy] and [ComputeSignedDistance] classify each
    point by the same number, the count that [CountIntersections] reports at
    the point's index for the probe rays both build (origin at the point,
    direction (1,1,1)): the occupancy is that count modulo 2 as a float, the
    signed distance is the distance times the multiplier, -1 when the count
    is odd and 1 otherwise; so the occupancy is 1 exactly when the
    multiplier is -1, and 0 exactly when it is 1.  For batches of at most
    2^32 points that count is the number of crossings along the point's own
    probe ray. *)
Theorem ComputeOccupancy_agrees_with_sign :
  forall (pts : Tensor float) (impl i1 i2 : Impl) (occ sd : Tensor float),
    let n := NumElements (removelast (shape pts)) in
    let ix := bvh (scene (commit_if_needed impl)) in
    ComputeOccupancy pts impl = Ok (occ, i1) ->
    ComputeSignedDistance pts impl = Ok (sd, i2) ->
    exists dist i3 counts i4,
      ComputeDistance pts impl = Ok (dist, i3)
      /\ CountIntersections (probe_rays (data pts) n) impl = Ok (counts, i4)
      /\ forall i, (i < n)%N ->
           let c := data counts i in
           let multiplier := sign_of_count c in
           data occ i = Float32.of_int (Z.rem c 2)
           /\ data sd i = Float32.mul (data dist i) (Float32.of_int multiplier)
           /\ (data occ i = Float32.one <-> multiplier = (-1)%Z)
           /\ (data occ i = Float32.zero <-> multiplier = 1%Z)
           /\ ((n <= 4294967296)%N ->
               c = count_crossings (rtcFilterCandidates ix (probe_ray (data pts) i))).
Proof using DivUp_spec.
  intros pts impl i1 i2 occ sd n ix Hocc Hsd.
  destruct (ComputeSignedDistance_by_count _ _ Hsd)
    as (dist & i3 & counts & i4 & Hdist & Hcount & Hmul).
  destruct (ComputeOccupancy_by_count _ _ Hocc) as (counts' & i4' & Hcount' & Hpar).
  fold n in Hcount, Hmul, Hcount', Hpar.
  rewrite Hcount in Hcount'; apply Ok_inj in Hcount'; injection Hcount' as <- <-.
  exists dist, i3, counts, i4.
  split; [exact Hdist |]. split; [exact Hcount |].
  intros i Hi c multiplier.
  assert (Hc : (0 <= c)%Z)
    by (apply (proj1 (CountIntersections_probe_general Hcount)); exact Hi).
  split; [exact (Hpar i Hi) |]. split; [exact (Hmul i Hi) |].
  rewrite (Hpar i Hi); fold c; unfold multiplier.
  rewrite (sign_of_count_odd Hc), Z.rem_mod_nonneg, Zmod_odd by lia.
  split; [| split].
  - destruct (Z.odd c); split; intros H; try reflexivity; discriminate.
  - destruct (Z.odd c); split; intros H; try reflexivity; discriminate.
  - intros Hn; exact (@CountIntersections_probe _ _ _ _ Hn Hcount i Hi).
Qed.

(** **** Registrations that fail *)

Lemma registration_run_outcome : forall (r : Registration) (impl : Impl),
    run_registration r impl
    = match fst (registration_run r impl) with
      | Ok _ => Ok (snd (registration_run r impl))
      | LogError msg => LogError msg
      end.
Proof.
  intros [v t | mesh] impl;
    unfold run_registration, registration_run, AddTriangles, AddTriangles_mesh, outcome;
    match goal with
    | |- context [fst ?x] => destruct (fst x)
    end; reflexivity.
Qed.

(** A registration that fails adds nothing, whatever made it fail: the
    provider's scene (its geometries, its acceleration structure, the calls
    made to it) and the registry are as they were.  When an input check
    fails - device, shape, or the vertex count of a mesh - the committed
    flag keeps its value too; when the provider fails the call, the flag
    has already been cleared, so the next query commits the scene again. *)
Theorem failed_registration_adds_nothing :
  forall (r : Registration) (impl : Impl) (msg : string),
    run_registration r impl = LogError msg ->
    let impl' := snd (registration_run r impl) in
    let inputs_accepted :=
      match r with
      | RTensors vertices triangles =>
          well_formed_x3 vertices && well_formed_x3 triangles
      | RMesh mesh =>
          negb (4294967295 <? GetLength (GetVertices mesh))%N
          && (well_formed_x3 (GetVertices mesh) && well_formed_x3 (GetTriangles mesh))
      end in
    fst (registration_run r impl) = LogError msg
    /\ scene impl' = scene impl
    /\ geometry_ptrs impl' = geometry_ptrs impl
    /\ scene_committed impl'
       = (if inputs_accepted then false else scene_committed impl)
    /\ (inputs_accepted = true ->
        calls (scene (commit_if_needed impl')) = calls (scene impl) ++ [CallCommitScene]).
Proof.
  assert (Htensors : forall vertices triangles impl msg,
             fst (AddTriangles_run vertices triangles impl) = LogError msg ->
             let impl' := snd (AddTriangles_run vertices triangles impl) in
             scene impl' = scene impl
             /\ geometry_ptrs impl' = geometry_ptrs impl
             /\ scene_committed impl'
                = (if well_formed_x3 vertices && well_formed_x3 triangles
                   then false else scene_committed impl)).
  { intros vertices triangles impl msg Hfail.
    destruct (AddTriangles_run_cases vertices triangles impl)
      as [(Hwf & m & E) | [(Hwf & _ & m & E) | (_ & _ & E)]];
      rewrite E in *; cbn [fst snd] in *; rewrite ?Hwf;
      [repeat split | repeat split | discriminate]. }
  intros r impl msg Hfail impl' inputs_accepted.
  rewrite registration_run_outcome in Hfail.
  assert (Hfst : fst (registration_run r impl) = LogError msg).
  { destruct (fst (registration_run r impl));
      [discriminate | injection Hfail as ->; reflexivity]. }
  split; [exact Hfst |].
  assert (H3 : scene impl' = scene impl
               /\ geometry_ptrs impl' = geometry_ptrs impl
               /\ scene_committed impl'
                  = (if inputs_accepted then false else scene_committed impl)).
  { unfold impl', inputs_accepted in *; destruct r as [v t | mesh];
      cbn [registration_run] in *.
    - exact (Htensors v t impl msg Hfst).
    - unfold AddTriangles_mesh_run in *.
      destruct (4294967295 <? GetLength (GetVertices mesh))%N; cbn [negb andb].
      + cbn [lift snd]; repeat split.
      + exact (Htensors _ _ impl msg Hfst). }
  destruct H3 as (Hs & Hp & Hflag).
  split; [exact Hs |]. split; [exact Hp |]. split; [exact Hflag |].
  intros Hacc; rewrite Hacc in Hflag.
  rewrite commit_if_needed_calls, Hflag, Hs; reflexivity.
Qed.
End RaycastingScene.

(** ** The theorems on the example scene, and where the specification's
    wording departs from the code *)

(** C1, as the specification words it, fails.  With (geometry 0,
    primitive 0, distance 1) recorded, a candidate on primitive 1 of the
    same geometry at distance 1 is a new crossing by the specification's
    rule (the pair differs, and the primitive differs too) but the filter
    does not count it; and a candidate on primitive 0 of geometry 1 at
    distance 1 is no new crossing by the specification's rule (same
    primitive, same distance) but the filter counts it. *)
Lemma spec_new_crossing_counterexample :
  let last : Filter.gpt := (0%N, 0%N, Float32.one) in
  let ctx := Filter.mkContext (fun _ => last) (fun _ => 0%Z) in
  let r := set_tfar (ray Example.degenerate_slot) Float32.one in
  let same_geom := mkRTCHit Float32.zero Float32.zero Float32.zero Float32.zero
                            Float32.zero 1 0 RTC_INVALID_GEOMETRY_ID in
  let other_geom := mkRTCHit Float32.zero Float32.zero Float32.zero Float32.zero
                             Float32.zero 0 1 RTC_INVALID_GEOMETRY_ID in
  (Filter.spec_new_crossing last same_geom r
   /\ Filter.spec_pair_differs last same_geom
   /\ option_map (fun c => Filter.intersections c 0%N)
                 (snd (Filter.CountIntersectionsFunc (Filter.packet1 ctx r same_geom)))
      = Some 0%Z)
  /\ (~ Filter.spec_new_crossing last other_geom r
      /\ option_map (fun c => Filter.intersections c 0%N)
                    (snd (Filter.CountIntersectionsFunc (Filter.packet1 ctx r other_geom)))
         = Some 1%Z).
Proof.
  cbv zeta; split; [split; [| split] | split].
  - split; [discriminate | intros [H _]; discriminate].
  - discriminate.
  - reflexivity.
  - intros [_ H]; apply H; split; reflexivity.
  - reflexivity.
Qed.

Lemma CountIntersectionsFunc_new_crossing_iff_witness :
  let last : Filter.gpt := (0%N, 0%N, Float32.one) in
  let ctx := Filter.mkContext (fun _ => last) (fun _ => 0%Z) in
  let rays : ptr RTCRay := fun _ => set_tfar (ray Example.degenerate_slot) Example.two in
  let hits : ptr RTCHit := fun _ => Example.the_hit 1 in
  let vld : ptr Z := fun _ => (-1)%Z in
  vld 0%N = (-1)%Z
  /\ Filter.previous_geom_prim_ID_tfar (snd (Filter.lane rays hits 0 (vld, ctx))) 0%N
     = (0%N, 1%N, Example.two).
Proof.
  cbv zeta; split; [reflexivity |].
  destruct (CountIntersectionsFunc_new_crossing_iff
              (fun _ => set_tfar (ray Example.degenerate_slot) Example.two)
              (fun _ => Example.the_hit 1) 0 (fun _ => (-1)%Z)
              (Filter.mkContext (fun _ => (0%N, 0%N, Float32.one)) (fun _ => 0%Z)))
    as (Hactive & _).
  destruct (Hactive eq_refl) as (_ & _ & Hacc & _).
  apply Hacc; right; split; [discriminate | reflexivity].
Defined.

(** C2, as the specification words it, fails.  For a slot that reports a
    hit with the zero vector as normal, the three normal components written
    are NaN, not zero; for one whose normal is (2^-100, 0, 0), the squared
    length underflows to zero and the components written are +infinity, NaN
    and NaN. *)
Lemma write_hit_normal_counterexample :
  let out0 := read_out (write_hit (fun _ => Example.degenerate_slot) 0 0
                                  Example.fresh_outputs) 0 in
  let out1 := read_out (write_hit (fun _ => Example.tiny_normal_slot) 0 0
                                  Example.fresh_outputs) 0 in
  (o_geom out0 = 0%N
   /\ (o_nx out0, o_ny out0, o_nz out0) = (S754_nan, S754_nan, S754_nan)
   /\ (o_nx out0, o_ny out0, o_nz out0) <> (Float32.zero, Float32.zero, Float32.zero)
   /\ Float32.is_finite (o_nx out0) = false)
  /\ (o_geom out1 = 0%N
      /\ (o_nx out1, o_ny out1, o_nz out1) = (Float32.infinity, S754_nan, S754_nan)).
Proof. cbv zeta; repeat split; try reflexivity; discriminate. Qed.

Lemma write_hit_normal_unguarded_witness :
  let rayhits : ptr RTCRayHit := fun _ => Example.degenerate_slot in
  geomID (hit (rayhits 0%N)) <> RTC_INVALID_GEOMETRY_ID
  /\ o_nx (read_out (write_hit rayhits 0 0 Example.fresh_outputs) 0) = S754_nan.
Proof.
  cbv zeta.
  assert (Hhit : geomID (hit Example.degenerate_slot) <> RTC_INVALID_GEOMETRY_ID)
    by discriminate.
  split; [exact Hhit |].
  destruct (write_hit_normal_unguarded (fun _ => Example.degenerate_slot) 0 0
                                       Example.fresh_outputs Hhit) as [_ Hzero].
  destruct (Hzero eq_refl eq_refl eq_refl) as (_ & Hx & _); exact Hx.
Defined.

Lemma Example_provider_item_limit : provider_item_limit Example.rtcError.
Proof.
  intros type n Hn; unfold Example.rtcError.
  apply N.ltb_lt in Hn; rewrite Hn; discriminate.
Qed.

Lemma AddTriangles_vertex_count_check_witness :
  (4294967295 < GetLength (GetVertices Example.big_mesh))%N
  /\ provider_item_limit Example.rtcError
  /\ (4294967295 < GetLength Example.many_vertices)%N
  /\ (exists msg,
         AddTriangles_mesh Example.uninit_float Example.uninit_uint32 Example.rtcError
                           Example.big_mesh new_RaycastingScene = LogError msg)
  /\ (exists msg impl',
         AddTriangles_run Example.uninit_float Example.uninit_uint32 Example.rtcError
                          Example.many_vertices Example.triangles Example.registered
         = (LogError msg, impl')
         /\ scene impl' = scene Example.registered
         /\ geometry_ptrs impl' = geometry_ptrs Example.registered).
Proof.
  assert (Hbig : (4294967295 < GetLength (GetVertices Example.big_mesh))%N)
    by reflexivity.
  assert (Hmany : (4294967295 < GetLength Example.many_vertices)%N) by reflexivity.
  split; [exact Hbig |]. split; [exact Example_provider_item_limit |].
  split; [exact Hmany |]. split.
  - destruct (proj1 (AddTriangles_vertex_count_check
                       Example.uninit_float Example.uninit_uint32 Example.rtcError
                       new_RaycastingScene)
                    Example.big_mesh Hbig) as (msg & _ & Hmsg & _).
    exists msg; exact Hmsg.
  - destruct (proj2 (AddTriangles_vertex_count_check
                       Example.uninit_float Example.uninit_uint32 Example.rtcError
                       Example.registered)
                    Example_provider_item_limit
                    Example.many_vertices Example.triangles Hmany)
      as (msg & impl' & Hrun & _ & _ & Hscene & Hptrs).
    exists msg, impl'; split; [exact Hrun |]. split; [exact Hscene | exact Hptrs].
Defined.

Lemma Example_DivUp_spec :
  forall x y : N, (0 < y)%N -> Example.DivUp x y = ((x + y - 1) / y)%N.
Proof. intros x y _; reflexivity. Defined.

Lemma Example_rtcNearestHit_id :
  forall (ix : list RTCGeometry) (r : RTCRay) (k : N),
    Example.rtcNearestHit ix (set_id r k) = Example.rtcNearestHit ix r.
Proof. intros ix r k; reflexivity. Defined.

Lemma CastRays_chunks_invisible_witness :
  (0 < 2)%N /\ (0 < 4)%N
  /\ (N.min 3 2 <= 4294967296)%N /\ (N.min 3 4 <= 4294967296)%N
  /\ same_outputs
       (snd (Impl_CastRays_with Example.rtcNearestHit Example.DivUp 2 false
               Example.ray_data 3 Example.fresh_outputs Example.registered))
       (snd (Impl_CastRays_with Example.rtcNearestHit Example.DivUp 4 false
               Example.ray_data 3 Example.fresh_outputs Example.registered))
  /\ calls (scene (fst (Impl_CastRays_with Example.rtcNearestHit Example.DivUp 4 false
                         Example.ray_data 3 Example.fresh_outputs Example.registered)))
     = [CallAttachGeometry; CallCommitScene; CallIntersect1M 3].
Proof.
  assert (H2 : (0 < 2)%N) by reflexivity.
  assert (H4 : (0 < 4)%N) by reflexivity.
  assert (Hs2 : (N.min 3 2 <= 4294967296)%N) by discriminate.
  assert (Hs4 : (N.min 3 4 <= 4294967296)%N) by discriminate.
  repeat (split; [assumption |]).
  pose proof (@CastRays_chunks_invisible
                Example.rtcNearestHit Example.rtcFilterCandidates Example.DivUp
                Example_DivUp_spec Example_rtcNearestHit_id 2 4 false
                Example.ray_data 3 Example.fresh_outputs Example.registered
                H2 H4 Hs2 Hs4) as (_ & Hsame & Hone & _).
  split; [exact Hsame |].
  refine (Hone eq_refl _); discriminate.
Defined.

Lemma mul_self_abs : forall x : float,
    Float32.mul x x = Float32.mul (SFabs x) (SFabs x).
Proof. intros [s | s | | s m e]; try reflexivity; destruct s; reflexivity. Qed.

Lemma Example_norm3_abs : forall x y z : float,
    Example.norm3 x y z = Example.norm3 (SFabs x) (SFabs y) (SFabs z).
Proof.
  intros x y z; unfold Example.norm3.
  now rewrite <- !mul_self_abs.
Qed.


Lemma ComputeSignedDistance_sign_by_parity_witness :
  exists sd impl' dist impl1,
    ComputeSignedDistance Example.rtcFilterCandidates Example.rtcPointQueryOrder
      Example.rtcPointQueryVisits Example.closestPointTriangle Example.distance
      Example.DivUp Example.norm3 Example.uninit_float Example.uninit_uint32
      Example.uninit_int Example.uninit_Vec3f Example.points Example.registered
    = Ok (sd, impl')
    /\ (NumElements (removelast (shape Example.points)) <= 4294967296)%N
    /\ ComputeDistance Example.rtcPointQueryOrder Example.rtcPointQueryVisits
         Example.closestPointTriangle Example.distance Example.norm3
         Example.uninit_float Example.uninit_uint32 Example.uninit_Vec3f
         Example.points Example.registered
       = Ok (dist, impl1)
    /\ data sd 0%N = Float32.mul (data dist 0%N) (SFopp Float32.one)
    /\ data sd 1%N = Float32.mul (data dist 1%N) Float32.one.
Proof.
  assert (Hn : (NumElements (removelast (shape Example.points)) <= 4294967296)%N)
    by discriminate.
  eexists; eexists.
  assert (Hrun : forall sd impl',
             ComputeSignedDistance Example.rtcFilterCandidates
               Example.rtcPointQueryOrder Example.rtcPointQueryVisits
               Example.closestPointTriangle Example.distance Example.DivUp
               Example.norm3 Example.uninit_float Example.uninit_uint32
               Example.uninit_int Example.uninit_Vec3f Example.points
               Example.registered = Ok (sd, impl') ->
             exists dist impl1,
               ComputeSignedDistance Example.rtcFilterCandidates
                 Example.rtcPointQueryOrder Example.rtcPointQueryVisits
                 Example.closestPointTriangle Example.distance Example.DivUp
                 Example.norm3 Example.uninit_float Example.uninit_uint32
                 Example.uninit_int Example.uninit_Vec3f Example.points
                 Example.registered = Ok (sd, impl')
               /\ (NumElements (removelast (shape Example.points)) <= 4294967296)%N
               /\ ComputeDistance Example.rtcPointQueryOrder
                    Example.rtcPointQueryVisits Example.closestPointTriangle
                    Example.distance Example.norm3 Example.uninit_float
                    Example.uninit_uint32 Example.uninit_Vec3f Example.points
                    Example.registered = Ok (dist, impl1)
               /\ data sd 0%N = Float32.mul (data dist 0%N) (SFopp Float32.one)
               /\ data sd 1%N = Float32.mul (data dist 1%N) Float32.one).
  { intros sd impl' H.
    destruct (@ComputeSignedDistance_sign_by_parity
                Example.rtcFilterCandidates Example.rtcPointQueryOrder
                Example.rtcPointQueryVisits Example.closestPointTriangle
                Example.distance Example.DivUp Example_DivUp_spec Example.norm3
                Example_norm3_abs
                Example.uninit_float Example.uninit_uint32 Example.uninit_int
                Example.uninit_Vec3f Example.points Example.registered impl' sd
                Hn H) as (dist & impl1 & Hd & Hall).
    exists dist, impl1.
    split; [exact H |]. split; [exact Hn |]. split; [exact Hd |].
    split; [exact (proj2 (Hall 0%N eq_refl)) | exact (proj2 (Hall 1%N eq_refl))]. }
  apply Hrun; reflexivity.
Defined.

Lemma CastRays_miss_sentinel_witness :
  (1 < 3)%N
  /\ Example.rtcNearestHit (bvh (scene (commit_if_needed Example.registered)))
                           (ray_at false Example.ray_data 1 0) = None
  /\ read_out (snd (Impl_CastRays Example.rtcNearestHit Example.DivUp false
                      Example.ray_data 3 Example.fresh_outputs Example.registered))
              1
     = mkHitOut Float32.infinity INVALID_ID INVALID_ID
                Float32.zero Float32.zero Float32.zero Float32.zero Float32.zero.
Proof.
  assert (Hi : (1 < 3)%N) by reflexivity.
  assert (Hmiss : Example.rtcNearestHit
                    (bvh (scene (commit_if_needed Example.registered)))
                    (ray_at false Example.ray_data 1 0) = None) by reflexivity.
  split; [exact Hi |]. split; [exact Hmiss |].
  exact (@CastRays_miss_sentinel Example.rtcNearestHit Example.DivUp
           Example_DivUp_spec Example_rtcNearestHit_id Example.ray_data 3
           Example.fresh_outputs Example.registered 1 Hi Hmiss).
Defined.

Lemma ComputeOccupancy_agrees_with_sign_witness :
  exists occ i1 sd i2,
    ComputeOccupancy Example.rtcFilterCandidates Example.DivUp
      Example.uninit_float Example.uninit_int Example.points Example.registered
    = Ok (occ, i1)
    /\ ComputeSignedDistance Example.rtcFilterCandidates
         Example.rtcPointQueryOrder Example.rtcPointQueryVisits
         Example.closestPointTriangle Example.distance Example.DivUp Example.norm3
         Example.uninit_float Example.uninit_uint32 Example.uninit_int
         Example.uninit_Vec3f Example.points Example.registered
       = Ok (sd, i2)
    /\ exists dist counts,
        data sd 0%N
        = Float32.mul (data dist 0%N)
                      (Float32.of_int (sign_of_count (data counts 0%N)))
        /\ (data occ 0%N = Float32.one <-> sign_of_count (data counts 0%N) = (-1)%Z)
        /\ (data occ 1%N = Float32.zero <-> sign_of_count (data counts 1%N) = 1%Z)
        /\ data counts 1%N
           = count_crossings
               (Example.rtcFilterCandidates
                  (bvh (scene (commit_if_needed Example.registered)))
                  (probe_ray (data Example.points) 1)).
Proof.
  do 4 eexists.
  refine ((fun (Hocc : _ = Ok (_, _)) (Hsd : _ = Ok (_, _)) =>
             conj Hocc (conj Hsd _)) eq_refl eq_refl).
  destruct (@ComputeOccupancy_agrees_with_sign
              Example.rtcFilterCandidates Example.rtcPointQueryOrder
              Example.rtcPointQueryVisits Example.closestPointTriangle
              Example.distance Example.DivUp Example_DivUp_spec Example.norm3
              Example.uninit_float Example.uninit_uint32 Example.uninit_int
              Example.uninit_Vec3f Example.points Example.registered
              _ _ _ _ Hocc Hsd) as (dist & i3 & counts & i4 & _ & _ & Hall).
  exists dist, counts.
  destruct (Hall 0%N eq_refl) as (_ & Hmul & Hone & _).
  destruct (Hall 1%N eq_refl) as (_ & _ & _ & Hzero & Hcount).
  split; [exact Hmul |]. split; [exact Hone |]. split; [exact Hzero |].
  apply Hcount; discriminate.
Defined.

Lemma ComputeClosestPoints_no_candidate_invalid_witness :
  let nan_points : ptr float := fun _ => S754_nan in
  let outputs := mkClosestOutputs Example.uninit_float Example.uninit_uint32
                                  Example.uninit_uint32 in
  (0 < 1)%N
  /\ (forall q, Example.rtcPointQueryOrder [] q = [])
  /\ cl_geometry_ids
       (snd (Impl_ComputeClosestPoints Example.rtcPointQueryOrder
               Example.rtcPointQueryVisits Example.closestPointTriangle
               Example.distance Example.uninit_Vec3f Example.point_data 1 outputs
               new_RaycastingScene)) 0%N = INVALID_ID
  /\ cl_primitive_ids
       (snd (Impl_ComputeClosestPoints Example.rtcPointQueryOrder
               Example.rtcPointQueryVisits Example.closestPointTriangle
               Example.distance Example.uninit_Vec3f nan_points 1 outputs
               Example.registered)) 0%N = INVALID_ID.
Proof.
  cbv zeta.
  assert (Hi : (0 < 1)%N) by reflexivity.
  assert (Hempty : forall q, Example.rtcPointQueryOrder [] q = [])
    by (intros q; reflexivity).
  split; [exact Hi |]. split; [exact Hempty |].
  split.
  - exact (proj1 (proj2 (@ComputeClosestPoints_no_candidate_invalid
                           Example.rtcPointQueryOrder Example.rtcPointQueryVisits
                           Example.closestPointTriangle Example.distance
                           Example.uninit_Vec3f Example.point_data 1
                           (mkClosestOutputs Example.uninit_float Example.uninit_uint32
                                             Example.uninit_uint32) 0 Hi) Hempty)).
  - refine (proj2 (proj1 (@ComputeClosestPoints_no_candidate_invalid
                            Example.rtcPointQueryOrder Example.rtcPointQueryVisits
                            Example.closestPointTriangle Example.distance
                            Example.uninit_Vec3f (fun _ => S754_nan) 1
                            (mkClosestOutputs Example.uninit_float Example.uninit_uint32
                                              Example.uninit_uint32) 0 Hi)
                         Example.registered _)).
    intros c [<- | [<- | []]] _; reflexivity.
Defined.

Lemma ClosestPointFunc_strict_first_wins_witness :
  let ix := bvh (scene (commit_if_needed Example.registered)) in
  let ptrs := geometry_ptrs Example.registered in
  let query := new_query Example.point_data 0 in
  let result := new_ClosestPointResult Example.uninit_Vec3f ptrs in
  let v0 := mkVec3f Float32.one Float32.zero Float32.zero in
  candidate_point Example.closestPointTriangle ptrs query (0%N, 0%N) = Some v0
  /\ candidate_distance Example.closestPointTriangle Example.distance ptrs query
                        (0%N, 1%N) = Some Float32.one
  /\ point_query_walk Example.rtcPointQueryVisits Example.closestPointTriangle
                      Example.distance ix [(0%N, 0%N); (0%N, 1%N)] (query, result)
     = (set_radius query Float32.one, mkClosestPointResult v0 0 0 ptrs).
Proof.
  cbv zeta.
  split; [reflexivity |]. split; [reflexivity |].
  refine (proj2 (proj2 (@ClosestPointFunc_strict_first_wins
                          Example.rtcPointQueryVisits Example.closestPointTriangle
                          Example.distance
                          (bvh (scene (commit_if_needed Example.registered)))
                          (new_query Example.point_data 0)
                          (new_ClosestPointResult Example.uninit_Vec3f
                                                  (geometry_ptrs Example.registered))
                          (0%N, 0%N)))
                [(0%N, 1%N)] (mkVec3f Float32.one Float32.zero Float32.zero)
                eq_refl eq_refl eq_refl _).
  intros c' d' [<- | []] Hd; injection Hd as <-; reflexivity.
Defined.

(** ** The further properties on the example scene *)

Lemma ComputeClosestPoints_reports_a_candidate_witness :
  let outputs := mkClosestOutputs Example.uninit_float Example.uninit_uint32
                                  Example.uninit_uint32 in
  let out := snd (Impl_ComputeClosestPoints Example.rtcPointQueryOrder
                    Example.rtcPointQueryVisits Example.closestPointTriangle
                    Example.distance Example.uninit_Vec3f Example.point_data 2 outputs
                    Example.registered) in
  (1 < 2)%N
  /\ ((cl_geometry_ids out 1%N = INVALID_ID /\ cl_primitive_ids out 1%N = INVALID_ID)
      \/ exists c pt,
          In c (Example.rtcPointQueryOrder
                  (bvh (scene (commit_if_needed Example.registered)))
                  (new_query Example.point_data 1))
          /\ candidate_point Example.closestPointTriangle
                             (geometry_ptrs Example.registered)
                             (new_query Example.point_data 1) c = Some pt
          /\ cl_geometry_ids out 1%N = fst c
          /\ cl_primitive_ids out 1%N = snd c).
Proof.
  cbv zeta.
  assert (Hi : (1 < 2)%N) by reflexivity.
  split; [exact Hi |].
  destruct (@ComputeClosestPoints_reports_a_candidate
              Example.rtcPointQueryOrder Example.rtcPointQueryVisits
              Example.closestPointTriangle Example.distance Example.uninit_Vec3f
              Example.point_data 2
              (mkClosestOutputs Example.uninit_float Example.uninit_uint32
                                Example.uninit_uint32)
              Example.registered 1 Hi)
    as [Hnone | (c & pt & Hin & Hpt & _ & Hg & Hp & _)].
  - left; exact Hnone.
  - right; exists c, pt; repeat split; assumption.
Defined.

Lemma Example_sound_culling : forall ix ptrs,
    sound_culling Example.rtcPointQueryVisits Example.closestPointTriangle
                  Example.distance ix ptrs.
Proof. intros ix ptrs q c d Hv; discriminate. Qed.

Lemma ComputeClosestPoints_minimal_witness :
  let outputs := mkClosestOutputs Example.uninit_float Example.uninit_uint32
                                  Example.uninit_uint32 in
  let ix := bvh (scene (commit_if_needed Example.registered)) in
  let ptrs := geometry_ptrs Example.registered in
  let q := new_query Example.point_data 1 in
  let out := snd (Impl_ComputeClosestPoints Example.rtcPointQueryOrder
                    Example.rtcPointQueryVisits Example.closestPointTriangle
                    Example.distance Example.uninit_Vec3f Example.point_data 2 outputs
                    Example.registered) in
  (1 < 2)%N
  /\ sound_culling Example.rtcPointQueryVisits Example.closestPointTriangle
                   Example.distance ix ptrs
  /\ ((cl_geometry_ids out 1%N = INVALID_ID /\ cl_primitive_ids out 1%N = INVALID_ID)
      \/ exists c pt,
          candidate_point Example.closestPointTriangle ptrs q c = Some pt
          /\ cl_geometry_ids out 1%N = fst c
          /\ cl_primitive_ids out 1%N = snd c
          /\ forall c' d',
               In c' (Example.rtcPointQueryOrder ix q) ->
               candidate_distance Example.closestPointTriangle Example.distance
                                  ptrs q c' = Some d' ->
               Float32.ltb d' (Example.distance (mkVec3f (qx q) (qy q) (qz q)) pt)
               = false).
Proof.
  cbv zeta.
  assert (Hi : (1 < 2)%N) by reflexivity.
  pose proof (@Example_sound_culling
                (bvh (scene (commit_if_needed Example.registered)))
                (geometry_ptrs Example.registered)) as Hsound.
  split; [exact Hi |]. split; [exact Hsound |].
  destruct (@ComputeClosestPoints_minimal
              Example.rtcPointQueryOrder Example.rtcPointQueryVisits
              Example.closestPointTriangle Example.distance Example.uninit_Vec3f
              Example.point_data 2
              (mkClosestOutputs Example.uninit_float Example.uninit_uint32
                                Example.uninit_uint32)
              Example.registered 1 Hi Hsound)
    as [(Hg & Hp & _) | (c & pt & _ & Hpt & Hg & Hp & _ & Hmin)].
  - left; split; assumption.
  - right; exists c, pt; repeat split; assumption.
Defined.

Lemma CountIntersectionsFunc_rejects_every_hit_witness :
  let ctx := Filter.mkContext
               (fun _ => (RTC_INVALID_GEOMETRY_ID, RTC_INVALID_GEOMETRY_ID, Float32.zero))
               (fun _ => 0%Z) in
  let rays : ptr RTCRay := fun j => set_id (ray Example.degenerate_slot) j in
  let hits : ptr RTCHit := fun _ => Example.the_hit 0 in
  exists vld' ctx',
    Filter.CountIntersectionsFunc
      (Filter.mkArgs (fun _ => (-1)%Z) (Some ctx) rays hits 4) = (vld', Some ctx')
    /\ vld' 3%N = 0%Z
    /\ vld' 4%N = (-1)%Z
    /\ (Filter.intersections ctx' 2%N <= 4)%Z.
Proof.
  cbv zeta.
  destruct (CountIntersectionsFunc_rejects_every_hit
              (fun _ => (-1)%Z)
              (Filter.mkContext
                 (fun _ => (RTC_INVALID_GEOMETRY_ID, RTC_INVALID_GEOMETRY_ID, Float32.zero))
                 (fun _ => 0%Z))
              (fun j => set_id (ray Example.degenerate_slot) j)
              (fun _ => Example.the_hit 0) 4)
    as (vld' & ctx' & Hrun & _ & Hvld & Hcount & _).
  exists vld', ctx'.
  split; [exact Hrun |].
  split; [exact (Hvld 3%N) |].
  split; [exact (Hvld 4%N) |].
  exact (proj2 (Hcount 2%N)).
Defined.

Lemma CountIntersections_bounds_witness :
  let count := snd (Impl_CountIntersections Example.rtcFilterCandidates Example.DivUp
                      Example.ray_data 3 Example.uninit_int Example.registered) 0%N in
  (3 <= 4294967296)%N /\ (0 < 3)%N
  /\ (1 <= count <= 3)%Z.
Proof.
  cbv zeta.
  assert (Hn : (3 <= 4294967296)%N) by discriminate.
  assert (Hi : (0 < 3)%N) by reflexivity.
  split; [exact Hn |]. split; [exact Hi |].
  destruct (@CountIntersections_bounds Example.rtcFilterCandidates Example.DivUp
              Example_DivUp_spec Example.ray_data 3 Example.uninit_int
              Example.registered 0 Hn Hi) as (Hrange & _ & Hfirst).
  split.
  - refine (Hfirst _ _ eq_refl _); discriminate.
  - exact (proj2 Hrange).
Defined.

Lemma filter_counts_rehits_once_witness :
  let ctx := Filter.mkContext
               (fun _ => (RTC_INVALID_GEOMETRY_ID, RTC_INVALID_GEOMETRY_ID, Float32.zero))
               (fun _ => 0%Z) in
  let c1 := (Float32.one, Example.the_hit 0) in
  let c2 := (Float32.one, Example.the_hit 1) in
  let st1 := present_candidate (ctx, Example.degenerate_slot) c1 in
  Filter.intersections (fst st1) 0%N = 1%Z
  /\ present_candidate st1 c2 = st1.
Proof.
  cbv zeta.
  split; [reflexivity |].
  exact (proj2 filter_counts_rehits_once
               (Filter.mkContext
                  (fun _ => (RTC_INVALID_GEOMETRY_ID, RTC_INVALID_GEOMETRY_ID,
                             Float32.zero))
                  (fun _ => 0%Z))
               Example.degenerate_slot
               (Float32.one, Example.the_hit 0) (Float32.one, Example.the_hit 1)
               eq_refl eq_refl eq_refl).
Defined.

Lemma reachable_scene_consistent_witness :
  exists impl1 impl2 impl3,
    run_operation Example.rtcNearestHit Example.rtcFilterCandidates
                  Example.rtcPointQueryOrder Example.rtcPointQueryVisits
                  Example.closestPointTriangle Example.distance Example.DivUp
                  Example.norm3 Example.uninit_float Example.uninit_uint32
                  Example.uninit_int Example.uninit_Vec3f Example.rtcError
                  (OpRegister (RTensors Example.vertices Example.triangles))
                  new_RaycastingScene = Ok impl1
    /\ run_operation Example.rtcNearestHit Example.rtcFilterCandidates
                     Example.rtcPointQueryOrder Example.rtcPointQueryVisits
                     Example.closestPointTriangle Example.distance Example.DivUp
                     Example.norm3 Example.uninit_float Example.uninit_uint32
                     Example.uninit_int Example.uninit_Vec3f Example.rtcError
                     (OpQuery (QCastRays Example.rays)) impl1 = Ok impl2
    /\ run_operation Example.rtcNearestHit Example.rtcFilterCandidates
                     Example.rtcPointQueryOrder Example.rtcPointQueryVisits
                     Example.closestPointTriangle Example.distance Example.DivUp
                     Example.norm3 Example.uninit_float Example.uninit_uint32
                     Example.uninit_int Example.uninit_Vec3f Example.rtcError
                     (OpRegister (RTensors Example.vertices Example.triangles))
                     impl2 = Ok impl3
    /\ reachable Example.rtcNearestHit Example.rtcFilterCandidates
                 Example.rtcPointQueryOrder Example.rtcPointQueryVisits
                 Example.closestPointTriangle Example.distance Example.DivUp
                 Example.norm3 Example.uninit_float Example.uninit_uint32
                 Example.uninit_int Example.uninit_Vec3f Example.rtcError impl3
    /\ geometry_ptrs impl3 = map registry_entry (attached (scene impl3))
    /\ length (attached (scene impl3)) = registrations (scene impl3)
    /\ (rebuilds (scene impl3) <= registrations (scene impl3))%nat
    /\ exists rest, attached (scene impl3) = bvh (scene impl3) ++ rest.
Proof.
  do 3 eexists.
  split; [reflexivity |]. split; [reflexivity |]. split; [reflexivity |].
  match goal with
  | |- ?R /\ _ =>
      assert (Hreach : R)
        by (eapply reachable_step
              with (op := OpRegister (RTensors Example.vertices Example.triangles));
            [eapply reachable_step with (op := OpQuery (QCastRays Example.rays));
             [eapply reachable_step
                with (op := OpRegister (RTensors Example.vertices Example.triangles));
              [apply reachable_new | reflexivity]
             | reflexivity]
            | reflexivity])
  end.
  split; [exact Hreach |].
  destruct (reachable_scene_consistent Hreach) as (Hreg & _ & Hpre & Hlen & Hre).
  split; [exact Hreg |]. split; [exact Hlen |].
  split; [rewrite Nat.add_0_r in Hre; exact Hre | exact Hpre].
Defined.

Lemma AddTriangles_handle_round_trip_witness :
  exists impl1 geom_id impl2,
    run_operation Example.rtcNearestHit Example.rtcFilterCandidates
                  Example.rtcPointQueryOrder Example.rtcPointQueryVisits
                  Example.closestPointTriangle Example.distance Example.DivUp
                  Example.norm3 Example.uninit_float Example.uninit_uint32
                  Example.uninit_int Example.uninit_Vec3f Example.rtcError
                  (OpRegister (RTensors Example.vertices Example.triangles))
                  new_RaycastingScene = Ok impl1
    /\ (N.of_nat (length (geometry_ptrs impl1)) < 4294967295)%N
    /\ AddTriangles Example.uninit_float Example.uninit_uint32 Example.rtcError
                    Example.vertices Example.triangles impl1 = Ok (geom_id, impl2)
    /\ geom_id = 1%N
    /\ geom_id <> INVALID_ID
    /\ (exists vb ib,
           nth_error (geometry_ptrs impl2) 1
           = Some (RTC_GEOMETRY_TYPE_TRIANGLE, vb, ib)
           /\ vb 3%N = Example.vertex_data 3%N
           /\ ib 5%N = Example.index_data 5%N)
    /\ nth_error (geometry_ptrs impl2) 0 = nth_error (geometry_ptrs impl1) 0.
Proof.
  do 3 eexists.
  split; [reflexivity |].
  match goal with
  | |- ?S /\ ?A /\ _ =>
      assert (Hsmall : S) by reflexivity;
      assert (Hadd : A) by reflexivity
  end.
  split; [exact Hsmall |]. split; [exact Hadd |].
  match type of Hadd with
  | AddTriangles _ _ _ _ _ ?i = _ =>
      assert (Hreach : reachable Example.rtcNearestHit Example.rtcFilterCandidates
                         Example.rtcPointQueryOrder Example.rtcPointQueryVisits
                         Example.closestPointTriangle Example.distance Example.DivUp
                         Example.norm3 Example.uninit_float Example.uninit_uint32
                         Example.uninit_int Example.uninit_Vec3f Example.rtcError i)
        by (eapply reachable_step
              with (op := OpRegister (RTensors Example.vertices Example.triangles));
            [apply reachable_new | reflexivity])
  end.
  destruct (AddTriangles_handle_round_trip _ _ Hreach Hsmall Hadd)
    as (Hid & Hvalid & (vb & ib & Hnth & Hvb & Hib) & Hold & _).
  split; [exact Hid |]. split; [exact Hvalid |].
  split; [| exact (Hold 0%nat (Nat.lt_0_succ 0))].
  exists vb, ib.
  split; [exact Hnth |].
  split; [apply Hvb | apply Hib]; reflexivity.
Defined.

Lemma ClosestPointFunc_registry_in_bounds_witness :
  exists impl,
    run_operation Example.rtcNearestHit Example.rtcFilterCandidates
                  Example.rtcPointQueryOrder Example.rtcPointQueryVisits
                  Example.closestPointTriangle Example.distance Example.DivUp
                  Example.norm3 Example.uninit_float Example.uninit_uint32
                  Example.uninit_int Example.uninit_Vec3f Example.rtcError
                  (OpRegister (RTensors Example.vertices Example.triangles))
                  new_RaycastingScene = Ok impl
    /\ (N.to_nat 0 < length (attached (scene impl)))%nat
    /\ exists g,
        nth_error (attached (scene impl)) 0 = Some g
        /\ nth_error (geometry_ptrs impl) 0
           = Some (RTC_GEOMETRY_TYPE_TRIANGLE, vertex_buffer g, index_buffer g).
Proof.
  eexists.
  split; [reflexivity |].
  match goal with
  | |- (_ < length (attached (scene ?i)))%nat /\ _ =>
      assert (Hreach : reachable Example.rtcNearestHit Example.rtcFilterCandidates
                         Example.rtcPointQueryOrder Example.rtcPointQueryVisits
                         Example.closestPointTriangle Example.distance Example.DivUp
                         Example.norm3 Example.uninit_float Example.uninit_uint32
                         Example.uninit_int Example.uninit_Vec3f Example.rtcError i)
        by (eapply reachable_step
              with (op := OpRegister (RTensors Example.vertices Example.triangles));
            [apply reachable_new | reflexivity]);
      assert (Hin : (N.to_nat (fst (0%N, 1%N)) < length (attached (scene i)))%nat)
        by (apply Nat.lt_0_succ)
  end.
  split; [exact Hin |].
  destruct (ClosestPointFunc_registry_in_bounds
              (new_query Example.point_data 0) (0%N, 1%N) Hreach Hin)
    as (g & Hg & Hp & _).
  exists g; split; [exact Hg | exact Hp].
Defined.

Lemma queries_see_every_geometry_witness :
  exists impl res impl',
    run_operation Example.rtcNearestHit Example.rtcFilterCandidates
                  Example.rtcPointQueryOrder Example.rtcPointQueryVisits
                  Example.closestPointTriangle Example.distance Example.DivUp
                  Example.norm3 Example.uninit_float Example.uninit_uint32
                  Example.uninit_int Example.uninit_Vec3f Example.rtcError
                  (OpRegister (RTensors Example.vertices Example.triangles))
                  new_RaycastingScene = Ok impl
    /\ CastRays Example.rtcNearestHit Example.DivUp Example.uninit_float
                Example.uninit_uint32 Example.rays impl = Ok (res, impl')
    /\ shape (r_primitive_normals res) = [3; 3]%N
    /\ read_out (mkCastOutputs (data (r_t_hit res)) (data (r_geometry_ids res))
                               (data (r_primitive_ids res))
                               (data (r_primitive_uvs res))
                               (data (r_primitive_normals res))) 0
       = cast_ray Example.rtcNearestHit (attached (scene impl)) false
                  Example.ray_data 0.
Proof.
  do 3 eexists.
  split; [reflexivity |].
  match goal with
  | |- ?A /\ _ => assert (Hcast : A) by reflexivity
  end.
  split; [exact Hcast |].
  match type of Hcast with
  | CastRays _ _ _ _ _ ?i = _ =>
      assert (Hreach : reachable Example.rtcNearestHit Example.rtcFilterCandidates
                         Example.rtcPointQueryOrder Example.rtcPointQueryVisits
                         Example.closestPointTriangle Example.distance Example.DivUp
                         Example.norm3 Example.uninit_float Example.uninit_uint32
                         Example.uninit_int Example.uninit_Vec3f Example.rtcError i)
        by (eapply reachable_step
              with (op := OpRegister (RTensors Example.vertices Example.triangles));
            [apply reachable_new | reflexivity])
  end.
  destruct (proj1 (queries_see_every_geometry Example_DivUp_spec
                     Example_rtcNearestHit_id Hreach) _ _ _ Hcast)
    as (_ & _ & _ & _ & Hshape & Hread).
  split; [exact Hshape |].
  exact (Hread 0%N eq_refl).
Defined.

Lemma run_query_rejects_malformed_input_witness :
  let flat : Tensor float := mkTensor (CPU 0) [6%N] Example.ray_data in
  well_formed_input (query_last_dim (QCastRays flat)) (query_input (QCastRays flat))
  = false
  /\ exists msg,
      run_query Example.rtcNearestHit Example.rtcFilterCandidates
                Example.rtcPointQueryOrder Example.rtcPointQueryVisits
                Example.closestPointTriangle Example.distance Example.DivUp
                Example.norm3 Example.uninit_float Example.uninit_uint32
                Example.uninit_int Example.uninit_Vec3f
                (QCastRays flat) Example.registered = LogError msg.
Proof.
  cbv zeta.
  split; [reflexivity |].
  exact (proj1 (run_query_rejects_malformed_input
                  Example.rtcNearestHit Example.rtcFilterCandidates
                  Example.rtcPointQueryOrder Example.rtcPointQueryVisits
                  Example.closestPointTriangle Example.distance Example.DivUp
                  Example.norm3 Example.uninit_float Example.uninit_uint32
                  Example.uninit_int Example.uninit_Vec3f
                  (QCastRays (mkTensor (CPU 0) [6%N] Example.ray_data))
                  Example.registered) eq_refl).
Defined.

Lemma failed_registration_adds_nothing_witness :
  let committed := mkImpl (rtcCommitScene (scene Example.registered)) true
                          (geometry_ptrs Example.registered) in
  let r := RTensors Example.many_vertices Example.triangles in
  run_registration Example.uninit_float Example.uninit_uint32 Example.rtcError
                   r committed
  = LogError "embree error: buffer too large"%string
  /\ scene (snd (registration_run Example.uninit_float Example.uninit_uint32
                                  Example.rtcError r committed))
     = scene committed
  /\ scene_committed (snd (registration_run Example.uninit_float Example.uninit_uint32
                                            Example.rtcError r committed))
     = false.
Proof.
  cbv zeta.
  assert (Hfail : run_registration Example.uninit_float Example.uninit_uint32
                    Example.rtcError
                    (RTensors Example.many_vertices Example.triangles)
                    (mkImpl (rtcCommitScene (scene Example.registered)) true
                            (geometry_ptrs Example.registered))
                  = LogError "embree error: buffer too large"%string) by reflexivity.
  split; [exact Hfail |].
  destruct (failed_registration_adds_nothing _ _ _ _ _ Hfail)
    as (_ & Hscene & _ & Hflag & _).
  split; [exact Hscene | exact Hflag].
Defined.

Lemma ComputeOccupancy_zero_or_one_witness :
  exists occ impl',
    (NumElements (removelast (shape Example.points)) <= 4294967296)%N
    /\ ComputeOccupancy Example.rtcFilterCandidates Example.DivUp Example.uninit_float
                        Example.uninit_int Example.points Example.registered
       = Ok (occ, impl')
    /\ shape occ = [2%N]
    /\ (data occ 1%N = Float32.zero \/ data occ 1%N = Float32.one).
Proof.
  do 2 eexists.
  assert (Hn : (NumElements (removelast (shape Example.points)) <= 4294967296)%N)
    by discriminate.
  split; [exact Hn |].
  match goal with
  | |- ?A /\ _ => assert (Hocc : A) by reflexivity
  end.
  split; [exact Hocc |].
  destruct (@ComputeOccupancy_zero_or_one Example.rtcFilterCandidates Example.DivUp
              Example_DivUp_spec Example.uninit_float Example.uninit_int
              Example.points Example.registered _ _ Hn Hocc) as [Hshape Hval].
  split; [exact Hshape |].
  exact (proj1 (Hval 1%N eq_refl)).
Defined.


Lemma batches_partition_the_rays_witness :
  (0 < 3)%N
  /\ exists sizes,
      calls (scene (fst (Impl_CountIntersections Example.rtcFilterCandidates
                           Example.DivUp Example.ray_data 3 Example.uninit_int
                           Example.registered)))
      = calls (scene (commit_if_needed Example.registered)) ++ map CallIntersect1M sizes
      /\ fold_right N.add 0%N sizes = 3%N
      /\ Forall (fun m => (0 < m <= MAX_BATCH_SIZE)%N) sizes
      /\ N.of_nat (length sizes) = 1%N.
Proof.
  assert (Hn : (0 < 3)%N) by reflexivity.
  split; [exact Hn |].
  exact (proj2 (@batches_partition_the_rays Example.rtcNearestHit
                  Example.rtcFilterCandidates Example.DivUp Example_DivUp_spec
                  Example.ray_data 3 Example.registered Hn) Example.uninit_int).
Defined.

Lemma AddTriangles_then_CastRays_witness :
  exists geom_id impl1 res impl2,
    AddTriangles Example.uninit_float Example.uninit_uint32 Example.rtcError
                 Example.vertices Example.triangles new_RaycastingScene
    = Ok (geom_id, impl1)
    /\ CastRays Example.rtcNearestHit Example.DivUp Example.uninit_float
                Example.uninit_uint32 Example.rays impl1 = Ok (res, impl2)
    /\ geom_id = 0%N
    /\ rebuilds (scene impl2) = 1%nat
    /\ exists g,
        bvh (scene impl2) = [g]
        /\ vertex_buffer g 4%N = Example.vertex_data 4%N
        /\ read_out (mkCastOutputs (data (r_t_hit res)) (data (r_geometry_ids res))
                                   (data (r_primitive_ids res))
                                   (data (r_primitive_uvs res))
                                   (data (r_primitive_normals res))) 2
           = cast_ray Example.rtcNearestHit [g] false Example.ray_data 2.
Proof.
  do 4 eexists.
  match goal with
  | |- ?A /\ ?B /\ _ =>
      assert (Hadd : A) by reflexivity;
      assert (Hcast : B) by reflexivity
  end.
  split; [exact Hadd |]. split; [exact Hcast |].
  destruct (@AddTriangles_then_CastRays Example.rtcNearestHit Example.DivUp
              Example_DivUp_spec Example_rtcNearestHit_id
              Example.uninit_float Example.uninit_uint32 Example.rtcError
              Example.vertices Example.triangles Example.rays new_RaycastingScene
              _ _ _ _ Hadd Hcast)
    as (g & Hvb & _ & Hid & _ & Hre & Hbvh & Hread).
  split; [exact Hid |]. split; [exact Hre |].
  exists g.
  split; [exact Hbvh |].
  split; [apply Hvb; reflexivity |].
  exact (Hread 2%N eq_refl).
Defined.

Lemma queries_write_within_bounds_witness :
  let out := snd (Impl_CastRays Example.rtcNearestHit Example.DivUp false
                    Example.ray_data 3 Example.fresh_outputs Example.registered) in
  let closest := mkClosestOutputs Example.uninit_float Example.uninit_uint32
                                  Example.uninit_uint32 in
  (3 <= 3)%N /\ (2 * 3 <= 6)%N /\ (3 <= 4294967296)%N /\ (3 * 2 <= 7)%N
  /\ geometry_ids out 3%N = Example.uninit_uint32 3%N
  /\ primitive_uvs out 6%N = Example.uninit_float 6%N
  /\ snd (Impl_CountIntersections Example.rtcFilterCandidates Example.DivUp
            Example.ray_data 3 Example.uninit_int Example.registered) 3%N
     = Example.uninit_int 3%N
  /\ closest_points
       (snd (Impl_ComputeClosestPoints Example.rtcPointQueryOrder
               Example.rtcPointQueryVisits Example.closestPointTriangle
               Example.distance Example.uninit_Vec3f Example.point_data 2 closest
               Example.registered)) 7%N
     = Example.uninit_float 7%N.
Proof.
  cbv zeta.
  assert (H3 : (3 <= 3)%N) by discriminate.
  assert (H6 : (2 * 3 <= 6)%N) by discriminate.
  assert (Hn : (3 <= 4294967296)%N) by discriminate.
  assert (H7 : (3 * 2 <= 7)%N) by discriminate.
  do 4 (split; [assumption |]).
  destruct (@queries_write_within_bounds
              Example.rtcNearestHit Example.rtcFilterCandidates
              Example.rtcPointQueryOrder Example.rtcPointQueryVisits
              Example.closestPointTriangle Example.distance Example.DivUp
              Example_DivUp_spec Example_rtcNearestHit_id Example.uninit_Vec3f)
    as (Hcast & Hcount & Hclosest).
  split; [exact (proj1 (proj2 (proj1 (Hcast Example.ray_data 3%N Example.fresh_outputs
                                            Example.registered) 3%N H3))) |].
  split; [exact (proj1 (proj2 (Hcast Example.ray_data 3%N Example.fresh_outputs
                                     Example.registered)) 6%N H6) |].
  split; [exact (Hcount Example.ray_data 3%N Example.uninit_int Example.registered
                        Hn 3%N H3) |].
  exact (proj2 (Hclosest Example.point_data 2%N
                  (mkClosestOutputs Example.uninit_float Example.uninit_uint32
                                    Example.uninit_uint32)
                  Example.registered) 7%N H7).
Defined.


(** ** Batches of more than 2^32 points *)

(** C6, as the specification words it, fails on a batch of 2^32 + 1 points
    at the origin: the probe ray of the point at index 2^32 crosses the
    surface once, its [ray.id] is 0, the crossing is filed under index 0 and
    the count at index 2^32 stays 0; the signed distance of that point is
    its distance 1.0 times 1, where the claim has it times -1. *)
Lemma ComputeSignedDistance_counterexample :
  exists sd impl' dist impl1,
    ComputeSignedDistance Example.rtcFilterCandidates Example.rtcPointQueryOrder
      Example.rtcPointQueryVisits Example.closestPointTriangle Example.distance
      Example.DivUp Example.norm3 Example.uninit_float Example.uninit_uint32
      Example.uninit_int Example.uninit_Vec3f Example.many_points Example.registered
    = Ok (sd, impl')
    /\ ComputeDistance Example.rtcPointQueryOrder Example.rtcPointQueryVisits
         Example.closestPointTriangle Example.distance Example.norm3
         Example.uninit_float Example.uninit_uint32 Example.uninit_Vec3f
         Example.many_points Example.registered
       = Ok (dist, impl1)
    /\ count_crossings
         (Example.rtcFilterCandidates
            (bvh (scene (commit_if_needed Example.registered)))
            (probe_ray (data Example.many_points) 4294967296)) = 1%Z
    /\ data dist 4294967296%N = Float32.one
    /\ data sd 4294967296%N = Float32.one
    /\ ~ spec_signed_distance Example.rtcFilterCandidates
           (bvh (scene (commit_if_needed Example.registered)))
           Example.many_points dist sd.
Proof.
  destruct (ComputeSignedDistance_returns
              Example.rtcFilterCandidates Example.rtcPointQueryOrder
              Example.rtcPointQueryVisits Example.closestPointTriangle
              Example.distance Example.DivUp Example.norm3 Example.uninit_float
              Example.uninit_uint32 Example.uninit_int Example.uninit_Vec3f
              Example.many_points Example.registered eq_refl) as (sd & impl' & Hsd).
  destruct (ComputeSignedDistance_by_count _ _ _ _ _ _ _ _ _ _ _ _ _ Hsd)
    as (dist & impl1 & counts & impl2 & Hdist & Hcount & Hmul).
  exists sd, impl', dist, impl1.
  split; [exact Hsd |]. split; [exact Hdist |].
  assert (Hi : (4294967296 < NumElements (removelast (shape Example.many_points)))%N)
    by reflexivity.
  assert (Hd : data dist 4294967296%N = Float32.one).
  { pose proof (ComputeDistance_at _ _ _ _ _ _ _ _ _ _ Hdist Hi) as Hat.
    unfold fst at 1 in Hat; rewrite Hat; vm_compute; reflexivity. }
  assert (Hs : data sd 4294967296%N = Float32.one).
  { rewrite (Hmul _ Hi), Hd.
    rewrite (proj2 (@CountIntersections_probe_general _ _ _ _ _ _ _ _ _ Hcount) 4294967296%N)
      by (try discriminate; reflexivity).
    reflexivity. }
  split; [reflexivity |]. split; [exact Hd |]. split; [exact Hs |].
  intros Hspec; specialize (Hspec _ Hi); rewrite Hs, Hd in Hspec.
  vm_compute in Hspec; discriminate.
Qed.

(** C8, as the specification words it, fails on the same batch: the
    occupancy of the point at index 2^32 is 0.0, and the number of crossings
    along its probe ray is 1. *)
Lemma ComputeOccupancy_counterexample :
  exists occ impl',
    ComputeOccupancy Example.rtcFilterCandidates Example.DivUp
      Example.uninit_float Example.uninit_int Example.many_points Example.registered
    = Ok (occ, impl')
    /\ count_crossings
         (Example.rtcFilterCandidates
            (bvh (scene (commit_if_needed Example.registered)))
            (probe_ray (data Example.many_points) 4294967296)) = 1%Z
    /\ data occ 4294967296%N = Float32.zero
    /\ ~ spec_occupancy_parity Example.rtcFilterCandidates
           (bvh (scene (commit_if_needed Example.registered)))
           Example.many_points occ.
Proof.
  destruct (ComputeOccupancy_returns Example.rtcFilterCandidates Example.DivUp
              Example.uninit_float Example.uninit_int
              Example.many_points Example.registered eq_refl) as (occ & impl' & Hocc).
  destruct (ComputeOccupancy_by_count _ _ _ _ _ _ Hocc)
    as (counts & impl2 & Hcount & Hpar).
  exists occ, impl'.
  split; [exact Hocc |].
  assert (Hi : (4294967296 < NumElements (removelast (shape Example.many_points)))%N)
    by reflexivity.
  assert (Ho : data occ 4294967296%N = Float32.zero).
  { rewrite (Hpar _ Hi).
    rewrite (proj2 (@CountIntersections_probe_general _ _ _ _ _ _ _ _ _ Hcount)
                   4294967296%N)
      by (try discriminate; reflexivity).
    reflexivity. }
  split; [reflexivity |]. split; [exact Ho |].
  intros Hspec; specialize (Hspec _ Hi); rewrite Ho in Hspec.
  vm_compute in Hspec; discriminate.
Qed.

(** ** PeerConnectionManager.h *)

Lemma reports_deleting :
  forall (states : list PeerConnectionManager.IceConnectionState)
         (o : PeerConnectionManager.PeerConnectionObserver),
    PeerConnectionManager.deleting_ o = true ->
    let o' := PeerConnectionManager.reports states o in
    PeerConnectionManager.hangups o' = PeerConnectionManager.hangups o
    /\ PeerConnectionManager.deleting_ o' = true
    /\ PeerConnectionManager.peerid_ o' = PeerConnectionManager.peerid_ o.
Proof.
  intros states; induction states as [| s states IH]; intros o Hdel; cbn zeta.
  - auto.
  - unfold PeerConnectionManager.reports; cbn [fold_left].
    fold (PeerConnectionManager.reports states
            (PeerConnectionManager.OnIceConnectionChange s o)).
    assert (Hstep : PeerConnectionManager.hangups
                      (PeerConnectionManager.OnIceConnectionChange s o)
                    = PeerConnectionManager.hangups o
                    /\ PeerConnectionManager.deleting_
                         (PeerConnectionManager.OnIceConnectionChange s o) = true
                    /\ PeerConnectionManager.peerid_
                         (PeerConnectionManager.OnIceConnectionChange s o)
                       = PeerConnectionManager.peerid_ o).
    { destruct s; cbn; rewrite ?Hdel; cbn; auto. }
    destruct Hstep as (Hh & Hd & Hp).
    destruct (IH _ Hd) as (Hh' & Hd' & Hp').
    rewrite Hh', Hd', Hp'; auto.
Qed.

(** Destroying an observer never schedules a [HangUp]: whatever states the
    connection reports while it closes, the destructor (which sets
    [deleting_] before it calls [Close]) leaves the list of scheduled
    hang-ups as it was; the candidates it had gathered are dropped as soon as
    a report says failed or closed. *)
Theorem destructor_schedules_no_HangUp :
  forall (close_reports : list PeerConnectionManager.IceConnectionState)
         (o : PeerConnectionManager.PeerConnectionObserver),
    let o' := PeerConnectionManager.delete_PeerConnectionObserver close_reports o in
    PeerConnectionManager.hangups o' = PeerConnectionManager.hangups o
    /\ PeerConnectionManager.peerid_ o' = PeerConnectionManager.peerid_ o
    /\ (PeerConnectionManager.pc_ o = true ->
        PeerConnectionManager.deleting_ o' = true
        /\ (existsb PeerConnectionManager.is_terminal close_reports = true ->
            PeerConnectionManager.ice_candidate_list_ o' = [])).
Proof.
  intros close_reports o o'; unfold o', PeerConnectionManager.delete_PeerConnectionObserver.
  destruct (PeerConnectionManager.pc_ o) eqn:Hpc.
  - set (o1 := PeerConnectionManager.mkPeerConnectionObserver _ _ _ _ _).
    destruct (@reports_deleting close_reports o1 eq_refl) as (Hh & Hd & Hp).
    split; [exact Hh |]. split; [exact Hp |].
    intros _; split; [exact Hd |].
    clear Hh Hd Hp.
    assert (Hgen : forall states (x : PeerConnectionManager.PeerConnectionObserver),
               existsb PeerConnectionManager.is_terminal states = true
               \/ PeerConnectionManager.ice_candidate_list_ x = [] ->
               PeerConnectionManager.ice_candidate_list_
                 (PeerConnectionManager.reports states x) = []).
    { induction states as [| s states IH]; intros x [H | H]; cbn in *;
        try discriminate; try assumption.
      - apply IH. destruct s; cbn in *;
          try (right; destruct (PeerConnectionManager.deleting_ x); reflexivity).
        now left.
      - apply IH; right.
        destruct s; cbn; try assumption;
          destruct (PeerConnectionManager.deleting_ x); reflexivity. }
    intros Hterm; apply Hgen; now left.
  - split; [reflexivity |]. split; [reflexivity |]. intros H; discriminate.
Qed.

(** A live observer schedules one [HangUp] of its own peer id for every
    report of a failed or a closed connection - two, when a failure is
    followed by the close - and none for any other state; the first such
    report empties the list of gathered candidates, and reports of other
    states change nothing. *)
Theorem OnIceConnectionChange_hangs_up_per_report :
  forall (states : list PeerConnectionManager.IceConnectionState)
         (o : PeerConnectionManager.PeerConnectionObserver),
    PeerConnectionManager.deleting_ o = false ->
    let o' := PeerConnectionManager.reports states o in
    let n := length (filter PeerConnectionManager.is_terminal states) in
    PeerConnectionManager.hangups o'
    = PeerConnectionManager.hangups o ++ repeat (PeerConnectionManager.peerid_ o) n
    /\ (n = 0%nat -> o' = o)
    /\ ((0 < n)%nat -> PeerConnectionManager.ice_candidate_list_ o' = []).
Proof.
  intros states; induction states as [| s states IH]; intros o Hlive; cbn zeta.
  - cbn; rewrite app_nil_r; repeat split; [intros H; lia].
  - unfold PeerConnectionManager.reports; cbn [fold_left].
    fold (PeerConnectionManager.reports states
            (PeerConnectionManager.OnIceConnectionChange s o)).
    destruct s as [| | code].
    + assert (Hstep : PeerConnectionManager.OnIceConnectionChange
                        PeerConnectionManager.kIceConnectionFailed o
                      = PeerConnectionManager.mkPeerConnectionObserver
                          (PeerConnectionManager.peerid_ o) (PeerConnectionManager.pc_ o)
                          [] false
                          (PeerConnectionManager.hangups o
                           ++ [PeerConnectionManager.peerid_ o])).
      { unfold PeerConnectionManager.OnIceConnectionChange; cbn; rewrite Hlive; reflexivity. }
      rewrite Hstep.
      match goal with
      | |- context [PeerConnectionManager.reports states ?x] =>
          destruct (IH x eq_refl) as (Hh & Hsame & Hclear)
      end.
      cbn [filter PeerConnectionManager.is_terminal length repeat].
      cbn [PeerConnectionManager.hangups PeerConnectionManager.peerid_] in Hh.
      split; [rewrite Hh, <- app_assoc; reflexivity |].
      split; [intros H; discriminate |].
      intros _.
      destruct (length (filter PeerConnectionManager.is_terminal states)) eqn:E.
      * rewrite (Hsame eq_refl); reflexivity.
      * apply Hclear; lia.
    + assert (Hstep : PeerConnectionManager.OnIceConnectionChange
                        PeerConnectionManager.kIceConnectionClosed o
                      = PeerConnectionManager.mkPeerConnectionObserver
                          (PeerConnectionManager.peerid_ o) (PeerConnectionManager.pc_ o)
                          [] false
                          (PeerConnectionManager.hangups o
                           ++ [PeerConnectionManager.peerid_ o])).
      { unfold PeerConnectionManager.OnIceConnectionChange; cbn; rewrite Hlive; reflexivity. }
      rewrite Hstep.
      match goal with
      | |- context [PeerConnectionManager.reports states ?x] =>
          destruct (IH x eq_refl) as (Hh & Hsame & Hclear)
      end.
      cbn [filter PeerConnectionManager.is_terminal length repeat].
      cbn [PeerConnectionManager.hangups PeerConnectionManager.peerid_] in Hh.
      split; [rewrite Hh, <- app_assoc; reflexivity |].
      split; [intros H; discriminate |].
      intros _.
      destruct (length (filter PeerConnectionManager.is_terminal states)) eqn:E.
      * rewrite (Hsame eq_refl); reflexivity.
      * apply Hclear; lia.
    + cbn [PeerConnectionManager.OnIceConnectionChange filter
             PeerConnectionManager.is_terminal].
      apply (IH o Hlive).
Qed.

Lemma getStats_loop_spec :
  forall (fuel : nat) (count : Z) (empty_at : nat -> bool) (slept : nat),
    (0 < count)%Z ->
    (count <= Z.of_nat fuel)%Z ->
    exists k,
      PeerConnectionManager.getStats_loop fuel count empty_at slept = Some (slept + k)%nat
      /\ (Z.of_nat k <= count - 1)%Z
      /\ (forall j, (j < k)%nat -> empty_at (slept + j)%nat = true)
      /\ ((Z.of_nat k < count - 1)%Z -> empty_at (slept + k)%nat = false).
Proof.
  induction fuel as [| fuel IH]; intros count empty_at slept Hpos Hfuel; [lia |].
  cbn [PeerConnectionManager.getStats_loop].
  destruct (empty_at slept) eqn:Hempty.
  - destruct (0 <? count - 1)%Z eqn:Hcount.
    + apply Z.ltb_lt in Hcount.
      destruct (IH (count - 1)%Z empty_at (Datatypes.S slept)) as (k & Hrun & Hk & Hall & Hlast);
        [lia | lia |].
      exists (Datatypes.S k).
      replace (slept + Datatypes.S k)%nat with (Datatypes.S slept + k)%nat by lia.
      split; [exact Hrun |]. split; [lia |]. split.
      * intros j Hj; destruct j as [| j].
        -- now rewrite Nat.add_0_r.
        -- replace (slept + Datatypes.S j)%nat with (Datatypes.S slept + j)%nat by lia.
           apply Hall; lia.
      * intros Hlt; apply Hlast; lia.
    + apply Z.ltb_ge in Hcount.
      exists 0%nat; rewrite Nat.add_0_r.
      split; [reflexivity |]. split; [lia |].
      split; [intros j Hj; lia | intros Hlt; lia].
  - exists 0%nat; rewrite Nat.add_0_r.
    split; [reflexivity |]. split; [lia |].
    split; [intros j Hj; lia | intros _; exact Hempty].
Qed.

(** [getStats] gives up: whatever the statistics callback receives and
    whenever, the loop ends after at most nine sleeps of one second, ten
    tests in all; it sleeps only while the report is empty, and if it
    returns before the ninth sleep the report was not empty at its last
    test. *)
Theorem getStats_sleeps_at_most_nine_times :
  forall (fuel : nat) (empty_at : nat -> bool),
    (10 <= fuel)%nat ->
    exists k,
      PeerConnectionManager.getStats_sleeps fuel empty_at = Some k
      /\ (k <= 9)%nat
      /\ (forall j, (j < k)%nat -> empty_at j = true)
      /\ ((k < 9)%nat -> empty_at k = false).
Proof.
  intros fuel empty_at Hfuel; unfold PeerConnectionManager.getStats_sleeps.
  destruct (@getStats_loop_spec fuel 10 empty_at 0) as (k & Hrun & Hk & Hall & Hlast);
    [lia | lia |].
  exists k; cbn [Nat.add] in *.
  split; [exact Hrun |]. split; [lia |].
  split; [exact Hall | intros Hlt; apply Hlast; lia].
Qed.

Lemma json_get_set_eq : forall (V : Type) (k : string) (v : V)
                               (obj : PeerConnectionManager.Json_object V),
    PeerConnectionManager.json_get k (PeerConnectionManager.json_set k v obj) = Some v.
Proof.
  intros V k v obj; induction obj as [| [k' v'] rest IH]; cbn.
  - now rewrite String.eqb_refl.
  - destruct (String.eqb k' k) eqn:E; cbn.
    + now rewrite String.eqb_refl.
    + now rewrite E.
Qed.

Lemma json_get_set_neq : forall (V : Type) (k k0 : string) (v : V)
                                (obj : PeerConnectionManager.Json_object V),
    k <> k0 ->
    PeerConnectionManager.json_get k0 (PeerConnectionManager.json_set k v obj)
    = PeerConnectionManager.json_get k0 obj.
Proof.
  intros V k k0 v obj Hne; induction obj as [| [k' v'] rest IH]; cbn.
  - apply String.eqb_neq in Hne; now rewrite Hne.
  - destruct (String.eqb k' k) eqn:E; cbn.
    + apply String.eqb_eq in E; subst k'.
      apply String.eqb_neq in Hne; now rewrite Hne.
    + destruct (String.eqb k' k0); [reflexivity | exact IH].
Qed.

Lemma json_set_fold_get :
  forall (A V : Type) (key : A -> string) (val : A -> V) (l : list A)
         (obj : PeerConnectionManager.Json_object V) (k : string),
    PeerConnectionManager.json_get k
      (fold_left (fun o a => PeerConnectionManager.json_set (key a) (val a) o) l obj)
    = match find (fun a => String.eqb (key a) k) (rev l) with
      | Some a => Some (val a)
      | None => PeerConnectionManager.json_get k obj
      end.
Proof.
  intros A V key val l; induction l as [| a l IH] using rev_ind; intros obj k.
  - reflexivity.
  - rewrite fold_left_app, rev_app_distr; cbn [fold_left rev app find].
    destruct (String.eqb (key a) k) eqn:E.
    + apply String.eqb_eq in E; subst k; apply json_get_set_eq.
    + apply String.eqb_neq in E; rewrite json_get_set_neq by exact E; apply IH.
Qed.

(** Looking a delivery up: after [OnStatsDelivered] the report holds under
    an id the members of the last statistics object of the delivery with
    that id, each member name with the value of the last member of that
    name; what the report held under ids the delivery does not mention
    stays, so deliveries accumulate; and a delivery that is not empty
    leaves a report that is not empty. *)
Theorem OnStatsDelivered_last_wins :
  forall (report : list PeerConnectionManager.RTCStats)
         (report_ : PeerConnectionManager.Json_object
                      (PeerConnectionManager.Json_object string))
         (id : string),
    let report' := PeerConnectionManager.OnStatsDelivered report report_ in
    PeerConnectionManager.json_get id report'
    = match find (fun s => String.eqb (PeerConnectionManager.stats_id s) id)
                 (rev report) with
      | Some s =>
          Some (PeerConnectionManager.statsMembers (PeerConnectionManager.Members s))
      | None => PeerConnectionManager.json_get id report_
      end
    /\ (forall (members : list (string * string)) (name : string),
           PeerConnectionManager.json_get name
             (PeerConnectionManager.statsMembers members)
           = option_map snd (find (fun m => String.eqb (fst m) name) (rev members)))
    /\ (report <> [] -> PeerConnectionManager.json_empty report' = false).
Proof.
  intros report report_ id report'; split; [| split].
  - unfold report', PeerConnectionManager.OnStatsDelivered.
    apply (json_set_fold_get PeerConnectionManager.stats_id
             (fun s => PeerConnectionManager.statsMembers
                         (PeerConnectionManager.Members s))).
  - intros members name; unfold PeerConnectionManager.statsMembers.
    rewrite (json_set_fold_get (@fst string string) (@snd string string)).
    now destruct (find _ (rev members)).
  - intros Hne; unfold report', PeerConnectionManager.OnStatsDelivered.
    destruct report as [| s report] using rev_ind; [congruence |].
    rewrite fold_left_app; cbn [fold_left].
    match goal with
    | |- PeerConnectionManager.json_empty
           (PeerConnectionManager.json_set _ _ ?o) = false => destruct o as [| [k v] o']
    end; cbn; [reflexivity |].
    now destruct (String.eqb k (PeerConnectionManager.stats_id s)).
Qed.

Lemma destructor_schedules_no_HangUp_witness :
  let o := PeerConnectionManager.mkPeerConnectionObserver
             "peer"%string true ["candidate"%string] false [] in
  let o' := PeerConnectionManager.delete_PeerConnectionObserver
              [PeerConnectionManager.kIceConnectionClosed] o in
  PeerConnectionManager.pc_ o = true
  /\ existsb PeerConnectionManager.is_terminal
             [PeerConnectionManager.kIceConnectionClosed] = true
  /\ PeerConnectionManager.hangups o' = []
  /\ PeerConnectionManager.ice_candidate_list_ o' = [].
Proof.
  cbv zeta.
  split; [reflexivity |]. split; [reflexivity |].
  destruct (destructor_schedules_no_HangUp
              [PeerConnectionManager.kIceConnectionClosed]
              (PeerConnectionManager.mkPeerConnectionObserver
                 "peer"%string true ["candidate"%string] false []))
    as (Hh & _ & Hpc).
  split; [exact Hh |].
  exact (proj2 (Hpc eq_refl) eq_refl).
Defined.

Lemma OnIceConnectionChange_hangs_up_per_report_witness :
  let o := PeerConnectionManager.new_PeerConnectionObserver "peer"%string true in
  let states := [PeerConnectionManager.kIceConnectionOther 2;
                 PeerConnectionManager.kIceConnectionFailed;
                 PeerConnectionManager.kIceConnectionClosed] in
  PeerConnectionManager.deleting_ o = false
  /\ PeerConnectionManager.hangups (PeerConnectionManager.reports states o)
     = ["peer"%string; "peer"%string].
Proof.
  cbv zeta.
  split; [reflexivity |].
  exact (proj1 (@OnIceConnectionChange_hangs_up_per_report
                  [PeerConnectionManager.kIceConnectionOther 2;
                   PeerConnectionManager.kIceConnectionFailed;
                   PeerConnectionManager.kIceConnectionClosed]
                  (PeerConnectionManager.new_PeerConnectionObserver "peer"%string true)
                  eq_refl)).
Defined.

Lemma getStats_sleeps_at_most_nine_times_witness :
  (10 <= 10)%nat
  /\ exists k,
      PeerConnectionManager.getStats_sleeps 10 (fun j => (j <? 3)%nat) = Some k
      /\ (k <= 9)%nat.
Proof.
  assert (Hfuel : (10 <= 10)%nat) by apply le_n.
  split; [exact Hfuel |].
  destruct (@getStats_sleeps_at_most_nine_times 10 (fun j => (j <? 3)%nat) Hfuel)
    as (k & Hrun & Hk & _).
  exists k; split; [exact Hrun | exact Hk].
Defined.

Lemma OnStatsDelivered_last_wins_witness :
  let report := [PeerConnectionManager.mkRTCStats "a"%string
                   [("x"%string, "1"%string); ("x"%string, "2"%string)];
                 PeerConnectionManager.mkRTCStats "a"%string
                   [("y"%string, "3"%string)]] in
  report <> []
  /\ PeerConnectionManager.json_get "a"%string
       (PeerConnectionManager.OnStatsDelivered report []) = Some [("y"%string, "3"%string)]
  /\ PeerConnectionManager.json_empty
       (PeerConnectionManager.OnStatsDelivered report []) = false.
Proof.
  cbv zeta.
  match goal with
  | |- ?A /\ _ => assert (Hne : A) by discriminate
  end.
  split; [exact Hne |].
  destruct (OnStatsDelivered_last_wins
              [PeerConnectionManager.mkRTCStats "a"%string
                 [("x"%string, "1"%string); ("x"%string, "2"%string)];
               PeerConnectionManager.mkRTCStats "a"%string
                 [("y"%string, "3"%string)]] [] "a"%string)
    as (Hget & _ & Hempty).
  split; [exact Hget | exact (Hempty Hne)].
Defined.
